(** * The question-normalization pipeline of [src/services/geminiService.ts]

    A shallow embedding of [repairMalformedLatex], [latexToSimple],
    [cleanAndParseJSON], [normalizeQuestion] and of the part of the two
    generation entry points that follows the network call, together with
    the pieces of the JavaScript platform they call: strings of UTF-16
    code units, [String.prototype.replace] with a global regular
    expression, [trim], [indexOf], [lastIndexOf], [substring],
    [JSON.parse], [String()], [parseInt], truthiness and [||].

    It is followed by the components of [src/components] that show the
    questions: the split and the spans of [MathRenderer], and the
    handlers of [BattleMode] and of [PracticeMode] on the state of the
    component, with the closures, the refs and the timers of the
    source. *)

From Stdlib Require Import Ascii String.
From Stdlib Require Import List NArith ZArith QArith Bool Lia.
From Stdlib Require Decimal DecimalNat.
Import ListNotations.

Set Implicit Arguments.
Close Scope Q_scope.
Open Scope list_scope.

(** ** Strings *)

Module JSString.

(** A JavaScript string is a sequence of 16-bit code units; a regular
    expression without the [u] flag works on code units. *)
Definition char16 := N.
Definition jsstring := list char16.

(** The code units of an ASCII literal. *)
Definition js (s : string) : jsstring :=
  map N_of_ascii (list_ascii_of_string s).

(** Examples of JSON text are written with an apostrophe where the text
    has a double quote. *)
Definition quoted (s : string) : jsstring :=
  map (fun c => if N.eqb c 39 then 34%N else c) (js s).

Fixpoint eqb (s t : jsstring) : bool :=
  match s, t with
  | [], [] => true
  | a :: s', b :: t' => N.eqb a b && eqb s' t'
  | _, _ => false
  end.

(** [\s] of a regular expression, which is also what [trim] removes:
    WhiteSpace and LineTerminator of ECMA-262. *)
Definition isSpace (c : char16) : bool :=
  ((9 <=? c) && (c <=? 13) || (c =? 32) || (c =? 160) || (c =? 5760)
   || (8192 <=? c) && (c <=? 8202) || (c =? 8232) || (c =? 8233)
   || (c =? 8239) || (c =? 8287) || (c =? 12288) || (c =? 65279))%N.

(** [[A-Za-z0-9]] *)
Definition isAlnum (c : char16) : bool :=
  ((65 <=? c) && (c <=? 90) || (97 <=? c) && (c <=? 122)
   || (48 <=? c) && (c <=? 57))%N.

Definition isDigit (c : char16) : bool := ((48 <=? c) && (c <=? 57))%N.

Definition dollar : char16 := 36%N.
Definition backslash : char16 := 92%N.
Definition caret : char16 := 94%N.
Definition underscore : char16 := 95%N.
Definition lbrace : char16 := 123%N.
Definition rbrace : char16 := 125%N.
Definition lbracket : char16 := 91%N.
Definition rbracket : char16 := 93%N.

(** [stripPrefix p s] is what follows [p] when [s] starts with [p]. *)
Fixpoint stripPrefix (p s : jsstring) : option jsstring :=
  match p, s with
  | [], _ => Some s
  | a :: p', b :: s' => if N.eqb a b then stripPrefix p' s' else None
  | _ :: _, [] => None
  end.

(** [breakAt c s] splits [s] at the first occurrence of [c], which is
    dropped. *)
Fixpoint breakAt (c : char16) (s : jsstring) : option (jsstring * jsstring) :=
  match s with
  | [] => None
  | d :: s' =>
      if N.eqb d c then Some ([], s')
      else match breakAt c s' with
           | Some (before, after) => Some (d :: before, after)
           | None => None
           end
  end.

Fixpoint dropSpaces (s : jsstring) : jsstring :=
  match s with
  | c :: s' => if isSpace c then dropSpaces s' else s
  | [] => []
  end.

(** The number of whitespace code units [s] starts with. *)
Fixpoint spaceRun (s : jsstring) : nat :=
  match s with
  | c :: s' => if isSpace c then S (spaceRun s') else 0
  | [] => 0
  end.

(** [s] without the whitespace it ends with. *)
Fixpoint dropTrailingSpaces (s : jsstring) : jsstring :=
  match s with
  | [] => []
  | c :: s' =>
      match dropTrailingSpaces s' with
      | [] => if isSpace c then [] else [c]
      | r => c :: r
      end
  end.

(** [String.prototype.trim] *)
Definition trim (s : jsstring) : jsstring :=
  dropTrailingSpaces (dropSpaces s).

(** [String.prototype.indexOf] and [lastIndexOf] for a one-unit needle;
    [None] is the [-1] of JavaScript. *)
Fixpoint indexOf (c : char16) (s : jsstring) : option nat :=
  match s with
  | [] => None
  | d :: s' => if N.eqb d c then Some 0
               else option_map S (indexOf c s')
  end.

Fixpoint lastIndexOf (c : char16) (s : jsstring) : option nat :=
  match s with
  | [] => None
  | d :: s' =>
      match lastIndexOf c s' with
      | Some i => Some (S i)
      | None => if N.eqb d c then Some 0 else None
      end
  end.

(** [String.prototype.substring]: the two indices are clamped to the
    length and swapped when the first is the larger. *)
Definition substring (s : jsstring) (a b : nat) : jsstring :=
  let a' := Nat.min a (length s) in
  let b' := Nat.min b (length s) in
  let lo := Nat.min a' b' in
  let hi := Nat.max a' b' in
  firstn (hi - lo) (skipn lo s).

End JSString.
Import JSString.

(** ** [String.prototype.replace] with a global regular expression *)

Module Regex.

(** A pattern is tried at one index of the input.  It is given whether
    that index is 0 (where [^] matches) and the input from that index
    on (so that [$] is the empty remainder), and answers with the
    replacement text and the number of code units matched. *)
Definition pattern := bool -> jsstring -> option (jsstring * nat).

(** The scan of [replace] under the [g] flag: matches are looked for
    from left to right, a match is replaced and the scan resumes after
    it; after an empty match the scan moves on by one unit.  [skip]
    counts the units of the current match still to be passed over. *)
Fixpoint scan (p : pattern) (atStart : bool) (skip : nat) (s : jsstring)
  : jsstring :=
  match s with
  | [] =>
      match skip, p atStart [] with
      | 0, Some (repl, _) => repl
      | _, _ => []
      end
  | c :: s' =>
      match skip with
      | S k => scan p false k s'
      | 0 =>
          match p atStart s with
          | Some (repl, 0) => repl ++ c :: scan p false 0 s'
          | Some (repl, S k) => repl ++ scan p false k s'
          | None => c :: scan p false 0 s'
          end
      end
  end.

Definition replaceAll (p : pattern) (s : jsstring) : jsstring :=
  scan p true 0 s.

(** [a <|> b]: the alternatives of a regular expression are tried in
    order. *)
Definition orElse {A} (a b : option A) : option A :=
  match a with Some _ => a | None => b end.

(** A literal pattern [/lit/g] replaced by a fixed text. *)
Definition literal (lit repl : jsstring) : pattern :=
  fun _ s =>
    match stripPrefix lit s with
    | Some _ => Some (repl, length lit)
    | None => None
    end.

(** [/(\s|^)tok/g] replaced by [$1] followed by [repl]. *)
Definition afterBoundary (tok repl : jsstring) : pattern :=
  fun atStart s =>
    orElse
      match s with
      | c :: s' =>
          if isSpace c then
            match stripPrefix tok s' with
            | Some _ => Some (c :: repl, S (length tok))
            | None => None
            end
          else None
      | [] => None
      end
      (if atStart then
         match stripPrefix tok s with
         | Some _ => Some (repl, length tok)
         | None => None
         end
       else None).

(** [tok(\s|$)] at the head of [s]: the text of group 2 and the units
    matched. *)
Definition wordEnd (tok s : jsstring) : option (jsstring * nat) :=
  match stripPrefix tok s with
  | Some [] => Some ([], length tok)
  | Some (d :: _) => if isSpace d then Some ([d], S (length tok)) else None
  | None => None
  end.

(** [/(\s|^)tok(\s|$)/g] replaced by [$1], [repl], [$2]. *)
Definition standalone (tok repl : jsstring) : pattern :=
  fun atStart s =>
    orElse
      match s with
      | c :: s' =>
          if isSpace c then
            match wordEnd tok s' with
            | Some (g2, n) => Some (c :: repl ++ g2, S n)
            | None => None
            end
          else None
      | [] => None
      end
      (if atStart then
         match wordEnd tok s with
         | Some (g2, n) => Some (repl ++ g2, n)
         | None => None
         end
       else None).

(** [/open([^}]* )\}/g] replaced by [keep] followed by [$1]: the group
    is greedy and stops at the first closing brace, which has to be
    there. *)
Definition braced (open keep : jsstring) : pattern :=
  fun _ s =>
    match stripPrefix open s with
    | Some rest =>
        match breakAt rbrace rest with
        | Some (inner, _) =>
            Some (keep ++ inner, length open + length inner + 1)
        | None => None
        end
    | None => None
    end.

(** [/c([A-Za-z0-9])/g] replaced by [c] followed by [$1]. *)
Definition script (c : char16) : pattern :=
  fun _ s =>
    match s with
    | a :: d :: _ =>
        if N.eqb a c && isAlnum d then Some ([c; d], 2) else None
    | _ => None
    end.

(** [/\s+/g] replaced by [repl]. *)
Definition spaces (repl : jsstring) : pattern :=
  fun _ s =>
    match spaceRun s with
    | 0 => None
    | n => Some (repl, n)
    end.

(** [/\$([^\$]+)\$/g] with the replacer function of the source, which
    puts the group back between two dollar signs. *)
Definition dollarSpan : pattern :=
  fun _ s =>
    match s with
    | c :: rest =>
        if N.eqb c dollar then
          match breakAt dollar rest with
          | Some (d :: inner, _) =>
              Some (dollar :: (d :: inner) ++ [dollar], length inner + 3)
          | _ => None
          end
        else None
    | [] => None
    end.

End Regex.
Import Regex.

(** ** The two markup functions of the source *)

(** Step 1 of the source: fix the commands that lost their backslash
    on the way, as in [20 ext{ N}].  The last statement rewrites each
    span between two dollar signs to itself. *)
Definition repairMalformedLatex (text : jsstring) : jsstring :=
  match text with
  | [] => []
  | _ =>
      (* /(\s|^)ext\{/g by $1\text{, and so on *)
      let t := replaceAll (afterBoundary (js "ext{") (js "\text{")) text in
      let t := replaceAll (afterBoundary (js "frac{") (js "\frac{")) t in
      let t := replaceAll (afterBoundary (js "sqrt{") (js "\sqrt{")) t in
      (* /(\s|^)times(\s|$)/g by $1\times$2, and so on *)
      let t := replaceAll (standalone (js "times") (js "\times")) t in
      let t := replaceAll (standalone (js "mu") (js "\mu")) t in
      let t := replaceAll (standalone (js "pi") (js "\pi")) t in
      let t := replaceAll (standalone (js "theta") (js "\theta")) t in
      (* content inside $...$ *)
      let t := replaceAll dollarSpan t in
      t
  end.

(** Step 2 of the source: the conversion to plain reading text. *)
Definition latexToSimple (text : jsstring) : jsstring :=
  match text with
  | [] => []
  | _ =>
      let t := text in
      (* Remove math-mode $ *)
      let t := replaceAll (literal (js "$") []) t in
      (* Convert \text{...} to plain text *)
      let t := replaceAll (braced (js "\text{") []) t in
      (* Convert \mathrm{...} also *)
      let t := replaceAll (braced (js "\mathrm{") []) t in
      (* Convert superscripts ^{...} -> ^... *)
      let t := replaceAll (braced (js "^{") (js "^")) t in
      (* Convert subscripts _{...} -> _... *)
      let t := replaceAll (braced (js "_{") (js "_")) t in
      (* Convert single superscript ^x *)
      let t := replaceAll (script caret) t in
      (* Convert single subscript _x *)
      let t := replaceAll (script underscore) t in
      (* Remove LaTeX spacing commands \, \; \: *)
      let t := replaceAll (literal (js "\,") (js " ")) t in
      let t := replaceAll (literal (js "\;") (js " ")) t in
      let t := replaceAll (literal (js "\:") (js " ")) t in
      (* Clean common symbols to unicode if they remain: the
         multiplication sign, mu, the degree sign, pi, theta, Delta,
         Omega *)
      let t := replaceAll (literal (js "\times") [215%N]) t in
      let t := replaceAll (literal (js "\mu") [956%N]) t in
      let t := replaceAll (literal (js "\circ") [176%N]) t in
      let t := replaceAll (literal (js "\pi") [960%N]) t in
      let t := replaceAll (literal (js "\theta") [952%N]) t in
      let t := replaceAll (literal (js "\Delta") [916%N]) t in
      let t := replaceAll (literal (js "\Omega") [937%N]) t in
      (* Extra trimming of multiple spaces *)
      trim (replaceAll (spaces (js " ")) t)
  end.

(** ** Values *)

Module JSValue.

(** A Number that [JSON.parse] can yield: a finite value, kept exact as
    a rational, or an infinity (on the platform a literal beyond the
    range of binary64 overflows to one).  [NaN] never appears in parsed
    JSON; it only arises as a result of [parseInt], where it is
    [None]. *)
Inductive number :=
| Finite (q : Q)
| Infinity (negative : bool).

Definition ofZ (z : Z) : number := Finite (inject_Z z).
Definition ofNat (n : nat) : number := ofZ (Z.of_nat n).

(** [a < b] and [a >= b] on Numbers. *)
Definition ltb (a b : number) : bool :=
  match a, b with
  | Finite p, Finite q => negb (Qle_bool q p)
  | Finite _, Infinity negative => negb negative
  | Infinity negative, Finite _ => negative
  | Infinity n1, Infinity n2 => n1 && negb n2
  end.

Definition geb (a b : number) : bool := negb (ltb a b).

(** The values of the language that the pipeline meets: what
    [JSON.parse] builds, and [undefined], which reading an absent
    property gives.  A record lists its own properties; when a key
    occurs twice the later occurrence is the property, as in
    [JSON.parse]. *)
#[warnings="-register-all"]
Inductive value :=
| VUndefined
| VNull
| VBool (b : bool)
| VNumber (n : number)
| VString (s : jsstring)
| VArray (items : list value)
| VObject (fields : list (jsstring * value)).

(** What is thrown: by a conversion or a call, by [JSON.parse], by the
    call of the model. *)
Inductive error := TypeError | SyntaxError | TransportError.

(** The outcome of evaluating an expression that may throw. *)
Inductive completion (A : Type) :=
| Normal (a : A)
| Throw (e : error).
Arguments Normal {A} a.
Arguments Throw {A} e.

Definition bind {A B} (c : completion A) (k : A -> completion B)
  : completion B :=
  match c with
  | Normal a => k a
  | Throw e => Throw e
  end.

(** [try { c } catch (e) { handler }] *)
Definition tryCatch {A} (c : completion A) (handler : error -> A) : A :=
  match c with
  | Normal a => a
  | Throw e => handler e
  end.

Fixpoint mapM {A B} (f : A -> completion B) (l : list A)
  : completion (list B) :=
  match l with
  | [] => Normal []
  | a :: l' =>
      bind (f a) (fun b => bind (mapM f l') (fun bs => Normal (b :: bs)))
  end.

(** ToBoolean *)
Definition truthy (v : value) : bool :=
  match v with
  | VUndefined | VNull => false
  | VBool b => b
  | VNumber (Finite q) => negb (Qeq_bool q 0)
  | VNumber (Infinity _) => true
  | VString s => match s with [] => false | _ => true end
  | VArray _ | VObject _ => true
  end.

(** [a || b] *)
Definition or (a b : value) : value := if truthy a then a else b.

Definition nullish (v : value) : bool :=
  match v with
  | VUndefined | VNull => true
  | _ => false
  end.

(** The own property [k] of a record. *)
Fixpoint getOwn (k : jsstring) (fields : list (jsstring * value))
  : option value :=
  match fields with
  | [] => None
  | (k', v) :: rest =>
      match getOwn k rest with
      | Some w => Some w
      | None => if eqb k' k then Some v else None
      end
  end.

(** [v.k] for a [v] that is neither [undefined] nor [null], and a [k]
    among the names this file reads (question, Question, text, query,
    options, Options, choices, answers, correctIndex, answerIndex,
    explanation, Explanation): none of them is an index, [length], or a
    property of a built-in prototype, so only a record's own property
    can answer. *)
Definition get (v : value) (k : jsstring) : value :=
  match v with
  | VObject fields =>
      match getOwn k fields with
      | Some w => w
      | None => VUndefined
      end
  | _ => VUndefined
  end.

Definition isArray (v : value) : bool :=
  match v with VArray _ => true | _ => false end.

(** The elements of an array (and none for another value, which has
    no use here: [map] and [length] are applied after [Array.isArray]). *)
Definition elements (v : value) : list value :=
  match v with VArray items => items | _ => [] end.

(** ** [Number::toString]

    The decimal digits of a natural number are its string form (it is
    below 10^21 for an array index and for a clock reading in
    milliseconds).  The string form of an arbitrary Number is the
    shortest decimal that reads back as the same binary64; it is left
    to the platform. *)
Fixpoint digits (d : Decimal.uint) : jsstring :=
  match d with
  | Decimal.Nil => []
  | Decimal.D0 d => 48%N :: digits d
  | Decimal.D1 d => 49%N :: digits d
  | Decimal.D2 d => 50%N :: digits d
  | Decimal.D3 d => 51%N :: digits d
  | Decimal.D4 d => 52%N :: digits d
  | Decimal.D5 d => 53%N :: digits d
  | Decimal.D6 d => 54%N :: digits d
  | Decimal.D7 d => 55%N :: digits d
  | Decimal.D8 d => 56%N :: digits d
  | Decimal.D9 d => 57%N :: digits d
  end.

Definition natToString (n : nat) : jsstring := digits (Nat.to_uint n).
Definition NToString (n : N) : jsstring := digits (N.to_uint n).

Class Platform := { Number_toString : number -> jsstring }.

(** ** [String(v)]

    A record converts through [Object.prototype.toString] unless it has
    an own property [toString]: parsed JSON holds no function, so that
    property is not callable, neither [valueOf] yields a primitive, and
    the conversion throws.  An array converts through [join], which
    writes nothing for [undefined] and [null]. *)
Section ToString.
Context `{Platform}.

Fixpoint String_ (v : value) : completion jsstring :=
  match v with
  | VUndefined => Normal (js "undefined")
  | VNull => Normal (js "null")
  | VBool true => Normal (js "true")
  | VBool false => Normal (js "false")
  | VNumber n => Normal (Number_toString n)
  | VString s => Normal s
  | VArray items =>
      (fix join (l : list value) : completion jsstring :=
         match l with
         | [] => Normal []
         | x :: rest =>
             bind (match x with
                   | VUndefined | VNull => Normal []
                   | _ => String_ x
                   end)
               (fun a =>
                  match rest with
                  | [] => Normal a
                  | _ => bind (join rest) (fun b => Normal (a ++ js "," ++ b))
                  end)
         end) items
  | VObject fields =>
      match getOwn (js "toString") fields with
      | Some _ => Throw TypeError
      | None => Normal (js "[object Object]")
      end
  end.

End ToString.

(** The values that [String()] converts without throwing. *)
Fixpoint convertible (v : value) : bool :=
  match v with
  | VArray items =>
      (fix all (l : list value) : bool :=
         match l with
         | [] => true
         | x :: rest => convertible x && all rest
         end) items
  | VObject fields =>
      match getOwn (js "toString") fields with
      | Some _ => false
      | None => true
      end
  | _ => true
  end.

(** ** [parseInt(s)] without a radix

    Leading whitespace is skipped, a sign is read, [0x] or [0X] selects
    radix 16, and the longest run of digits of the radix is the value,
    kept exact; without a digit the result is [NaN], here [None]. *)
Definition digitValue (radix : N) (c : char16) : option N :=
  let d :=
    (if (48 <=? c) && (c <=? 57) then Some (c - 48)
     else if (97 <=? c) && (c <=? 122) then Some (c - 87)
     else if (65 <=? c) && (c <=? 90) then Some (c - 55)
     else None)%N in
  match d with
  | Some n => if (n <? radix)%N then Some n else None
  | None => None
  end.

Fixpoint readDigits (radix : N) (acc : option N) (s : jsstring) : option N :=
  match s with
  | [] => acc
  | c :: s' =>
      match digitValue radix c with
      | Some d =>
          readDigits radix
            (Some (match acc with Some a => a * radix + d | None => d end)%N)
            s'
      | None => acc
      end
  end.

Definition parseInt (s : jsstring) : option Z :=
  let s := dropSpaces s in
  let '(negative, s) :=
    match s with
    | 45%N :: r => (true, r)
    | 43%N :: r => (false, r)
    | _ => (false, s)
    end in
  let '(radix, s) :=
    match s with
    | 48%N :: 120%N :: r => (16%N, r)
    | 48%N :: 88%N :: r => (16%N, r)
    | _ => (10%N, s)
    end in
  match readDigits radix None s with
  | Some n => Some (if negative then (- Z.of_N n)%Z else Z.of_N n)
  | None => None
  end.

(** [n || d] for a Number [n] that is [NaN] or an integer: [NaN] and
    zero are falsy. *)
Definition numberOr (n : option Z) (d : Z) : Z :=
  match n with
  | Some z => if (z =? 0)%Z then d else z
  | None => d
  end.

End JSValue.
Import JSValue.

Declare Scope js_scope.
Delimit Scope js_scope with js.
Infix "||" := or : js_scope.
Notation "c >>= k" := (bind c k) (at level 50, left associativity) : js_scope.
Notation "x <- c ;; k" := (bind c (fun x => k))
  (at level 61, c at next level, right associativity) : js_scope.

(** ** [JSON.parse] *)

Module JSON.

Inductive parsed (A : Type) :=
| Parsed (a : A) (rest : jsstring)
| Malformed
| OutOfFuel.
Arguments Parsed {A} a rest.
Arguments Malformed {A}.
Arguments OutOfFuel {A}.

(** JSON whitespace: space, tab, line feed, carriage return. *)
Definition isWs (c : char16) : bool :=
  ((c =? 32) || (c =? 9) || (c =? 10) || (c =? 13))%N.

Fixpoint skipWs (s : jsstring) : jsstring :=
  match s with
  | c :: s' => if isWs c then skipWs s' else s
  | [] => []
  end.

Definition hexValue (c : char16) : option N := digitValue 16 c.

(** The characters of a string literal after its opening quote, up to
    the closing quote. *)
Fixpoint parseChars (s : jsstring) : parsed jsstring :=
  match s with
  | [] => Malformed
  | c :: s' =>
      if (c =? 34)%N then Parsed [] s'
      else if (c <? 32)%N then Malformed
      else if (c =? 92)%N then
        match s' with
        | e :: s'' =>
            let simple (u : char16) :=
              match parseChars s'' with
              | Parsed t r => Parsed (u :: t) r
              | other => other
              end in
            if (e =? 34)%N then simple 34%N
            else if (e =? 92)%N then simple 92%N
            else if (e =? 47)%N then simple 47%N
            else if (e =? 98)%N then simple 8%N
            else if (e =? 102)%N then simple 12%N
            else if (e =? 110)%N then simple 10%N
            else if (e =? 114)%N then simple 13%N
            else if (e =? 116)%N then simple 9%N
            else if (e =? 117)%N then
              match s'' with
              | h1 :: h2 :: h3 :: h4 :: s4 =>
                  match hexValue h1, hexValue h2, hexValue h3, hexValue h4 with
                  | Some a, Some b, Some c', Some d =>
                      match parseChars s4 with
                      | Parsed t r =>
                          Parsed (((a * 16 + b) * 16 + c') * 16 + d :: t)%N r
                      | other => other
                      end
                  | _, _, _, _ => Malformed
                  end
              | _ => Malformed
              end
            else Malformed
        | [] => Malformed
        end
      else
        match parseChars s' with
        | Parsed t r => Parsed (c :: t) r
        | other => other
        end
  end.

(** The leading decimal digits of [s]: their value, their number, and
    what follows. *)
Fixpoint readDecimal (acc : Z) (count : nat) (s : jsstring)
  : Z * nat * jsstring :=
  match s with
  | c :: s' =>
      if isDigit c then readDecimal (acc * 10 + Z.of_N (c - 48)) (S count) s'
      else (acc, count, s)
  | [] => (acc, count, [])
  end.

(** [m * 10^e] *)
Definition scale (m e : Z) : Q :=
  if (0 <=? e)%Z then inject_Z (m * 10 ^ e)
  else Qmake m (Z.to_pos (10 ^ (- e))).

(** A number literal: an optional minus, an integer part that is 0 or
    starts with a non-zero digit, an optional fraction, an optional
    exponent.  The literal is read at its exact decimal value. *)
Definition readMinus (s : jsstring) : bool * jsstring :=
  match s with
  | c :: r => if (c =? 45)%N then (true, r) else (false, s)
  | [] => (false, s)
  end.

Definition readIntPart (s : jsstring) : option (Z * jsstring) :=
  match s with
  | c :: r =>
      if (c =? 48)%N then Some (0%Z, r)
      else if isDigit c then
        let '(n, _, r') := readDecimal 0 0 s in Some (n, r')
      else None
  | [] => None
  end.

(** The digits read so far and those of the fraction, as one integer,
    and the number of digits of the fraction. *)
Definition readFraction (n : Z) (s : jsstring) : option (Z * Z * jsstring) :=
  match s with
  | c :: r =>
      if (c =? 46)%N then
        match readDecimal n 0 r with
        | (_, 0, _) => None
        | (m, k, r') => Some (m, Z.of_nat k, r')
        end
      else Some (n, 0%Z, s)
  | [] => Some (n, 0%Z, s)
  end.

Definition readExponent (s : jsstring) : option (Z * jsstring) :=
  match s with
  | c :: r =>
      if ((c =? 101) || (c =? 69))%N then
        let '(negative, r) :=
          match r with
          | d :: r' =>
              if (d =? 45)%N then (true, r')
              else if (d =? 43)%N then (false, r')
              else (false, r)
          | [] => (false, r)
          end in
        match readDecimal 0 0 r with
        | (_, 0, _) => None
        | (e, _, r') => Some (if negative then (- e)%Z else e, r')
        end
      else Some (0%Z, s)
  | [] => Some (0%Z, s)
  end.

Definition parseNumber (s : jsstring) : parsed number :=
  let '(negative, s) := readMinus s in
  match readIntPart s with
  | None => Malformed
  | Some (n, s) =>
      match readFraction n s with
      | None => Malformed
      | Some (m, k, s) =>
          match readExponent s with
          | None => Malformed
          | Some (e, s) =>
              Parsed
                (Finite (scale (if negative then (- m)%Z else m) (e - k)))
                s
          end
      end
  end.

Definition parseLiteral (word : jsstring) (v : value) (s : jsstring)
  : parsed value :=
  match stripPrefix word s with
  | Some r => Parsed v r
  | None => Malformed
  end.

(** Recursive descent on the grammar of ECMA-404; each call on a text
    of [n] code units is given more than [2 * n] units of fuel. *)
Fixpoint parseValue (fuel : nat) (s : jsstring) : parsed value :=
  match fuel with
  | 0 => OutOfFuel
  | S fuel =>
      match skipWs s with
      | [] => Malformed
      | c :: s' =>
          if (c =? 91)%N then
            match skipWs s' with
            | d :: r =>
                if (d =? 93)%N then Parsed (VArray []) r
                else parseElements fuel s' []
            | [] => Malformed
            end
          else if (c =? 123)%N then
            match skipWs s' with
            | d :: r =>
                if (d =? 125)%N then Parsed (VObject []) r
                else parseMembers fuel s' []
            | [] => Malformed
            end
          else if (c =? 34)%N then
            match parseChars s' with
            | Parsed t r => Parsed (VString t) r
            | Malformed => Malformed
            | OutOfFuel => OutOfFuel
            end
          else if (c =? 116)%N then
            parseLiteral (js "true") (VBool true) (c :: s')
          else if (c =? 102)%N then
            parseLiteral (js "false") (VBool false) (c :: s')
          else if (c =? 110)%N then
            parseLiteral (js "null") VNull (c :: s')
          else
            match parseNumber (c :: s') with
            | Parsed n r => Parsed (VNumber n) r
            | Malformed => Malformed
            | OutOfFuel => OutOfFuel
            end
      end
  end

with parseElements (fuel : nat) (s : jsstring) (acc : list value)
  : parsed value :=
  match fuel with
  | 0 => OutOfFuel
  | S fuel =>
      match parseValue fuel s with
      | Parsed v r =>
          match skipWs r with
          | d :: r' =>
              if (d =? 44)%N then parseElements fuel r' (v :: acc)
              else if (d =? 93)%N then Parsed (VArray (List.rev (v :: acc))) r'
              else Malformed
          | [] => Malformed
          end
      | other => other
      end
  end

with parseMembers (fuel : nat) (s : jsstring) (acc : list (jsstring * value))
  : parsed value :=
  match fuel with
  | 0 => OutOfFuel
  | S fuel =>
      match skipWs s with
      | q :: s1 =>
          if (q =? 34)%N then
            match parseChars s1 with
            | Parsed k s2 =>
                match skipWs s2 with
                | colon :: s3 =>
                    if (colon =? 58)%N then
                      match parseValue fuel s3 with
                      | Parsed v r =>
                          match skipWs r with
                          | d :: r' =>
                              if (d =? 44)%N then
                                parseMembers fuel r' ((k, v) :: acc)
                              else if (d =? 125)%N then
                                Parsed (VObject (List.rev ((k, v) :: acc))) r'
                              else Malformed
                          | [] => Malformed
                          end
                      | other => other
                      end
                    else Malformed
                | [] => Malformed
                end
            | Malformed => Malformed
            | OutOfFuel => OutOfFuel
            end
          else Malformed
      | [] => Malformed
      end
  end.

(** [JSON.parse(text)]: one value, then nothing but whitespace; any
    other text throws a SyntaxError. *)
Definition parse (text : jsstring) : completion value :=
  match parseValue (S (2 * length text)) text with
  | Parsed v r =>
      match skipWs r with
      | [] => Normal v
      | _ => Throw SyntaxError
      end
  | _ => Throw SyntaxError
  end.

(** A parse that consumed input and did not run out of fuel. *)
Definition advances {A} (r : parsed A) (s : jsstring) : Prop :=
  match r with
  | Parsed _ rest => length rest < length s
  | Malformed => True
  | OutOfFuel => False
  end.

End JSON.

(** ** The extractor, the normalizer and the batch of the source *)

Open Scope js_scope.

(** The observability sink ([console.error], [console.warn]) is written
    to and never read; it is left out. *)

(** [cleanText] of [cleanAndParseJSON]: the text without its code-fence
    markers, trimmed. *)
Definition cleanTextOf (text : jsstring) : jsstring :=
  trim (replaceAll (literal (js "```") [])
          (replaceAll (literal (js "```json") []) text)).

Definition cleanAndParseJSON (text : jsstring) : value :=
  tryCatch
    (match text with
     | [] => Normal (VArray [])
     | _ =>
         match indexOf lbracket text, lastIndexOf rbracket text with
         | Some firstBracket, Some lastBracket =>
             let jsonCandidate :=
               substring text firstBracket (lastBracket + 1) in
             JSON.parse jsonCandidate
         | _, _ =>
             let cleanText := cleanTextOf text in
             JSON.parse cleanText
         end
     end)
    (fun e => VArray []).

Record Question := {
  id : jsstring;
  text : jsstring;
  options : list jsstring;
  correctIndex : number;
  explanation : jsstring
}.

Section Normalizer.
Context `{Platform}.

(** [processText] of [normalizeQuestion] *)
Definition processText (txt : value) : completion jsstring :=
  s <- String_ txt ;;
  Normal (latexToSimple (repairMalformedLatex s)).

(** The first two constants of [normalizeQuestion]. *)
Definition questionTextOf (q : value) : value :=
  get q (js "question") || get q (js "Question") || get q (js "text")
  || get q (js "query").

Definition optionsListOf (q : value) : value :=
  get q (js "options") || get q (js "Options") || get q (js "choices")
  || get q (js "answers").

(** The statements under [Handle correct index]: the value of
    [correctIdx] before it is clamped. *)
Definition resolveIndex (q : value) : number :=
  match get q (js "correctIndex") with
  | VNumber n => n
  | VString s => ofZ (numberOr (parseInt s) 0)
  | _ =>
      match get q (js "answerIndex") with
      | VNumber n => n
      | _ => ofZ 0
      end
  end.

(** The two statements under [Clamp index]. *)
Definition clampIndex (correctIdx : number) (length : nat) : number :=
  let correctIdx := if ltb correctIdx (ofZ 0) then ofZ 0 else correctIdx in
  let correctIdx :=
    if geb correctIdx (ofNat length)
    then ofZ (Z.of_nat length - 1) else correctIdx in
  correctIdx.

Definition explanationOf (q : value) : value :=
  get q (js "explanation") || get q (js "Explanation")
  || VString (js "No explanation provided.").

(** The template literal of the [id] field. *)
Definition idOf (prefix : jsstring) (now : N) (index : nat) : jsstring :=
  prefix ++ js "-" ++ NToString now ++ js "-" ++ natToString index.

(** A candidate is well formed when [String()] converts its question
    text, its options and its explanation. *)
Definition wellFormed (q : value) : bool :=
  (convertible (questionTextOf q)
  && forallb convertible (elements (optionsListOf q))
  && convertible (explanationOf q))%bool.

(** [now] is the reading of [Date.now()], in milliseconds.  Reading a
    property of [undefined] or [null] throws a TypeError. *)
Definition normalizeQuestion (q : value) (index : nat) (prefix : jsstring)
  (now : N) : completion (option Question) :=
  if nullish q then Throw TypeError else
  let questionText := questionTextOf q in
  let optionsList := optionsListOf q in
  if (negb (truthy questionText) || negb (isArray optionsList)
      || (length (elements optionsList) <? 2))%bool
  then Normal None
  else
    cleanOptions <- mapM processText (elements optionsList) ;;
    let correctIdx := clampIndex (resolveIndex q) (length cleanOptions) in
    text' <- processText questionText ;;
    explanation' <- processText (explanationOf q) ;;
    Normal (Some {|
      id := idOf prefix now index;
      text := text';
      options := cleanOptions;
      correctIndex := correctIdx;
      explanation := explanation'
    |}).

(** [rawData.map((q, i) => normalizeQuestion(q, i, prefix))] from
    position [i] on; [clock j] is what [Date.now()] reads while the
    item at position [j] is normalized. *)
Fixpoint mapNormalize (prefix : jsstring) (clock : nat -> N) (i : nat)
  (items : list value) : completion (list (option Question)) :=
  match items with
  | [] => Normal []
  | q :: rest =>
      r <- normalizeQuestion q i prefix (clock i) ;;
      rs <- mapNormalize prefix clock (S i) rest ;;
      Normal (r :: rs)
  end.

(** [.filter(q => q !== null)] *)
Fixpoint filterNonNull (l : list (option Question)) : list Question :=
  match l with
  | [] => []
  | Some q :: rest => q :: filterNonNull rest
  | None :: rest => filterNonNull rest
  end.

(** The [try] block of [generateBattleQuestions] and of
    [generatePracticeQuestions] from the call of the model on.
    [response] is what awaiting [ai.models.generateContent] gives: the
    text of the response, empty when [response.text] is undefined, or
    a failure.  A [rawData] that is no array has no [map], and calling
    it throws.  Whatever is thrown, the result is the empty list. *)
Definition generateQuestions (prefix : jsstring) (clock : nat -> N)
  (response : completion jsstring) : list Question :=
  tryCatch
    (responseText <- response ;;
     let rawData :=
       cleanAndParseJSON
         (match responseText with [] => js "[]" | _ => responseText end) in
     match rawData with
     | VArray items =>
         rs <- mapNormalize prefix clock 0 items ;;
         Normal (filterNonNull rs)
     | _ => Throw TypeError
     end)
    (fun e => []).

Definition generateBattleQuestions := generateQuestions (js "battle").
Definition generatePracticeQuestions := generateQuestions (js "practice").

End Normalizer.

Close Scope js_scope.

(** * The components of [src/components] *)

(** ** [MathRenderer] *)

Module MathRenderer.

(** [String.prototype.startsWith] and [endsWith] *)
Definition startsWith (s p : jsstring) : bool :=
  match stripPrefix p s with Some _ => true | None => false end.

Definition endsWith (s p : jsstring) : bool :=
  ((length p <=? length s)
   && eqb (skipn (length s - length p) s) p)%bool.

(** [String.prototype.slice]: a negative index counts from the end,
    both are clamped to the string, and the result is empty when the
    second does not lie after the first. *)
Definition slice (s : jsstring) (a b : Z) : jsstring :=
  let len := Z.of_nat (length s) in
  let from := if (a <? 0)%Z then Z.max (len + a) 0 else Z.min a len in
  let to := if (b <? 0)%Z then Z.max (len + b) 0 else Z.min b len in
  firstn (Z.to_nat (Z.max (to - from) 0)) (skipn (Z.to_nat from) s).

(** The expression of the [split], tried at the head of [s]: two dollar
    signs, one or more units that are no dollar sign and two dollar
    signs, or else the same with one dollar sign on each side.  The
    answer is the number of units matched; the only group is the whole
    match. *)
Definition mathSegment (s : jsstring) : option nat :=
  orElse
    match stripPrefix [dollar; dollar] s with
    | Some rest =>
        match breakAt dollar rest with
        | Some (_ :: inner, c :: _) =>
            if N.eqb c dollar then Some (length inner + 5) else None
        | _ => None
        end
    | None => None
    end
    match s with
    | c :: rest =>
        if N.eqb c dollar then
          match breakAt dollar rest with
          | Some (_ :: inner, _) => Some (length inner + 3)
          | _ => None
          end
        else None
    | [] => None
    end.

(** [String.prototype.split] with that expression: the text is cut at
    each match, found from left to right, and the group is put between
    the pieces.  [piece] is the text passed over since the last match
    and [skip] counts the units of the current match still to be passed
    over.  An empty match cuts nothing where the piece is empty, and
    otherwise ends the piece and contributes an empty group. *)
Fixpoint splitFrom (skip : nat) (piece s : jsstring) : list jsstring :=
  match s with
  | [] => [piece]
  | c :: s' =>
      match skip with
      | S k => splitFrom k piece s'
      | 0 =>
          match mathSegment s with
          | Some (S k) => piece :: firstn (S k) s :: splitFrom k [] s'
          | Some 0 =>
              match piece with
              | [] => splitFrom 0 [c] s'
              | _ => piece :: [] :: splitFrom 0 [c] s'
              end
          | None => splitFrom 0 (piece ++ [c]) s'
          end
      end
  end.

Definition split (text : jsstring) : list jsstring := splitFrom 0 [] text.

Section Render.
Variable Html : Type.

(** [window.katex.render(tex, span, { displayMode, throwOnError })]:
    what it puts into the span, unless it throws. *)
Definition katex := jsstring -> bool -> completion Html.

(** What a span of the container holds. *)
Inductive span :=
| Math (h : Html)
| TextContent (s : jsstring).

(** The body of the [forEach]. *)
Definition renderPart (render : katex) (part : jsstring) : span :=
  if (startsWith part [dollar; dollar]
      && endsWith part [dollar; dollar])%bool then
    tryCatch (h <- render (slice part 2 (-2)) true ;; Normal (Math h))%js
      (fun _ => TextContent part)
  else if (startsWith part [dollar] && endsWith part [dollar])%bool then
    tryCatch (h <- render (slice part 1 (-1)) false ;; Normal (Math h))%js
      (fun _ => TextContent part)
  else TextContent part.

(** What the component shows. *)
Inductive container :=
| Nothing
| Children (spans : list span)
| Text (s : jsstring).

(** The effect of the component.  [window_katex] is [None] while
    KaTeX is not loaded.  For an empty text the component renders
    nothing. *)
Definition MathRenderer (window_katex : option katex) (text : jsstring)
  : container :=
  match text with
  | [] => Nothing
  | _ =>
      match window_katex with
      | Some render => Children (map (renderPart render) (split text))
      | None => Text text
      end
  end.

End Render.

Arguments TextContent {Html} s.
Arguments Nothing {Html}.
Arguments Text {Html} s.

End MathRenderer.

(** [a === b] on Numbers. *)
Definition strictEquals (a b : number) : bool :=
  match a, b with
  | Finite p, Finite q => Qeq_bool p q
  | Infinity n1, Infinity n2 => Bool.eqb n1 n2
  | _, _ => false
  end.

(** ** [BattleMode] *)

Module BattleMode.

Inductive Player := P1 | P2.

(** [Player | 'DRAW'] *)
Inductive Result :=
| Won (p : Player)
| DRAW.

Inductive GameState := SETUP | LOADING | PLAYING | FINISHED.

Record Scores := { scoreP1 : nat; scoreP2 : nat }.

(** [{ ...prev, [player]: prev[player] + 1 }] *)
Definition addPoint (player : Player) (prev : Scores) : Scores :=
  match player with
  | P1 => {| scoreP1 := scoreP1 prev + 1; scoreP2 := scoreP2 prev |}
  | P2 => {| scoreP1 := scoreP1 prev; scoreP2 := scoreP2 prev + 1 |}
  end.

(** The state of the component, one field for each [useState] that the
    handlers use. *)
Record State := {
  gameState : GameState;
  questions : list Question;
  currentQIndex : nat;
  scores : Scores;
  winner : option Result;
  locked : bool;
  lastRoundWinner : option Player
}.

Definition initial : State :=
  {| gameState := SETUP; questions := []; currentQIndex := 0;
     scores := {| scoreP1 := 0; scoreP2 := 0 |}; winner := None;
     locked := false; lastRoundWinner := None |}.

Definition setGameState (v : GameState) (st : State) : State :=
  {| gameState := v; questions := questions st;
     currentQIndex := currentQIndex st; scores := scores st;
     winner := winner st; locked := locked st;
     lastRoundWinner := lastRoundWinner st |}.

Definition setQuestions (v : list Question) (st : State) : State :=
  {| gameState := gameState st; questions := v;
     currentQIndex := currentQIndex st; scores := scores st;
     winner := winner st; locked := locked st;
     lastRoundWinner := lastRoundWinner st |}.

(** The setters that are given a function apply it to the state at the
    time of the update. *)
Definition setCurrentQIndex (f : nat -> nat) (st : State) : State :=
  {| gameState := gameState st; questions := questions st;
     currentQIndex := f (currentQIndex st); scores := scores st;
     winner := winner st; locked := locked st;
     lastRoundWinner := lastRoundWinner st |}.

Definition setScores (f : Scores -> Scores) (st : State) : State :=
  {| gameState := gameState st; questions := questions st;
     currentQIndex := currentQIndex st; scores := f (scores st);
     winner := winner st; locked := locked st;
     lastRoundWinner := lastRoundWinner st |}.

Definition setWinner (v : option Result) (st : State) : State :=
  {| gameState := gameState st; questions := questions st;
     currentQIndex := currentQIndex st; scores := scores st;
     winner := v; locked := locked st;
     lastRoundWinner := lastRoundWinner st |}.

Definition setLocked (v : bool) (st : State) : State :=
  {| gameState := gameState st; questions := questions st;
     currentQIndex := currentQIndex st; scores := scores st;
     winner := winner st; locked := v;
     lastRoundWinner := lastRoundWinner st |}.

Definition setLastRoundWinner (v : option Player) (st : State) : State :=
  {| gameState := gameState st; questions := questions st;
     currentQIndex := currentQIndex st; scores := scores st;
     winner := winner st; locked := locked st;
     lastRoundWinner := v |}.

(** [startBattle], where [qs] is what [generateBattleQuestions]
    returned.  The second component tells whether the alert is
    shown. *)
Definition startBattle (qs : list Question) (st : State) : State * bool :=
  let st := setGameState LOADING st in
  if 0 <? length qs then
    let st := setQuestions qs st in
    let st := setGameState PLAYING st in
    (st, false)
  else
    let st := setGameState SETUP st in
    (st, true).

(** The handlers are closures: those of one render read the state
    [snap] of that render, whenever they run, and their updates go to
    the state [st] at that time. *)
Definition finishGame (snap st : State) : State :=
  let st :=
    if scoreP2 (scores snap) <? scoreP1 (scores snap)
    then setWinner (Some (Won P1)) st
    else if scoreP1 (scores snap) <? scoreP2 (scores snap)
    then setWinner (Some (Won P2)) st
    else setWinner (Some DRAW) st in
  setGameState FINISHED st.

Definition nextQuestion (snap st : State) : State :=
  let st := setLocked false st in
  let st := setLastRoundWinner None st in
  if currentQIndex snap + 1 <? length (questions snap)
  then setCurrentQIndex (fun prev => prev + 1) st
  else finishGame snap st.

(** What [setTimeout] is given. *)
Definition Timer := State -> State.

(** [handleAnswer]: the new state and the timers it sets.  Reading
    [correctIndex] of a question that is not there throws. *)
Definition handleAnswer (snap : State) (player : Player)
  (selectedIndex : nat) (st : State) : completion (State * list Timer) :=
  if locked snap then Normal (st, []) else
  match nth_error (questions snap) (currentQIndex snap) with
  | None => Throw TypeError
  | Some currentQ =>
      let isCorrect :=
        strictEquals (ofNat selectedIndex) (correctIndex currentQ) in
      let st := setLocked true st in
      if isCorrect then
        let st := setScores (addPoint player) st in
        let st := setLastRoundWinner (Some player) st in
        Normal (st, [nextQuestion snap])
      else
        let otherPlayer := match player with P1 => P2 | P2 => P1 end in
        let st := setScores (addPoint otherPlayer) st in
        let st := setLastRoundWinner (Some otherPlayer) st in
        Normal (st, [nextQuestion snap])
  end.

(** The component in the browser: its state and the timers that are
    set, the oldest first. *)
Record World := { state : State; timers : list Timer }.

(** What can happen: the start button is pressed and
    [generateBattleQuestions] returns [qs]; a player presses the button
    of an option; the oldest timer fires. *)
Inductive Event :=
| StartDuel (qs : list Question)
| Answer (player : Player) (selectedIndex : nat)
| TimerFires.

(** The start button is there on the setup screen only and the option
    buttons on the question screen only; a handler that runs is the one
    of the latest render. *)
Definition step (e : Event) (w : World) : completion World :=
  match e, gameState (state w) with
  | StartDuel qs, SETUP =>
      Normal {| state := fst (startBattle qs (state w));
                timers := timers w |}
  | Answer player selectedIndex, PLAYING =>
      (r <- handleAnswer (state w) player selectedIndex (state w) ;;
       Normal {| state := fst r; timers := timers w ++ snd r |})%js
  | TimerFires, _ =>
      match timers w with
      | timer :: rest => Normal {| state := timer (state w); timers := rest |}
      | [] => Normal w
      end
  | _, _ => Normal w
  end.

Fixpoint run (events : list Event) (w : World) : completion World :=
  match events with
  | [] => Normal w
  | e :: rest => (w' <- step e w ;; run rest w')%js
  end.

Definition start : World := {| state := initial; timers := [] |}.

(** The result that the scores call for. *)
Definition resultOf (s : Scores) : Result :=
  if scoreP2 s <? scoreP1 s then Won P1
  else if scoreP1 s <? scoreP2 s then Won P2
  else DRAW.

Definition total (s : Scores) : nat := scoreP1 s + scoreP2 s.

(** What holds of the component at any time. *)
Definition invariant (w : World) : Prop :=
  let st := state w in
  match gameState st with
  | SETUP | LOADING =>
      timers w = [] /\ locked st = false /\ currentQIndex st = 0
      /\ total (scores st) = 0
  | PLAYING =>
      currentQIndex st < length (questions st)
      /\ if locked st then
           exists snap p,
             timers w = [nextQuestion snap]
             /\ questions snap = questions st
             /\ currentQIndex snap = currentQIndex st
             /\ scores st = addPoint p (scores snap)
             /\ total (scores snap) = currentQIndex st
         else timers w = [] /\ total (scores st) = currentQIndex st
  | FINISHED =>
      timers w = []
      /\ exists before p,
           scores st = addPoint p before
           /\ winner st = Some (resultOf before)
           /\ total (scores st) = length (questions st)
  end.

End BattleMode.

(** ** [PracticeMode] *)

Module PracticeMode.

(** [PracticeConfig]; [questionCount] is [None] when [parseInt] gave
    [NaN]. *)
Record Config := {
  subject : jsstring;
  chapters : list jsstring;
  questionCount : option Z;
  customPrompt : jsstring
}.

(** The function that [toggleChapter] gives to [setConfig]. *)
Definition toggleChapter (chapName : jsstring) (prev : Config) : Config :=
  let exists_ := existsb (eqb chapName) (chapters prev) in
  if exists_ then
    {| subject := subject prev;
       chapters := filter (fun c => negb (eqb c chapName)) (chapters prev);
       questionCount := questionCount prev;
       customPrompt := customPrompt prev |}
  else
    {| subject := subject prev;
       chapters := chapters prev ++ [chapName];
       questionCount := questionCount prev;
       customPrompt := customPrompt prev |}.

(** An array of Numbers; [None] is a hole, which reads as
    [undefined]. *)
Definition array := list (option Z).

(** [new Array(n).fill(v)] *)
Definition fill (n : nat) (v : Z) : array := repeat (Some v) n.

(** [a[i]]; the result is [None] for [undefined]. *)
Definition readAt (a : array) (i : Z) : option Z :=
  if (i <? 0)%Z then None
  else match nth_error a (Z.to_nat i) with
       | Some (Some v) => Some v
       | _ => None
       end.

Fixpoint replaceAt (a : array) (i : nat) (v : Z) : array :=
  match a, i with
  | [], _ => []
  | _ :: a', 0 => Some v :: a'
  | x :: a', S i' => x :: replaceAt a' i' v
  end.

(** [a[i] = v] on a copy of [a]: beyond the end the array grows, with
    holes in between; a negative [i] is no index, and the elements stay
    as they are. *)
Definition writeAt (a : array) (i : Z) (v : Z) : array :=
  if (i <? 0)%Z then a
  else if Z.to_nat i <? length a then replaceAt a (Z.to_nat i) v
  else a ++ repeat None (Z.to_nat i - length a) ++ [Some v].

Inductive Direction := right | left.

(** The state of the component that the handlers of the quiz use, one
    field for each [useState]. *)
Record State := {
  step : nat;
  loading : bool;
  questions : list Question;
  answers : array;
  timeTaken : array;
  currentQIndex : Z;
  slideDir : Direction;
  touchStart : option Q;
  touchEnd : option Q
}.

Definition setStep (v : nat) (st : State) : State :=
  {| step := v; loading := loading st; questions := questions st;
     answers := answers st; timeTaken := timeTaken st;
     currentQIndex := currentQIndex st; slideDir := slideDir st;
     touchStart := touchStart st; touchEnd := touchEnd st |}.

Definition setLoading (v : bool) (st : State) : State :=
  {| step := step st; loading := v; questions := questions st;
     answers := answers st; timeTaken := timeTaken st;
     currentQIndex := currentQIndex st; slideDir := slideDir st;
     touchStart := touchStart st; touchEnd := touchEnd st |}.

Definition setQuestions (v : list Question) (st : State) : State :=
  {| step := step st; loading := loading st; questions := v;
     answers := answers st; timeTaken := timeTaken st;
     currentQIndex := currentQIndex st; slideDir := slideDir st;
     touchStart := touchStart st; touchEnd := touchEnd st |}.

Definition setAnswers (v : array) (st : State) : State :=
  {| step := step st; loading := loading st; questions := questions st;
     answers := v; timeTaken := timeTaken st;
     currentQIndex := currentQIndex st; slideDir := slideDir st;
     touchStart := touchStart st; touchEnd := touchEnd st |}.

(** The setters that are given a function apply it to the state at the
    time of the update. *)
Definition setTimeTaken (f : array -> array) (st : State) : State :=
  {| step := step st; loading := loading st; questions := questions st;
     answers := answers st; timeTaken := f (timeTaken st);
     currentQIndex := currentQIndex st; slideDir := slideDir st;
     touchStart := touchStart st; touchEnd := touchEnd st |}.

Definition setCurrentQIndex (f : Z -> Z) (st : State) : State :=
  {| step := step st; loading := loading st; questions := questions st;
     answers := answers st; timeTaken := timeTaken st;
     currentQIndex := f (currentQIndex st); slideDir := slideDir st;
     touchStart := touchStart st; touchEnd := touchEnd st |}.

Definition setSlideDir (v : Direction) (st : State) : State :=
  {| step := step st; loading := loading st; questions := questions st;
     answers := answers st; timeTaken := timeTaken st;
     currentQIndex := currentQIndex st; slideDir := v;
     touchStart := touchStart st; touchEnd := touchEnd st |}.

Definition setTouchStart (v : option Q) (st : State) : State :=
  {| step := step st; loading := loading st; questions := questions st;
     answers := answers st; timeTaken := timeTaken st;
     currentQIndex := currentQIndex st; slideDir := slideDir st;
     touchStart := v; touchEnd := touchEnd st |}.

Definition setTouchEnd (v : option Q) (st : State) : State :=
  {| step := step st; loading := loading st; questions := questions st;
     answers := answers st; timeTaken := timeTaken st;
     currentQIndex := currentQIndex st; slideDir := slideDir st;
     touchStart := touchStart st; touchEnd := v |}.

(** The component in the browser: its state, its two refs, and the
    timers that are set.  A timer is [goToNext] of some render; it is
    kept as its identifier and the state of that render. *)
Record World := {
  state : State;
  questionStartTime : Z;
  autoAdvanceTimer : option nat;
  pending : list (nat * State);
  nextTimer : nat
}.

Definition onState (f : State -> State) (w : World) : World :=
  {| state := f (state w); questionStartTime := questionStartTime w;
     autoAdvanceTimer := autoAdvanceTimer w; pending := pending w;
     nextTimer := nextTimer w |}.

Definition setQuestionStartTime (now : Z) (w : World) : World :=
  {| state := state w; questionStartTime := now;
     autoAdvanceTimer := autoAdvanceTimer w; pending := pending w;
     nextTimer := nextTimer w |}.

(** [clearTimeout(id)] *)
Definition clearTimeout (id : nat) (w : World) : World :=
  {| state := state w; questionStartTime := questionStartTime w;
     autoAdvanceTimer := autoAdvanceTimer w;
     pending := filter (fun t => negb (fst t =? id)) (pending w);
     nextTimer := nextTimer w |}.

Definition setAutoAdvanceTimer (v : option nat) (w : World) : World :=
  {| state := state w; questionStartTime := questionStartTime w;
     autoAdvanceTimer := v; pending := pending w;
     nextTimer := nextTimer w |}.

(** [setTimeout(() => goToNext(), 600)] in the render of [snap]: the
    timer gets the next identifier, which is positive. *)
Definition setTimeout (snap : State) (w : World) : nat * World :=
  (nextTimer w,
   {| state := state w; questionStartTime := questionStartTime w;
      autoAdvanceTimer := autoAdvanceTimer w;
      pending := pending w ++ [(nextTimer w, snap)];
      nextTimer := S (nextTimer w) |}).

(** The handlers are closures: those of one render read the state
    [snap] of that render, whenever they run; their updates go to the
    state at that time, and the refs are read and written as they are
    at that time.  [now] is a reading of [Date.now()]. *)

(** [startPractice] from the answer of [generatePracticeQuestions]
    on. *)
Definition startPractice (qs : list Question) (now : Z) (w : World)
  : World :=
  let w := onState (setLoading true) w in
  let w := onState (setQuestions []) w in
  let w := onState (setLoading false) w in
  if 0 <? length qs then
    let w := onState (setQuestions qs) w in
    let w := onState (setAnswers (fill (length qs) (-1))) w in
    let w := onState (setTimeTaken (fun _ => fill (length qs) 0)) w in
    let w := onState (setCurrentQIndex (fun _ => 0%Z)) w in
    let w := setQuestionStartTime now w in
    onState (setStep 4) w
  else onState (setStep 4) w.

Definition recordTime (snap : State) (now : Z) (w : World) : World :=
  let duration := ((now - questionStartTime w) / 1000)%Z in
  onState
    (setTimeTaken (fun prev =>
       let newTimes := prev in
       writeAt newTimes (currentQIndex snap)
         (match readAt newTimes (currentQIndex snap) with
          | Some t => t
          | None => 0
          end + duration)%Z))
    w.

Definition clearAutoAdvance (w : World) : World :=
  match autoAdvanceTimer w with
  | Some (S id) =>
      let w := clearTimeout (S id) w in
      setAutoAdvanceTimer None w
  | _ => w
  end.

(** [goToNext] and [goToPrev] read the clock twice. *)
Definition goToNext (snap : State) (now now' : Z) (w : World) : World :=
  let w := clearAutoAdvance w in
  let w := recordTime snap now w in
  if (currentQIndex snap <? Z.of_nat (length (questions snap)) - 1)%Z then
    let w := onState (setSlideDir right) w in
    let w := onState (setCurrentQIndex (fun prev => prev + 1)%Z) w in
    setQuestionStartTime now' w
  else onState (setStep 5) w.

Definition goToPrev (snap : State) (now now' : Z) (w : World) : World :=
  let w := clearAutoAdvance w in
  let w := recordTime snap now w in
  if (0 <? currentQIndex snap)%Z then
    let w := onState (setSlideDir left) w in
    let w := onState (setCurrentQIndex (fun prev => prev - 1)%Z) w in
    setQuestionStartTime now' w
  else w.

Definition handleSelectAnswer (snap : State) (optIdx : nat) (w : World)
  : World :=
  let newAnswers := answers snap in
  let newAnswers :=
    writeAt newAnswers (currentQIndex snap) (Z.of_nat optIdx) in
  let w := onState (setAnswers newAnswers) w in
  if (currentQIndex snap <? Z.of_nat (length (questions snap)) - 1)%Z then
    let w := clearAutoAdvance w in
    let (id, w) := setTimeout snap w in
    setAutoAdvanceTimer (Some id) w
  else w.

Definition minSwipeDistance : Q := 50.

(** [!x] for a coordinate that may be [null]. *)
Definition missing (x : option Q) : bool :=
  match x with
  | Some v => Qeq_bool v 0
  | None => true
  end.

Definition onTouchStart (clientX : Q) (w : World) : World :=
  let w := onState (setTouchEnd None) w in
  onState (setTouchStart (Some clientX)) w.

Definition onTouchMove (clientX : Q) (w : World) : World :=
  onState (setTouchEnd (Some clientX)) w.

(** [onTouchEnd]; each of the two calls reads the clock twice. *)
Definition onTouchEnd (snap : State) (now1 now1' now2 now2' : Z)
  (w : World) : World :=
  if (missing (touchStart snap) || missing (touchEnd snap))%bool then w
  else
    match touchStart snap, touchEnd snap with
    | Some touchStart, Some touchEnd =>
        let distance := (touchStart - touchEnd)%Q in
        let isLeftSwipe := negb (Qle_bool distance minSwipeDistance) in
        let isRightSwipe := negb (Qle_bool (- minSwipeDistance) distance) in
        let w := if isLeftSwipe then goToNext snap now1 now1' w else w in
        let w := if isRightSwipe then goToPrev snap now2 now2' w else w in
        w
    | _, _ => w
    end.

(** [calculateScore]: the [reduce] over the questions from position
    [idx] on, and the call of it. *)
Fixpoint reduceScore (answers : array) (acc : nat) (idx : nat)
  (qs : list Question) : nat :=
  match qs with
  | [] => acc
  | q :: rest =>
      reduceScore answers
        (acc + match readAt answers (Z.of_nat idx) with
               | Some a =>
                   if strictEquals (correctIndex q) (ofZ a) then 1 else 0
               | None => 0
               end)
        (S idx) rest
  end.

Definition calculateScore (st : State) : nat :=
  reduceScore (answers st) 0 0 (questions st).

(** The number of questions that have an answer: the entries other
    than the [-1] that the array is filled with. *)
Definition answered (a : array) : nat :=
  length (filter (fun x => match x with
                           | Some v => negb (v =? -1)%Z
                           | None => false
                           end) a).

(** The screen that the component shows. *)
Inductive Screen :=
| Loading | Subject | Chapters | Setup | Result | Oops | Quiz.

Definition screen (st : State) : Screen :=
  if loading st then Loading
  else match step st with
       | 1 => Subject
       | 2 => Chapters
       | 3 => Setup
       | 5 => Result
       | _ => match questions st with [] => Oops | _ => Quiz end
       end.

(** What can happen, with the readings of the clock that the handler
    takes: a button that sets the step is pressed; the exam is started
    and [generatePracticeQuestions] returns [qs]; an option is chosen;
    one of the three buttons under the question is pressed; the finger
    touches, moves or leaves the question; a timer fires. *)
Inductive Event :=
| Navigate (to : nat)
| StartExam (qs : list Question) (now : Z)
| SelectAnswer (optIdx : nat)
| Next (now now' : Z)
| Previous (now now' : Z)
| SubmitExam (now : Z)
| TouchStart (clientX : Q)
| TouchMove (clientX : Q)
| TouchEnd (now1 now1' now2 now2' : Z)
| TimerFires (id : nat) (now now' : Z).

(** The buttons that set the step: from the subjects to the chapters,
    from the chapters back or on to the setup, from the setup back,
    from the result to the subjects, and from the failure to the
    setup. *)
Definition navigates (s : Screen) (to : nat) : bool :=
  match s, to with
  | Subject, 2 | Chapters, 1 | Chapters, 3 | Setup, 2
  | Result, 1 | Oops, 3 => true
  | _, _ => false
  end.

(** Each control is there on its screen only, the button [Previous] is
    disabled on the first question, and the last question has the
    button [Submit Exam] in the place of [Next]; a handler that runs is
    the one of the latest render.  A timer that fires is taken from the
    timers that are set. *)
Definition handle (e : Event) (w : World) : World :=
  let st := state w in
  let last := (Z.of_nat (length (questions st)) - 1)%Z in
  match e, screen st with
  | Navigate to, s =>
      if navigates s to then onState (setStep to) w else w
  | StartExam qs now, Setup => startPractice qs now w
  | SelectAnswer optIdx, Quiz => handleSelectAnswer st optIdx w
  | Next now now', Quiz =>
      if (currentQIndex st =? last)%Z then w else goToNext st now now' w
  | Previous now now', Quiz =>
      if (currentQIndex st =? 0)%Z then w else goToPrev st now now' w
  | SubmitExam now, Quiz =>
      if (currentQIndex st =? last)%Z
      then onState (setStep 5) (recordTime st now w)
      else w
  | TouchStart clientX, Quiz => onTouchStart clientX w
  | TouchMove clientX, Quiz => onTouchMove clientX w
  | TouchEnd now1 now1' now2 now2', Quiz =>
      onTouchEnd st now1 now1' now2 now2' w
  | TimerFires id now now', _ =>
      match find (fun t => fst t =? id) (pending w) with
      | Some (_, snap) => goToNext snap now now' (clearTimeout id w)
      | None => w
      end
  | _, _ => w
  end.

Fixpoint run (events : list Event) (w : World) : World :=
  match events with
  | [] => w
  | e :: rest => run rest (handle e w)
  end.

(** The component when it is mounted, at the time [now]. *)
Definition start (now : Z) : World :=
  {| state :=
       {| step := 1; loading := false; questions := []; answers := [];
          timeTaken := []; currentQIndex := 0; slideDir := right;
          touchStart := None; touchEnd := None |};
     questionStartTime := now;
     autoAdvanceTimer := None;
     pending := [];
     nextTimer := 1 |}.

(** An array without a hole. *)
Definition dense (a : array) : Prop := Forall (fun x => x <> None) a.

(** What holds of the component at any time. *)
Definition invariant (w : World) : Prop :=
  let st := state w in
  let n := length (questions st) in
  1 <= nextTimer w
  /\ loading st = false
  /\ (step st = 5 -> questions st <> [])
  /\ (questions st <> [] ->
      length (answers st) = n /\ length (timeTaken st) = n
      /\ dense (answers st) /\ dense (timeTaken st)
      /\ (0 <= currentQIndex st < Z.of_nat n)%Z)
  /\ (pending w = []
      \/ exists id snap,
           pending w = [(S id, snap)]
           /\ autoAdvanceTimer w = Some (S id)
           /\ screen st = Quiz
           /\ questions snap = questions st
           /\ currentQIndex snap = currentQIndex st
           /\ (currentQIndex st < Z.of_nat n - 1)%Z).

End PracticeMode.

(** * Examples and notions *)

(** A platform for the examples.  It prints an integral Number as
    JavaScript does below 10^21, and the infinities.  The examples
    convert no other Number; for one with a fraction it prints the
    integer below it, where JavaScript prints the shortest decimal that
    reads back. *)
Definition printInteger (n : number) : jsstring :=
  match n with
  | Finite q =>
      let z := (Qnum q / Z.pos (Qden q))%Z in
      (if (z <? 0)%Z then js "-" else []) ++ NToString (Z.abs_N z)
  | Infinity false => js "Infinity"
  | Infinity true => js "-Infinity"
  end.

#[export] Instance examplePlatform : Platform :=
  {| Number_toString := printInteger |}.

(** The response text of the example of the specification: a sentence,
    a line feed, an opening code fence, a line feed, an array of one
    record, a line feed, a closing code fence. *)
Definition specResponse : jsstring :=
  js "Here you go:" ++ [10%N] ++ js "```json" ++ [10%N]
  ++ quoted "[{'question':'Q1','options':['A','B'],'correctIndex':5}]"
  ++ [10%N] ++ js "```".

(** The same text with each backslash of the specification kept as a
    code unit of its own. *)
Definition specResponseVerbatim : jsstring :=
  js "Here you go:\n```json\n"
  ++ quoted "[{\'question\':\'Q1\',\'options\':[\'A\',\'B\'],"
  ++ quoted "\'correctIndex\':5}]"
  ++ js "\n```".

(** ** Notions the properties are stated with *)

(** A match is harmless when it is replaced by itself. *)
Definition harmless (r : option (jsstring * nat)) (t : jsstring) : Prop :=
  match r with
  | None => True
  | Some (repl, n) => 1 <= n <= length t /\ repl = firstn n t
  end.

(** What [/\s+/g] replaced by one space computes, unit by unit:
    [inRun] tells that the previous unit was whitespace. *)
Fixpoint collapse (inRun : bool) (s : jsstring) : jsstring :=
  match s with
  | [] => []
  | c :: s' =>
      if isSpace c then
        if inRun then collapse true s' else 32%N :: collapse true s'
      else c :: collapse false s'
  end.

(** A text is tidy when each whitespace unit in it is a space that no
    whitespace follows. *)
Fixpoint tidy (s : jsstring) : Prop :=
  match s with
  | [] => True
  | c :: s' => (isSpace c = true -> c = 32%N /\ spaceRun s' = 0) /\ tidy s'
  end.

(** The last step of [latexToSimple]. *)
Definition normalizeSpaces (s : jsstring) : jsstring :=
  trim (replaceAll (spaces (js " ")) s).

(** [t] starts with one of the commands or words that
    [repairMalformedLatex] looks for after a boundary. *)
Definition startsToken (t : jsstring) : bool :=
  match stripPrefix (js "ext{") t, stripPrefix (js "frac{") t,
        stripPrefix (js "sqrt{") t, wordEnd (js "times") t,
        wordEnd (js "mu") t, wordEnd (js "pi") t, wordEnd (js "theta") t with
  | None, None, None, None, None, None, None => false
  | _, _, _, _, _, _, _ => true
  end.

(** No token starts after a boundary of [t]: after one of its
    whitespace units, or at its first unit when [boundary] holds. *)
Fixpoint settledFrom (boundary : bool) (t : jsstring) : bool :=
  match t with
  | [] => true
  | c :: t' =>
      (if boundary then negb (startsToken t) else true)
      && settledFrom (isSpace c) t'
  end.

(** A text in which every command has its backslash: there is nothing
    for [repairMalformedLatex] to repair. *)
Definition settled (s : jsstring) : bool := settledFrom true s.

(** What the scan knows at an index of a settled text. *)
Definition atSettled (atStart : bool) (t : jsstring) : Prop :=
  exists boundary,
    (atStart = true -> boundary = true) /\ settledFrom boundary t = true.

(** No dollar sign, backslash or opening brace. *)
Definition quiet (c : char16) : Prop :=
  c <> dollar /\ c <> backslash /\ c <> lbrace.

(** No dollar sign. *)
Definition dollarFree (c : char16) : Prop := c <> dollar.

(** No backslash and no opening brace. *)
Definition noMarkup (s : jsstring) : bool :=
  forallb (fun c => negb (N.eqb c backslash) && negb (N.eqb c lbrace)) s.

(** Candidates for the examples. *)
Definition candidateWithAliases : value :=
  VObject [(js "Question", VString (js "Q"));
           (js "answers", VArray [VString (js "A"); VString (js "B")])].

(** The record of the example of the specification. *)
Definition specCandidate : value :=
  VObject [(js "question", VString (js "Q1"));
           (js "options", VArray [VString (js "A"); VString (js "B")]);
           (js "correctIndex", VNumber (ofZ 5))].

Definition candidateWithStringIndex : value :=
  VObject [(js "question", VString (js "Q"));
           (js "options",
            VArray [VString (js "A"); VString (js "B"); VString (js "C")]);
           (js "correctIndex", VString (js "2"))].

(** A candidate with the question text under [Question] and the
    options under the key [key]. *)
Definition candidateWithKey (key : jsstring) : value :=
  VObject [(js "Question", VString (js "Q"));
           (key, VArray [VString (js "A"); VString (js "B")])].

(** A candidate with an option that [String()] does not convert, and a
    response that holds it after a candidate without fault. *)
Definition candidateWithObjectOption : value :=
  VObject [(js "question", VString (js "Q"));
           (js "options",
            VArray [VString (js "A");
                    VObject [(js "toString", VNumber (ofZ 1))]])].

Definition responseWithObjectOption : jsstring :=
  quoted "[{'question':'Q1','options':['A','B']},"
  ++ quoted "{'question':'Q','options':['A',{'toString':1}]}]".

(** Candidates with the index one and a half, as a number and as a
    string, and a response with the former. *)
Definition candidateWithFraction : value :=
  VObject [(js "question", VString (js "Q"));
           (js "options", VArray [VString (js "A"); VString (js "B")]);
           (js "correctIndex", VNumber (Finite (3 # 2)))].

Definition candidateWithFractionString : value :=
  VObject [(js "question", VString (js "Q"));
           (js "options", VArray [VString (js "A"); VString (js "B")]);
           (js "correctIndex", VString (js "1.5"))].

Definition responseWithFraction : jsstring :=
  quoted "[{'question':'Q','options':['A','B'],'correctIndex':1.5}]".

(** ** Notions the further properties are stated with *)

(** [s] is [t] with some of its units left out. *)
Inductive subsequence : jsstring -> jsstring -> Prop :=
| subsequence_nil : subsequence [] []
| subsequence_skip (c : char16) (s t : jsstring) :
    subsequence s t -> subsequence s (c :: t)
| subsequence_keep (c : char16) (s t : jsstring) :
    subsequence s t -> subsequence (c :: s) (c :: t).

Fixpoint isSubsequence (s t : jsstring) : bool :=
  match s, t with
  | [], _ => true
  | _ :: _, [] => false
  | a :: s', b :: t' =>
      if N.eqb a b then isSubsequence s' t' else isSubsequence s t'
  end.

(** [p] matches at some index of the text, the first of which is index
    0 when [atStart] holds. *)
Fixpoint matchesSomewhere (p : pattern) (atStart : bool) (s : jsstring)
  : bool :=
  match p atStart s with
  | Some _ => true
  | None =>
      match s with
      | [] => false
      | _ :: s' => matchesSomewhere p false s'
      end
  end.

(** The text without its dollar signs. *)
Definition withoutDollars (s : jsstring) : jsstring :=
  filter (fun c => negb (N.eqb c dollar)) s.

(** A text as [latexToSimple] leaves it: no dollar sign, single plain
    spaces for whitespace, none at either end. *)
Definition clean (s : jsstring) : Prop :=
  Forall dollarFree s /\ tidy s /\ trim s = s.

(** The rules of [repairMalformedLatex] that put a backslash in, in
    the order of the source. *)
Definition repairRules : list pattern :=
  [afterBoundary (js "ext{") (js "\text{");
   afterBoundary (js "frac{") (js "\frac{");
   afterBoundary (js "sqrt{") (js "\sqrt{");
   standalone (js "times") (js "\times");
   standalone (js "mu") (js "\mu");
   standalone (js "pi") (js "\pi");
   standalone (js "theta") (js "\theta")].

(** A rule grows when each replacement holds the match and is longer
    than it. *)
Definition growing (p : pattern) : Prop :=
  forall b t r n,
    p b t = Some (r, n) ->
    n <= length t /\ n < length r /\ subsequence (firstn n t) r.

(** The rules of [latexToSimple] that unwrap a braced group, and those
    that replace a command by one unit, in the order of the source. *)
Definition unwrapRules : list pattern :=
  [braced (js "\text{") [];
   braced (js "\mathrm{") [];
   braced (js "^{") (js "^");
   braced (js "_{") (js "_")].

Definition symbolRules : list pattern :=
  [literal (js "\,") (js " ");
   literal (js "\;") (js " ");
   literal (js "\:") (js " ");
   literal (js "\times") [215%N];
   literal (js "\mu") [956%N];
   literal (js "\circ") [176%N];
   literal (js "\pi") [960%N];
   literal (js "\theta") [952%N];
   literal (js "\Delta") [916%N];
   literal (js "\Omega") [937%N]].

(** The rules of [latexToSimple] that can change one of its results:
    all but the removal of the dollar signs, the two rules that replace
    a superscript or subscript of one unit by itself, and the last
    statement. *)
Definition simplifyRules : list pattern := unwrapRules ++ symbolRules.

(** All the statements of [latexToSimple] before the last. *)
Definition simplifyPasses : list pattern :=
  [literal (js "$") []] ++ unwrapRules
  ++ [script caret; script underscore] ++ symbolRules.

(** A rule shrinks when each replacement is shorter than the match. *)
Definition shrinking (p : pattern) : Prop :=
  forall b t r n, p b t = Some (r, n) -> n <= length t /\ length r < n.

(** More candidates, responses and questions for the examples. *)
Definition candidateWithValidIndex : value :=
  VObject [(js "question", VString (js "Q"));
           (js "options",
            VArray [VString (js "A"); VString (js "B"); VString (js "C")]);
           (js "correctIndex", VNumber (ofZ 1))].

Definition responseWithNull : jsstring :=
  quoted "[{'question':'Q1','options':['A','B']},null]".

Definition exampleQuestion : Question :=
  {| id := js "battle-1700000000000-0";
     text := js "Q1";
     options := [js "A"; js "B"];
     correctIndex := ofZ 1;
     explanation := js "No explanation provided." |}.

Definition candidateWithHalfIndex : value :=
  VObject [(js "question", VString (js "Q"));
           (js "options", VArray [VString (js "A"); VString (js "B")]);
           (js "correctIndex", VNumber (Finite (1 # 2)))].

Definition halfIndexQuestion : Question :=
  {| id := js "battle-1700000000000-0";
     text := js "Q";
     options := [js "A"; js "B"];
     correctIndex := Finite (1 # 2);
     explanation := js "No explanation provided." |}.

(** An exam of two questions in which the first option of the first
    question has just been chosen, and the exam before that choice. *)
Definition examStarted : list PracticeMode.Event :=
  [PracticeMode.Navigate 2; PracticeMode.Navigate 3;
   PracticeMode.StartExam [exampleQuestion; exampleQuestion] 1000].

Definition examAnswered : list PracticeMode.Event :=
  examStarted ++ [PracticeMode.SelectAnswer 0].

(** * Properties *)

(** ** The scan of [replace] *)

Section ScanFacts.
Variable p : pattern.

(** Passing over [k] units of a match is dropping them. *)
Lemma scan_skip (k : nat) : forall (s : jsstring) (b : bool),
  S k <= length s -> scan p b (S k) s = scan p false 0 (skipn (S k) s).
Proof.
  induction k as [|k IH]; intros [|c s] b Hlen; simpl in Hlen; try lia.
  - reflexivity.
  - change (scan p b (S (S k)) (c :: s)) with (scan p false (S k) s).
    rewrite IH by lia. reflexivity.
Qed.

(** When every match is harmless at the indices where an invariant of
    the scan holds, the text is left as it is.  The invariant is told
    whether the index is 0. *)
Lemma scan_unchanged_inv (Inv : bool -> jsstring -> Prop) :
  (forall b c t, Inv b (c :: t) -> Inv false t) ->
  (forall b t, Inv b t -> harmless (p b t) t) ->
  forall s b, Inv b s -> scan p b 0 s = s.
Proof.
  intros Hstep Hp s.
  assert (Hskip : forall k t b,
            Inv b t -> S k <= length t -> Inv false (skipn (S k) t)).
  { induction k as [|k IHk]; intros [|c t] b Ht Hlen; simpl in Hlen;
      try lia.
    - exact (Hstep _ _ _ Ht).
    - apply (IHk t false); [exact (Hstep _ _ _ Ht) | lia]. }
  assert (G : forall n s, length s <= n -> forall b,
             Inv b s -> scan p b 0 s = s).
  { induction n as [|n IH]; intros [|c t] Hn b HP; simpl in Hn; try lia.
    - pose proof (Hp b [] HP) as Hh. simpl.
      destruct (p b []) as [[repl k]|]; [|reflexivity].
      simpl in Hh. lia.
    - pose proof (Hp b [] HP) as Hh. simpl.
      destruct (p b []) as [[repl k]|]; [|reflexivity].
      simpl in Hh. lia.
    - pose proof (Hp b (c :: t) HP) as Hh.
      assert (HPt : Inv false t) by exact (Hstep _ _ _ HP).
      simpl. destruct (p b (c :: t)) as [[repl [|k]]|]; simpl in Hh.
      + lia.
      + destruct Hh as [Hk ->].
        destruct k as [|k].
        * simpl. rewrite IH; auto; lia.
        * rewrite scan_skip by lia.
          assert (E : scan p false 0 (skipn (S k) t) = skipn (S k) t).
          { apply IH; [rewrite length_skipn; lia|].
            apply (Hskip k t false HPt). lia. }
          rewrite E, <- app_comm_cons. f_equal. apply firstn_skipn.
      + f_equal. apply IH; auto; lia. }
  intros b HP. apply (G (length s)); auto.
Qed.

(** When every match is harmless on texts made of the units [P]
    allows, such a text is left as it is. *)
Lemma scan_unchanged (P : char16 -> Prop) :
  (forall b t, Forall P t -> harmless (p b t) t) ->
  forall s b, Forall P s -> scan p b 0 s = s.
Proof.
  intros Hp s b Hs.
  apply (@scan_unchanged_inv (fun _ t => Forall P t)); auto.
  intros _ c t Ht. inversion Ht; assumption.
Qed.

(** When every replacement is made of units [P] allows, so is the
    result. *)
Lemma scan_Forall (P : char16 -> Prop) :
  (forall b t repl n, Forall P t -> p b t = Some (repl, n) -> Forall P repl) ->
  forall s b k, Forall P s -> Forall P (scan p b k s).
Proof.
  intros Hp. induction s as [|c s IH]; intros b k HP.
  - simpl. destruct k; [|constructor].
    destruct (p b []) as [[repl n]|] eqn:E; [|constructor].
    exact (Hp _ _ _ _ HP E).
  - assert (HPs : Forall P s) by (inversion HP; assumption).
    simpl. destruct k as [|k]; [|apply IH; assumption].
    destruct (p b (c :: s)) as [[repl [|n]]|] eqn:E.
    + apply Forall_app. split; [exact (Hp _ _ _ _ HP E)|].
      constructor; [inversion HP; assumption | apply IH; assumption].
    + apply Forall_app. split; [exact (Hp _ _ _ _ HP E) | apply IH; assumption].
    + constructor; [inversion HP; assumption | apply IH; assumption].
Qed.

End ScanFacts.

(** ** Prefixes and splits *)

Lemma stripPrefix_app (p s r : jsstring) :
  stripPrefix p s = Some r -> s = p ++ r.
Proof.
  revert s. induction p as [|a p IH]; intros s Hs; simpl in Hs.
  - injection Hs as ->. reflexivity.
  - destruct s as [|b s]; [discriminate|].
    destruct (N.eqb_spec a b); [|discriminate].
    subst. simpl. f_equal. auto.
Qed.

Lemma stripPrefix_head (a : char16) (p s : jsstring) (P : char16 -> Prop) :
  Forall P s -> ~ P a -> stripPrefix (a :: p) s = None.
Proof.
  intros HP Ha. destruct s as [|b s]; [reflexivity|]. simpl.
  destruct (N.eqb_spec a b); [|reflexivity].
  subst. inversion HP. contradiction.
Qed.

Lemma stripPrefix_second (a a' : char16) (p s : jsstring)
  (P : char16 -> Prop) :
  Forall P s -> ~ P a' -> stripPrefix (a :: a' :: p) s = None.
Proof.
  intros HP Ha. destruct s as [|b s]; [reflexivity|]. simpl.
  destruct (N.eqb a b); [|reflexivity].
  apply stripPrefix_head with (P := P); [inversion HP|]; assumption.
Qed.

Lemma breakAt_app (c : char16) (s before after : jsstring) :
  breakAt c s = Some (before, after) -> s = before ++ c :: after.
Proof.
  revert before. induction s as [|d s IH]; intros before Hs; simpl in Hs.
  - discriminate.
  - destruct (N.eqb_spec d c).
    + injection Hs as <- <-. subst. reflexivity.
    + destruct (breakAt c s) as [[b' a']|]; [|discriminate].
      injection Hs as <- <-. simpl. f_equal. auto.
Qed.

Lemma breakAt_Forall (P : char16 -> Prop) (c : char16)
  (s before after : jsstring) :
  breakAt c s = Some (before, after) -> Forall P s -> Forall P before.
Proof.
  intros Hb HP. apply breakAt_app in Hb. subst.
  apply Forall_app in HP. tauto.
Qed.

Lemma stripPrefix_Forall (P : char16 -> Prop) (p s r : jsstring) :
  stripPrefix p s = Some r -> Forall P s -> Forall P r.
Proof.
  intros Hs HP. apply stripPrefix_app in Hs. subst.
  apply Forall_app in HP. tauto.
Qed.

(** ** Whitespace *)

Lemma scan_spaces (s : jsstring) : forall b,
  scan (spaces (js " ")) b 0 s = collapse false s
  /\ scan (spaces (js " ")) b (spaceRun s) s = collapse true s.
Proof.
  induction s as [|c s IH]; intros b.
  - split; reflexivity.
  - destruct (IH false) as [IH0 IH1].
    assert (E0 : scan (spaces (js " ")) b 0 (c :: s) = collapse false (c :: s)).
    { cbn [scan collapse]. unfold spaces at 1. cbn [spaceRun].
      destruct (isSpace c).
      - rewrite IH1. reflexivity.
      - rewrite IH0. reflexivity. }
    split; [exact E0|].
    cbn [spaceRun]. destruct (isSpace c) eqn:Ec.
    + cbn [scan collapse]. rewrite Ec. exact IH1.
    + rewrite E0. cbn [collapse]. rewrite Ec. reflexivity.
Qed.

Lemma collapse_tidy (s : jsstring) :
  tidy (collapse false s)
  /\ tidy (collapse true s) /\ spaceRun (collapse true s) = 0.
Proof.
  induction s as [|c s (IH0 & IH1 & IH2)]; simpl.
  - auto.
  - destruct (isSpace c) eqn:Ec; simpl; rewrite ?Ec.
    + split; [split; [auto | exact IH1] | split; [exact IH1 | exact IH2]].
    + split; [split; [discriminate | exact IH0] |].
      split; [split; [discriminate | exact IH0] | reflexivity].
Qed.

Lemma collapse_tidy_id (s : jsstring) :
  tidy s -> collapse false s = s.
Proof.
  induction s as [|c s IH]; simpl; [reflexivity|]. intros [Hc Hs].
  destruct (isSpace c) eqn:Ec.
  - destruct (Hc eq_refl) as [-> Hrun]. f_equal.
    rewrite <- (IH Hs) at 2.
    destruct s as [|d s]; [reflexivity|]. simpl in *.
    destruct (isSpace d); [discriminate | reflexivity].
  - f_equal. auto.
Qed.

Lemma dropSpaces_tidy (s : jsstring) : tidy s -> tidy (dropSpaces s).
Proof.
  induction s as [|c s IH]; intros Hs; simpl; auto.
  destruct (isSpace c); [apply IH; apply Hs | exact Hs].
Qed.

Lemma dropSpaces_head (s : jsstring) : spaceRun (dropSpaces s) = 0.
Proof.
  induction s as [|c s IH]; simpl; auto.
  destruct (isSpace c) eqn:Ec; auto. simpl. rewrite Ec. reflexivity.
Qed.

Lemma dropSpaces_id (s : jsstring) : spaceRun s = 0 -> dropSpaces s = s.
Proof.
  destruct s as [|c s]; simpl; auto.
  destruct (isSpace c); [discriminate | reflexivity].
Qed.

Lemma dropTrailingSpaces_head (s : jsstring) :
  spaceRun s = 0 -> spaceRun (dropTrailingSpaces s) = 0.
Proof.
  destruct s as [|c s]; simpl; auto.
  destruct (isSpace c) eqn:Ec; [discriminate|]. intros _.
  destruct (dropTrailingSpaces s); simpl; rewrite Ec; reflexivity.
Qed.

Lemma dropTrailingSpaces_tidy (s : jsstring) :
  tidy s -> tidy (dropTrailingSpaces s).
Proof.
  induction s as [|c s IH]; simpl; auto. intros [Hc Hs].
  specialize (IH Hs).
  destruct (dropTrailingSpaces s) as [|d r] eqn:E.
  - destruct (isSpace c) eqn:Ec; simpl; auto.
    split; auto. rewrite Ec. discriminate.
  - split; [|exact IH]. intros Hsp. destruct (Hc Hsp) as [-> Hrun].
    split; [reflexivity|].
    rewrite <- E. apply dropTrailingSpaces_head. exact Hrun.
Qed.

Lemma dropTrailingSpaces_idem (s : jsstring) :
  dropTrailingSpaces (dropTrailingSpaces s) = dropTrailingSpaces s.
Proof.
  induction s as [|c s IH]; simpl; auto.
  destruct (dropTrailingSpaces s) as [|d r] eqn:E.
  - destruct (isSpace c) eqn:Ec; simpl; rewrite ?Ec; reflexivity.
  - cbn [dropTrailingSpaces] in *. rewrite IH. reflexivity.
Qed.

Lemma normalizeSpaces_idem (s : jsstring) :
  normalizeSpaces (normalizeSpaces s) = normalizeSpaces s.
Proof.
  unfold normalizeSpaces, replaceAll, trim.
  rewrite !(proj1 (scan_spaces _ true)).
  set (y := dropTrailingSpaces (dropSpaces (collapse false s))).
  assert (Ht : tidy y).
  { apply dropTrailingSpaces_tidy, dropSpaces_tidy, collapse_tidy. }
  assert (Hh : spaceRun y = 0).
  { apply dropTrailingSpaces_head, dropSpaces_head. }
  rewrite (collapse_tidy_id _ Ht), (dropSpaces_id _ Hh).
  apply dropTrailingSpaces_idem.
Qed.

Lemma Forall_dropSpaces (P : char16 -> Prop) (s : jsstring) :
  Forall P s -> Forall P (dropSpaces s).
Proof.
  induction 1 as [|c s Hc Hs IH]; simpl; auto.
  destruct (isSpace c); auto.
Qed.

Lemma Forall_dropTrailingSpaces (P : char16 -> Prop) (s : jsstring) :
  Forall P s -> Forall P (dropTrailingSpaces s).
Proof.
  induction 1 as [|c s Hc Hs IH]; simpl; auto.
  destruct (dropTrailingSpaces s); [destruct (isSpace c)|]; auto.
Qed.

Lemma Forall_trim (P : char16 -> Prop) (s : jsstring) :
  Forall P s -> Forall P (trim s).
Proof.
  intros. apply Forall_dropTrailingSpaces, Forall_dropSpaces. assumption.
Qed.

(** ** [latexToSimple] on a text without markup *)

Lemma literal_quiet (a : char16) (lit repl t : jsstring) (b : bool) :
  ~ quiet a -> Forall quiet t -> harmless (literal (a :: lit) repl b t) t.
Proof.
  intros Ha Ht. unfold literal.
  rewrite (@stripPrefix_head a lit t quiet Ht Ha). exact I.
Qed.

Lemma braced_quiet_head (a : char16) (open keep t : jsstring) (b : bool) :
  ~ quiet a -> Forall quiet t -> harmless (braced (a :: open) keep b t) t.
Proof.
  intros Ha Ht. unfold braced.
  rewrite (@stripPrefix_head a open t quiet Ht Ha). exact I.
Qed.

Lemma braced_quiet_second (a a' : char16) (open keep t : jsstring)
  (b : bool) :
  ~ quiet a' -> Forall quiet t ->
  harmless (braced (a :: a' :: open) keep b t) t.
Proof.
  intros Ha Ht. unfold braced.
  rewrite (@stripPrefix_second a a' open t quiet Ht Ha). exact I.
Qed.

Lemma script_harmless (c : char16) (t : jsstring) (b : bool) :
  harmless (script c b t) t.
Proof.
  unfold script. destruct t as [|a [|d t]]; try exact I.
  destruct (N.eqb_spec a c); simpl; [|exact I].
  destruct (isAlnum d); simpl; [|exact I].
  subst. split; [lia | reflexivity].
Qed.

Lemma not_quiet_dollar : ~ quiet dollar.
Proof. intros (H & _). apply H. reflexivity. Qed.

Lemma not_quiet_backslash : ~ quiet backslash.
Proof. intros (_ & H & _). apply H. reflexivity. Qed.

Lemma not_quiet_lbrace : ~ quiet lbrace.
Proof. intros (_ & _ & H). apply H. reflexivity. Qed.

Lemma replaceAll_quiet (p : pattern) (s : jsstring) :
  (forall b t, Forall quiet t -> harmless (p b t) t) ->
  Forall quiet s -> replaceAll p s = s.
Proof. intros Hp Hs. exact (@scan_unchanged p quiet Hp s true Hs). Qed.

Create HintDb quiet.
#[local] Hint Resolve not_quiet_dollar not_quiet_backslash not_quiet_lbrace
  : quiet.

(** A text with no markup left and no whitespace to normalize is a
    fixed point of [latexToSimple]. *)
Lemma latexToSimple_fixed (y : jsstring) :
  Forall quiet y -> normalizeSpaces y = y -> latexToSimple y = y.
Proof.
  intros Hq Hn. unfold latexToSimple.
  destruct y as [|c y']; [reflexivity|].
  set (y := c :: y') in *.
  repeat
    (rewrite (@replaceAll_quiet _ y);
     [| intros b t Ht;
        first [ solve [apply literal_quiet; auto with quiet]
              | solve [apply braced_quiet_head; auto with quiet]
              | solve [apply braced_quiet_second; auto with quiet]
              | apply script_harmless ]
      | exact Hq ]).
  exact Hn.
Qed.

(** ** The result of [latexToSimple] has no dollar sign *)

Lemma remove_dollar (s : jsstring) : forall b k,
  Forall dollarFree (scan (literal (js "$") []) b k s).
Proof.
  induction s as [|c s IH]; intros b k.
  - destruct k; simpl; constructor.
  - destruct k as [|k]; [|apply IH].
    cbn [scan]. unfold literal at 1. change (js "$") with [dollar].
    cbn [stripPrefix Datatypes.length]. rewrite N.eqb_sym.
    destruct (N.eqb_spec c dollar); simpl.
    + apply IH.
    + constructor; [assumption | apply IH].
Qed.

Section Preserved.
Variable P : char16 -> Prop.

Lemma literal_Forall (lit repl : jsstring) :
  Forall P repl ->
  forall b t r n, Forall P t -> literal lit repl b t = Some (r, n) ->
  Forall P r.
Proof.
  intros Hr b t r n _. unfold literal.
  destruct (stripPrefix lit t); [|discriminate].
  intros E. injection E as <- _. exact Hr.
Qed.

Lemma braced_Forall (open keep : jsstring) :
  Forall P keep ->
  forall b t r n, Forall P t -> braced open keep b t = Some (r, n) ->
  Forall P r.
Proof.
  intros Hk b t r n Ht. unfold braced.
  destruct (stripPrefix open t) as [rest|] eqn:E1; [|discriminate].
  destruct (breakAt rbrace rest) as [[inner after]|] eqn:E2; [|discriminate].
  intros E. injection E as <- _.
  apply Forall_app. split; [exact Hk|].
  eapply breakAt_Forall; [exact E2|].
  eapply stripPrefix_Forall; eauto.
Qed.

Lemma script_Forall (c : char16) :
  forall b t r n, Forall P t -> script c b t = Some (r, n) ->
  Forall P r.
Proof.
  intros b t r n Ht. unfold script.
  destruct t as [|a [|d t]]; try discriminate.
  destruct (N.eqb_spec a c); simpl; [|discriminate].
  destruct (isAlnum d); [|discriminate].
  intros E. injection E as <- _. subst.
  inversion Ht as [|? ? Ha Ht']. inversion Ht'. auto.
Qed.

Lemma spaces_Forall (repl : jsstring) :
  Forall P repl ->
  forall b t r n, Forall P t -> spaces repl b t = Some (r, n) ->
  Forall P r.
Proof.
  intros Hr b t r n _. unfold spaces.
  destruct (spaceRun t); [discriminate|].
  intros E. injection E as <- _. exact Hr.
Qed.

(** The units [latexToSimple] writes of its own: the space, the caret,
    the underscore, and the seven symbols. *)
Hypothesis written :
  Forall P (js " ^_" ++ [215; 956; 176; 960; 952; 916; 937]%N).

(** A property of the units of the text that holds of the units
    written holds of the units of the result. *)
Lemma latexToSimple_Forall (x : jsstring) :
  Forall P x -> Forall P (latexToSimple x).
Proof.
  intros Hx. unfold latexToSimple. destruct x as [|c x']; [constructor|].
  assert (Hw : forall l,
            incl l (js " ^_" ++ [215; 956; 176; 960; 952; 916; 937]%N) ->
            Forall P l).
  { intros l Hl. apply Forall_forall. intros u Hu.
    rewrite Forall_forall in written. apply written, Hl, Hu. }
  apply Forall_trim.
  unfold replaceAll.
  do 18
    (apply scan_Forall;
     [ first [ apply spaces_Forall | apply script_Forall
             | apply braced_Forall | apply literal_Forall ];
       try (apply Hw; intros u Hu; simpl in Hu |- *; tauto)
     | ]).
  exact Hx.
Qed.

End Preserved.

Lemma latexToSimple_dollarFree (x : jsstring) :
  Forall dollarFree (latexToSimple x).
Proof.
  unfold latexToSimple. destruct x as [|c x']; [constructor|].
  assert (Hw : forall l, forallb (fun c => negb (N.eqb c dollar)) l = true ->
                         Forall dollarFree l).
  { intros l Hl. apply Forall_forall. intros u Hu.
    rewrite forallb_forall in Hl. specialize (Hl u Hu).
    intros ->. discriminate. }
  apply Forall_trim.
  unfold replaceAll.
  do 17
    (apply scan_Forall;
     [ first [ apply spaces_Forall | apply script_Forall
             | apply braced_Forall | apply literal_Forall ];
       try (apply Hw; reflexivity)
     | ]).
  apply remove_dollar.
Qed.

Lemma latexToSimple_normalized (x : jsstring) :
  normalizeSpaces (latexToSimple x) = latexToSimple x.
Proof.
  unfold latexToSimple. destruct x as [|c x']; [reflexivity|].
  apply normalizeSpaces_idem.
Qed.

Lemma noMarkup_Forall (y : jsstring) :
  noMarkup y = true <->
  Forall (fun c => c <> backslash /\ c <> lbrace) y.
Proof.
  unfold noMarkup. rewrite forallb_forall, Forall_forall.
  split; intros Hy c Hc; specialize (Hy c Hc).
  - apply andb_prop in Hy. destruct Hy as [Hb Hl].
    split; intros ->; discriminate.
  - destruct Hy as [Hb Hl]. apply andb_true_intro.
    split; apply negb_true_iff; apply N.eqb_neq; assumption.
Qed.

Lemma quiet_without_markup (y : jsstring) :
  Forall dollarFree y -> noMarkup y = true -> Forall quiet y.
Proof.
  intros Hd Hm. apply noMarkup_Forall in Hm.
  rewrite Forall_forall in *. intros c Hc.
  specialize (Hd c Hc). destruct (Hm c Hc) as [Hb Hl].
  repeat split; assumption.
Qed.

(** A text without markup has a simplification without markup, so on
    such a text one pass is all there is to do. *)
Lemma latexToSimple_keeps_noMarkup (x : jsstring) :
  noMarkup x = true -> noMarkup (latexToSimple x) = true.
Proof.
  rewrite !noMarkup_Forall. apply latexToSimple_Forall.
  repeat constructor; discriminate.
Qed.

Lemma latexToSimple_idempotent_on_plain_text (x : jsstring) :
  noMarkup x = true ->
  latexToSimple (latexToSimple x) = latexToSimple x.
Proof.
  intros Hx. apply latexToSimple_fixed.
  - apply quiet_without_markup;
      [apply latexToSimple_dollarFree | apply latexToSimple_keeps_noMarkup, Hx].
  - apply latexToSimple_normalized.
Qed.

(** ** [repairMalformedLatex] on a settled text *)

Lemma startsToken_false (t : jsstring) :
  startsToken t = false ->
  stripPrefix (js "ext{") t = None /\ stripPrefix (js "frac{") t = None
  /\ stripPrefix (js "sqrt{") t = None /\ wordEnd (js "times") t = None
  /\ wordEnd (js "mu") t = None /\ wordEnd (js "pi") t = None
  /\ wordEnd (js "theta") t = None.
Proof.
  unfold startsToken.
  destruct (stripPrefix (js "ext{") t); [discriminate|].
  destruct (stripPrefix (js "frac{") t); [discriminate|].
  destruct (stripPrefix (js "sqrt{") t); [discriminate|].
  destruct (wordEnd (js "times") t); [discriminate|].
  destruct (wordEnd (js "mu") t); [discriminate|].
  destruct (wordEnd (js "pi") t); [discriminate|].
  destruct (wordEnd (js "theta") t); [discriminate|].
  auto 10.
Qed.

Lemma settledFrom_boundary (t : jsstring) :
  settledFrom true t = true -> startsToken t = false.
Proof.
  destruct t as [|c t]; [reflexivity|]. cbn [settledFrom].
  intros E. apply andb_prop in E. destruct E as [E _].
  apply negb_true_iff. exact E.
Qed.

Lemma atSettled_step (b : bool) (c : char16) (t : jsstring) :
  atSettled b (c :: t) -> atSettled false t.
Proof.
  intros (boundary & _ & E). cbn [settledFrom] in E.
  apply andb_prop in E. destruct E as [_ E].
  exists (isSpace c). split; [discriminate | exact E].
Qed.

Lemma atSettled_after_space (b : bool) (c : char16) (t : jsstring) :
  atSettled b (c :: t) -> isSpace c = true -> startsToken t = false.
Proof.
  intros (boundary & _ & E) Hc. cbn [settledFrom] in E.
  apply andb_prop in E. destruct E as [_ E]. rewrite Hc in E.
  apply settledFrom_boundary. exact E.
Qed.

Lemma atSettled_start (t : jsstring) :
  atSettled true t -> startsToken t = false.
Proof.
  intros (boundary & Hb & E). rewrite (Hb eq_refl) in E.
  apply settledFrom_boundary. exact E.
Qed.

Lemma afterBoundary_settled (tok repl : jsstring) :
  (forall t, startsToken t = false -> stripPrefix tok t = None) ->
  forall b t, atSettled b t -> harmless (afterBoundary tok repl b t) t.
Proof.
  intros Htok b t Ht.
  assert (E : afterBoundary tok repl b t = None).
  { unfold afterBoundary, orElse.
    assert (Hstart : b = true -> stripPrefix tok t = None).
    { intros ->. exact (Htok _ (atSettled_start Ht)). }
    destruct t as [|c t'].
    - destruct b; [rewrite (Hstart eq_refl)|]; reflexivity.
    - destruct (isSpace c) eqn:Ec.
      + rewrite (Htok _ (atSettled_after_space Ht Ec)).
        destruct b; [rewrite (Hstart eq_refl)|]; reflexivity.
      + destruct b; [rewrite (Hstart eq_refl)|]; reflexivity. }
  rewrite E. exact I.
Qed.

Lemma standalone_settled (tok repl : jsstring) :
  (forall t, startsToken t = false -> wordEnd tok t = None) ->
  forall b t, atSettled b t -> harmless (standalone tok repl b t) t.
Proof.
  intros Htok b t Ht.
  assert (E : standalone tok repl b t = None).
  { unfold standalone, orElse.
    assert (Hstart : b = true -> wordEnd tok t = None).
    { intros ->. exact (Htok _ (atSettled_start Ht)). }
    destruct t as [|c t'].
    - destruct b; [rewrite (Hstart eq_refl)|]; reflexivity.
    - destruct (isSpace c) eqn:Ec.
      + rewrite (Htok _ (atSettled_after_space Ht Ec)).
        destruct b; [rewrite (Hstart eq_refl)|]; reflexivity.
      + destruct b; [rewrite (Hstart eq_refl)|]; reflexivity. }
  rewrite E. exact I.
Qed.

(** The replacer of the last statement puts back what was matched. *)
Lemma dollarSpan_harmless (b : bool) (t : jsstring) :
  harmless (dollarSpan b t) t.
Proof.
  unfold dollarSpan. destruct t as [|c rest]; [exact I|].
  destruct (N.eqb_spec c dollar); [|exact I].
  destruct (breakAt dollar rest) as [[[|d inner] after]|] eqn:E;
    try exact I.
  apply breakAt_app in E. subst. simpl.
  split; [rewrite length_app; simpl; lia|].
  replace (dollar :: d :: inner ++ dollar :: after)
    with ((dollar :: d :: inner ++ [dollar]) ++ after)
    by (simpl; rewrite <- app_assoc; reflexivity).
  replace (length inner + 3) with (length (dollar :: d :: inner ++ [dollar]))
    by (simpl; rewrite length_app; simpl; lia).
  rewrite firstn_app, firstn_all, Nat.sub_diag, firstn_O, app_nil_r.
  reflexivity.
Qed.

(** A settled text is left as it is: each command that has its
    backslash keeps it, and nothing else is touched. *)
Lemma repairMalformedLatex_settled (s : jsstring) :
  settled s = true -> repairMalformedLatex s = s.
Proof.
  intros Hs. unfold repairMalformedLatex.
  destruct s as [|c s']; [reflexivity|].
  set (y := c :: s') in *.
  assert (Hy : atSettled true y) by (exists true; auto).
  assert (R : forall p,
            (forall b t, atSettled b t -> harmless (p b t) t) ->
            replaceAll p y = y).
  { intros p Hp.
    exact (@scan_unchanged_inv p atSettled atSettled_step Hp y true Hy). }
  repeat
    (rewrite R;
     [| first [ apply afterBoundary_settled | apply standalone_settled
              | intros; apply dollarSpan_harmless ];
        intros t Ht; apply startsToken_false in Ht; tauto ]).
  reflexivity.
Qed.

(** A second pass changes nothing when the first one has left a
    settled text. *)
Lemma repairMalformedLatex_second_pass (x : jsstring) :
  settled (repairMalformedLatex x) = true ->
  repairMalformedLatex (repairMalformedLatex x) = repairMalformedLatex x.
Proof. apply repairMalformedLatex_settled. Qed.

(** A command that has its backslash is not preceded by a boundary:
    well-formed markup is settled. *)
Example well_formed_markup_unchanged :
  repairMalformedLatex (js "$F = 20 \text{ N}$, \frac{a}{b} \times \pi")
  = js "$F = 20 \text{ N}$, \frac{a}{b} \times \pi".
Proof. apply repairMalformedLatex_settled. reflexivity. Qed.

(** ** Idempotence of the two markup functions *)

(** C2, as stated, fails: [latexToSimple] is not idempotent.  A rule
    unwraps one level per pass, so a nested wrapper and a nested braced
    superscript both leave work for a second pass. *)
Lemma latexToSimple_not_idempotent :
  latexToSimple (js "\text{\text{a}}") = js "\text{a}"
  /\ latexToSimple (latexToSimple (js "\text{\text{a}}")) = js "a"
  /\ latexToSimple (latexToSimple (js "\text{\text{a}}"))
     <> latexToSimple (js "\text{\text{a}}")
  /\ latexToSimple (latexToSimple (js "e^{x^{2}}"))
     <> latexToSimple (js "e^{x^{2}}").
Proof.
  repeat split; try reflexivity; vm_compute; discriminate.
Qed.

(** C3: [repairMalformedLatex] is not idempotent.  The pattern of a
    standalone token consumes the whitespace after the token, so the
    same token right after it has lost its leading boundary and is
    passed over; a second pass finds it.  The patterns of the commands
    that open a brace consume nothing after the command, and repair two
    neighbours in one pass. *)
Theorem repairMalformedLatex_adjacent_tokens :
  repairMalformedLatex (js "times times") = js "\times times"
  /\ repairMalformedLatex (repairMalformedLatex (js "times times"))
     = js "\times \times"
  /\ repairMalformedLatex (repairMalformedLatex (js "times times"))
     <> repairMalformedLatex (js "times times")
  /\ repairMalformedLatex (js "ext{a} ext{b}") = js "\text{a} \text{b}".
Proof.
  repeat split; try reflexivity. vm_compute. discriminate.
Qed.

(** ** The extractor *)

(** When both brackets are found, the result is the parse of the
    candidate, or the empty array when that parse throws. *)
Lemma cleanAndParseJSON_brackets (text : jsstring) (i j : nat) :
  indexOf lbracket text = Some i ->
  lastIndexOf rbracket text = Some j ->
  cleanAndParseJSON text
  = tryCatch (JSON.parse (substring text i (j + 1))) (fun _ => VArray []).
Proof.
  intros Hi Hj. unfold cleanAndParseJSON.
  destruct text as [|c text]; [discriminate|].
  rewrite Hi, Hj. reflexivity.
Qed.

(** When a bracket is missing, the result is the parse of the cleaned
    text, or the empty array when that parse throws. *)
Lemma cleanAndParseJSON_fallback (text : jsstring) :
  text <> [] ->
  indexOf lbracket text = None \/ lastIndexOf rbracket text = None ->
  cleanAndParseJSON text
  = tryCatch (JSON.parse (cleanTextOf text)) (fun _ => VArray []).
Proof.
  intros Hne Hb. unfold cleanAndParseJSON.
  destruct text as [|c text]; [contradiction|].
  destruct Hb as [-> | ->]; [reflexivity|].
  destruct (indexOf lbracket (c :: text)); reflexivity.
Qed.

(** C1, as stated, fails: the text below has both brackets, the
    candidate between them does not parse, the cleaned text parses to a
    record, and the extractor returns the empty array, not that
    record. *)
Lemma cleanAndParseJSON_no_second_attempt :
  let text := quoted "{'a':[1],'b':[2]}" in
  indexOf lbracket text = Some 5
  /\ lastIndexOf rbracket text = Some 15
  /\ JSON.parse (substring text 5 (15 + 1)) = Throw SyntaxError
  /\ JSON.parse (cleanTextOf text)
     = Normal (VObject [(js "a", VArray [VNumber (ofZ 1)]);
                        (js "b", VArray [VNumber (ofZ 2)])])
  /\ cleanAndParseJSON text = VArray []
  /\ ~ (forall v, JSON.parse (cleanTextOf text) = Normal v ->
                  cleanAndParseJSON text = v).
Proof.
  intros text. repeat split; try reflexivity.
  intros Hall. specialize (Hall _ eq_refl). discriminate Hall.
Qed.

(** C1, amended: for every input that contains both an opening and a
    closing square bracket and whose substring from the first opening
    one to the last closing one fails to parse as JSON, the extractor
    returns the empty sequence; the cleaned text is not tried. *)
Theorem cleanAndParseJSON_candidate_fails (text : jsstring) (i j : nat)
  (e : error) :
  indexOf lbracket text = Some i ->
  lastIndexOf rbracket text = Some j ->
  JSON.parse (substring text i (j + 1)) = Throw e ->
  cleanAndParseJSON text = VArray [].
Proof.
  intros Hi Hj He.
  rewrite (cleanAndParseJSON_brackets _ Hi Hj), He. reflexivity.
Qed.

Lemma cleanAndParseJSON_candidate_fails_witness :
  cleanAndParseJSON (quoted "{'a':[1],'b':[2]}") = VArray [].
Proof.
  apply (@cleanAndParseJSON_candidate_fails
           (quoted "{'a':[1],'b':[2]}") 5 15 SyntaxError);
    reflexivity.
Defined.

(** C10: the result of the extractor is not always a sequence.  The
    text [5] and a bare record have no bracket, their cleaned text
    parses to a value that is no array, and the extractor returns that
    value. *)
Theorem cleanAndParseJSON_non_array :
  (indexOf lbracket (js "5") = None
   /\ JSON.parse (cleanTextOf (js "5")) = Normal (VNumber (ofZ 5))
   /\ cleanAndParseJSON (js "5") = VNumber (ofZ 5)
   /\ isArray (cleanAndParseJSON (js "5")) = false)
  /\ (indexOf lbracket (quoted "{'a':1}") = None
      /\ JSON.parse (cleanTextOf (quoted "{'a':1}"))
         = Normal (VObject [(js "a", VNumber (ofZ 1))])
      /\ cleanAndParseJSON (quoted "{'a':1}")
         = VObject [(js "a", VNumber (ofZ 1))]
      /\ isArray (cleanAndParseJSON (quoted "{'a':1}")) = false).
Proof. repeat split; reflexivity. Qed.

(** ** [JSON.parse] has fuel enough *)

Module JSONFacts.
Import JSON.

Lemma skipWs_length (s : jsstring) : length (skipWs s) <= length s.
Proof.
  induction s as [|c s IH]; simpl; [lia|].
  destruct (isWs c); simpl; lia.
Qed.

Lemma advances_weaken {A} (r : parsed A) (s t : jsstring) :
  advances r s -> length s <= length t -> advances r t.
Proof. destruct r; simpl; auto. lia. Qed.

Lemma parseChars_advances (s : jsstring) :
  match parseChars s with
  | Parsed _ rest => length rest < length s
  | Malformed => True
  | OutOfFuel => False
  end.
Proof.
  assert (G : forall n s, length s <= n ->
            match parseChars s with
            | Parsed _ rest => length rest < length s
            | Malformed => True
            | OutOfFuel => False
            end).
  { induction n as [|n IH]; intros [|c t] Hn; simpl in Hn; try lia;
      try exact I.
    cbn [parseChars].
    destruct (c =? 34)%N; [simpl; lia|].
    destruct (c <? 32)%N; [exact I|].
    assert (Hplain : forall u : char16,
              match match parseChars t with
                    | Parsed t' r => Parsed (u :: t') r
                    | other => other
                    end with
              | Parsed _ rest => length rest < length (c :: t)
              | Malformed => True
              | OutOfFuel => False
              end).
    { intros u. pose proof (IH t ltac:(lia)) as Ht.
      destruct (parseChars t); simpl in *; auto; lia. }
    destruct (c =? 92)%N; [|apply Hplain].
    destruct t as [|e t']; [exact I|].
    assert (Hsimple : forall u : char16,
              match match parseChars t' with
                    | Parsed t'' r => Parsed (u :: t'') r
                    | other => other
                    end with
              | Parsed _ rest => length rest < length (c :: e :: t')
              | Malformed => True
              | OutOfFuel => False
              end).
    { intros u. pose proof (IH t' ltac:(simpl in Hn; lia)) as Ht.
      destruct (parseChars t'); simpl in *; auto; lia. }
    repeat (match goal with
            | |- context [if (e =? ?k)%N then _ else _] =>
                destruct (e =? k)%N; [first [apply Hsimple | idtac]|]
            end); try exact I.
    destruct t' as [|h1 [|h2 [|h3 [|h4 t4]]]]; try exact I.
    destruct (hexValue h1), (hexValue h2), (hexValue h3), (hexValue h4);
      try exact I.
    pose proof (IH t4 ltac:(simpl in Hn; lia)) as Ht.
    destruct (parseChars t4); simpl in *; auto; lia. }
  apply (G (length s)). lia.
Qed.

Lemma readDecimal_length (s : jsstring) : forall acc count,
  length (snd (readDecimal acc count s)) <= length s.
Proof.
  induction s as [|c s IH]; intros acc count; simpl; [lia|].
  destruct (isDigit c); simpl; [|lia].
  specialize (IH (acc * 10 + Z.of_N (c - 48))%Z (S count)). lia.
Qed.

Lemma readMinus_length (s : jsstring) :
  length (snd (readMinus s)) <= length s.
Proof.
  destruct s as [|c r]; simpl; [lia|].
  destruct (c =? 45)%N; simpl; lia.
Qed.

Lemma readIntPart_length (s r : jsstring) (n : Z) :
  readIntPart s = Some (n, r) -> length r < length s.
Proof.
  destruct s as [|c t]; [discriminate|]. cbn [readIntPart].
  destruct (c =? 48)%N.
  - intros E. injection E as _ <-. simpl. lia.
  - destruct (isDigit c) eqn:Ec; [|discriminate].
    cbn [readDecimal]. rewrite Ec.
    pose proof (readDecimal_length t (0 * 10 + Z.of_N (c - 48)) 1) as Hl.
    destruct (readDecimal _ _ t) as [[n' k'] r']. simpl in Hl.
    intros E. injection E as _ <-. simpl. lia.
Qed.

Lemma readFraction_length (n m k : Z) (s r : jsstring) :
  readFraction n s = Some (m, k, r) -> length r <= length s.
Proof.
  destruct s as [|c t]; cbn [readFraction].
  - intros E. injection E as _ _ <-. lia.
  - destruct (c =? 46)%N.
    + pose proof (readDecimal_length t n 0) as Hl.
      destruct (readDecimal n 0 t) as [[m' k'] r']. simpl in Hl.
      destruct k'; [discriminate|].
      intros E. injection E as _ _ <-. simpl. lia.
    + intros E. injection E as _ _ <-. lia.
Qed.

Lemma readExponent_length (e : Z) (s r : jsstring) :
  readExponent s = Some (e, r) -> length r <= length s.
Proof.
  destruct s as [|c t]; cbn [readExponent].
  - intros E. injection E as _ <-. lia.
  - destruct ((c =? 101) || (c =? 69))%N.
    + assert (Hsign : forall (negative : bool) r0, length r0 <= length t ->
                match readDecimal 0 0 r0 with
                | (_, 0, _) => None
                | (e0, _, r') =>
                    Some (if negative then (- e0)%Z else e0, r')
                end = Some (e, r) -> length r <= length (c :: t)).
      { intros negative r0 Hr0.
        pose proof (readDecimal_length r0 0 0) as Hl.
        destruct (readDecimal 0 0 r0) as [[e0 k0] r']. simpl in Hl.
        destruct k0; [discriminate|].
        intros E. injection E as _ <-. simpl. lia. }
      destruct t as [|d t']; [apply (Hsign false []); simpl; lia|].
      destruct (d =? 45)%N; [apply (Hsign true t'); simpl; lia|].
      destruct (d =? 43)%N;
        [apply (Hsign false t') | apply (Hsign false (d :: t'))];
        simpl; lia.
    + intros E. injection E as _ <-. lia.
Qed.

Lemma parseNumber_advances (s : jsstring) :
  advances (parseNumber s) s.
Proof.
  unfold parseNumber.
  pose proof (readMinus_length s) as Hm.
  destruct (readMinus s) as [negative s0]. simpl in Hm.
  destruct (readIntPart s0) as [[n s1]|] eqn:E1; [|exact I].
  apply readIntPart_length in E1.
  destruct (readFraction n s1) as [[[m k] s2]|] eqn:E2; [|exact I].
  apply readFraction_length in E2.
  destruct (readExponent s2) as [[e s3]|] eqn:E3; [|exact I].
  apply readExponent_length in E3. simpl. lia.
Qed.

Lemma parseLiteral_advances (c : char16) (word s : jsstring) (v : value) :
  advances (parseLiteral (c :: word) v s) s.
Proof.
  unfold parseLiteral.
  destruct (stripPrefix (c :: word) s) as [r|] eqn:E; [|exact I].
  apply stripPrefix_app in E. subst. simpl. rewrite length_app. lia.
Qed.

(** With more than twice the length of the text as fuel, no parser of
    the three runs out of it, and each one that succeeds has consumed
    input. *)
Lemma parse_fuel (fuel : nat) :
  (forall s, 2 * length s + 1 <= fuel -> advances (parseValue fuel s) s)
  /\ (forall s acc, 2 * length s + 2 <= fuel ->
        advances (parseElements fuel s acc) s)
  /\ (forall s acc, 2 * length s + 2 <= fuel ->
        advances (parseMembers fuel s acc) s).
Proof.
  induction fuel as [|fuel (IHv & IHe & IHm)].
  - repeat split; intros; lia.
  - split; [|split].
    + intros s Hf. cbn [parseValue].
      pose proof (skipWs_length s) as Hws.
      destruct (skipWs s) as [|c s'] eqn:Es; [exact I|].
      simpl in Hws.
      destruct (c =? 91)%N.
      { pose proof (skipWs_length s') as Hws'.
        destruct (skipWs s') as [|d r]; [exact I|]. simpl in Hws'.
        destruct (d =? 93)%N; [simpl; lia|].
        eapply advances_weaken; [apply IHe; lia | lia]. }
      destruct (c =? 123)%N.
      { pose proof (skipWs_length s') as Hws'.
        destruct (skipWs s') as [|d r]; [exact I|]. simpl in Hws'.
        destruct (d =? 125)%N; [simpl; lia|].
        eapply advances_weaken; [apply IHm; lia | lia]. }
      destruct (c =? 34)%N.
      { pose proof (parseChars_advances s') as Hc.
        destruct (parseChars s'); simpl in *; auto; lia. }
      destruct (c =? 116)%N.
      { eapply advances_weaken; [apply parseLiteral_advances | simpl; lia]. }
      destruct (c =? 102)%N.
      { eapply advances_weaken; [apply parseLiteral_advances | simpl; lia]. }
      destruct (c =? 110)%N.
      { eapply advances_weaken; [apply parseLiteral_advances | simpl; lia]. }
      pose proof (parseNumber_advances (c :: s')) as Hn.
      destruct (parseNumber (c :: s')); simpl in *; auto; lia.
    + intros s acc Hf. cbn [parseElements].
      pose proof (IHv s ltac:(lia)) as Hv.
      destruct (parseValue fuel s) as [v r| |]; simpl in Hv; auto.
      pose proof (skipWs_length r) as Hws.
      destruct (skipWs r) as [|d r']; [exact I|]. simpl in Hws.
      destruct (d =? 44)%N.
      { eapply advances_weaken; [apply IHe; lia | lia]. }
      destruct (d =? 93)%N; simpl; [lia | exact I].
    + intros s acc Hf. cbn [parseMembers].
      pose proof (skipWs_length s) as Hws.
      destruct (skipWs s) as [|q s1]; [exact I|]. simpl in Hws.
      destruct (q =? 34)%N; [|exact I].
      pose proof (parseChars_advances s1) as Hc.
      destruct (parseChars s1) as [k s2| |]; simpl in Hc; auto.
      pose proof (skipWs_length s2) as Hws2.
      destruct (skipWs s2) as [|colon s3]; [exact I|]. simpl in Hws2.
      destruct (colon =? 58)%N; [|exact I].
      pose proof (IHv s3 ltac:(lia)) as Hv.
      destruct (parseValue fuel s3) as [v r| |]; simpl in Hv; auto.
      pose proof (skipWs_length r) as Hwsr.
      destruct (skipWs r) as [|d r']; [exact I|]. simpl in Hwsr.
      destruct (d =? 44)%N.
      { eapply advances_weaken; [apply IHm; lia | lia]. }
      destruct (d =? 125)%N; simpl; [lia | exact I].
Qed.

(** [JSON.parse] throws only on a malformed text. *)
Lemma parse_has_fuel (text : jsstring) :
  parseValue (S (2 * length text)) text <> OutOfFuel.
Proof.
  pose proof (proj1 (parse_fuel (S (2 * length text))) text ltac:(lia)) as Hv.
  intros E. rewrite E in Hv. exact Hv.
Qed.

End JSONFacts.

(** ** Values and conversions *)

(** Induction on a value, with the hypothesis for the items of an
    array. *)
Lemma value_ind_items (P : value -> Prop) :
  P VUndefined -> P VNull -> (forall b, P (VBool b)) ->
  (forall n, P (VNumber n)) -> (forall s, P (VString s)) ->
  (forall items, Forall P items -> P (VArray items)) ->
  (forall fields, P (VObject fields)) ->
  forall v, P v.
Proof.
  intros HU HN HB HNum HS HA HO.
  fix IH 1.
  intros [| |b|n|s|items|fields];
    [exact HU | exact HN | apply HB | apply HNum | apply HS | | apply HO].
  apply HA. induction items as [|x items IHitems]; constructor.
  - apply IH.
  - exact IHitems.
Qed.

Lemma convertible_array (items : list value) :
  convertible (VArray items) = forallb convertible items.
Proof.
  induction items as [|x items IH]; [reflexivity|].
  simpl in *. rewrite IH. reflexivity.
Qed.

Section Conversions.
Context `{Platform}.

Lemma String_convertible (v : value) :
  convertible v = true -> exists s, String_ v = Normal s.
Proof.
  induction v as [| |b|n|s|items IH|fields] using value_ind_items;
    intros Hc; simpl; eauto.
  - destruct b; eauto.
  - rewrite convertible_array in Hc.
    induction IH as [|x items Hx _ IHitems]; [eauto|].
    simpl in Hc. apply andb_prop in Hc. destruct Hc as [Hcx Hcs].
    destruct (Hx Hcx) as [sx Ex]. destruct (IHitems Hcs) as [ss Es].
    assert (E : exists a, match x with
                          | VUndefined | VNull => Normal []
                          | _ => String_ x
                          end = Normal a)
      by (destruct x; eauto).
    destruct E as [a ->]. cbn [bind].
    destruct items as [|y items]; [eauto|].
    rewrite Es. cbn [bind]. eauto.
  - simpl in Hc. destruct (getOwn (js "toString") fields);
      [discriminate | eauto].
Qed.

Lemma processText_convertible (v : value) :
  convertible v = true -> exists s, processText v = Normal s.
Proof.
  intros Hc. destruct (String_convertible _ Hc) as [s Es].
  unfold processText. rewrite Es. simpl. eauto.
Qed.

Lemma mapM_length {A B} (f : A -> completion B) (l : list A) (r : list B) :
  mapM f l = Normal r -> length r = length l.
Proof.
  revert r. induction l as [|a l IH]; intros r E; simpl in E.
  - injection E as <-. reflexivity.
  - destruct (f a) as [b|]; [|discriminate]. simpl in E.
    destruct (mapM f l) as [bs|]; [|discriminate]. simpl in E.
    injection E as <-. simpl. f_equal. auto.
Qed.

Lemma mapM_total {A B} (f : A -> completion B) (l : list A) :
  Forall (fun a => exists b, f a = Normal b) l ->
  exists r, mapM f l = Normal r.
Proof.
  induction 1 as [|a l [b Eb] _ [r Er]]; simpl; [eauto|].
  rewrite Eb, Er. simpl. eauto.
Qed.

(** The other values make [String()] throw. *)
Lemma String_unconvertible (v : value) :
  convertible v = false -> String_ v = Throw TypeError.
Proof.
  induction v as [| |b|n|s|items IH|fields] using value_ind_items;
    intros Hc; try discriminate.
  - rewrite convertible_array in Hc. simpl.
    induction IH as [|x items Hx _ IHitems]; [discriminate|].
    simpl in Hc. apply andb_false_iff in Hc.
    destruct (convertible x) eqn:Hcx.
    + destruct Hc as [Hc|Hc]; [discriminate|].
      destruct (String_convertible _ Hcx) as [sx Ex].
      assert (E : exists a, match x with
                            | VUndefined | VNull => Normal []
                            | _ => String_ x
                            end = Normal a)
        by (destruct x; eauto).
      destruct E as [a ->]. cbn [bind].
      destruct items as [|y items]; [discriminate|].
      rewrite (IHitems Hc). reflexivity.
    + rewrite (Hx eq_refl).
      destruct x; try discriminate; reflexivity.
  - simpl in Hc |- *. destruct (getOwn (js "toString") fields);
      [reflexivity | discriminate].
Qed.

Lemma processText_unconvertible (v : value) :
  convertible v = false -> processText v = Throw TypeError.
Proof.
  intros Hc. unfold processText. rewrite (String_unconvertible _ Hc).
  reflexivity.
Qed.

Lemma mapM_unconvertible (l : list value) :
  forallb convertible l = false -> mapM processText l = Throw TypeError.
Proof.
  induction l as [|a l IH]; intros Hc; [discriminate|].
  simpl in Hc |- *. destruct (convertible a) eqn:Ha.
  - destruct (processText_convertible _ Ha) as [b ->]. cbn [bind].
    rewrite (IH Hc). reflexivity.
  - rewrite (processText_unconvertible _ Ha). reflexivity.
Qed.

End Conversions.

(** ** The clamp *)

Lemma clampIndex_cases (idx : number) (n : nat) :
  clampIndex idx n =
    if ltb idx (ofZ 0) then
      (if geb (ofZ 0) (ofNat n) then ofZ (Z.of_nat n - 1) else ofZ 0)
    else if geb idx (ofNat n) then ofZ (Z.of_nat n - 1) else idx.
Proof. unfold clampIndex. destruct (ltb idx (ofZ 0)); reflexivity. Qed.

Lemma ltb_finite (p q : Q) : ltb (Finite p) (Finite q) = true <-> (p < q)%Q.
Proof.
  simpl. rewrite negb_true_iff. split.
  - intros E. apply Qnot_le_lt. intros Hle.
    apply Qle_bool_iff in Hle. congruence.
  - intros Hlt. destruct (Qle_bool q p) eqn:E; [|reflexivity].
    apply Qle_bool_iff in E. apply Qle_not_lt in E. contradiction.
Qed.

Lemma ltb_finite_false (p q : Q) :
  ltb (Finite p) (Finite q) = false <-> (q <= p)%Q.
Proof.
  simpl. rewrite negb_false_iff. apply Qle_bool_iff.
Qed.

(** The clamped index is a number of the range of the options. *)
Lemma clampIndex_range (idx : number) (n : nat) :
  1 <= n ->
  exists r, clampIndex idx n = Finite r
            /\ (0 <= r)%Q /\ (r < inject_Z (Z.of_nat n))%Q.
Proof.
  intros Hn.
  assert (Hlast : (0 <= inject_Z (Z.of_nat n - 1))%Q
                  /\ (inject_Z (Z.of_nat n - 1) < inject_Z (Z.of_nat n))%Q).
  { split.
    - change 0%Q with (inject_Z 0). rewrite <- Zle_Qle. lia.
    - rewrite <- Zlt_Qlt. lia. }
  assert (Hzero : (0 < inject_Z (Z.of_nat n))%Q).
  { change 0%Q with (inject_Z 0). rewrite <- Zlt_Qlt. lia. }
  rewrite clampIndex_cases. unfold geb, ofNat, ofZ.
  destruct idx as [p|[|]].
  - destruct (ltb (Finite p) (Finite (inject_Z 0))) eqn:E0.
    + destruct (ltb (Finite (inject_Z 0)) (Finite (inject_Z (Z.of_nat n))))
        eqn:E1; simpl negb.
      * exists (inject_Z 0). repeat split; auto. apply Qle_refl.
      * exists (inject_Z (Z.of_nat n - 1)). tauto.
    + apply ltb_finite_false in E0.
      destruct (ltb (Finite p) (Finite (inject_Z (Z.of_nat n)))) eqn:E1;
        simpl negb.
      * apply ltb_finite in E1. exists p. auto.
      * exists (inject_Z (Z.of_nat n - 1)). tauto.
  - simpl. destruct (Qle_bool (inject_Z (Z.of_nat n)) (inject_Z 0)) eqn:E.
    + apply Qle_bool_iff in E. apply Qle_not_lt in E. contradiction.
    + simpl. exists (inject_Z 0). repeat split; auto. apply Qle_refl.
  - simpl. exists (inject_Z (Z.of_nat n - 1)). tauto.
Qed.

Lemma clampIndex_below (idx : number) (n : nat) :
  1 <= n -> ltb idx (ofZ 0) = true -> clampIndex idx n = ofZ 0.
Proof.
  intros Hn Hlt. rewrite clampIndex_cases, Hlt. unfold geb.
  assert (E : ltb (ofZ 0) (ofNat n) = true).
  { apply ltb_finite. rewrite <- Zlt_Qlt. lia. }
  rewrite E. reflexivity.
Qed.

Lemma clampIndex_above (idx : number) (n : nat) :
  ltb idx (ofZ 0) = false -> geb idx (ofNat n) = true ->
  clampIndex idx n = ofZ (Z.of_nat n - 1).
Proof.
  intros Hlt Hge. rewrite clampIndex_cases, Hlt, Hge. reflexivity.
Qed.

Lemma clampIndex_within (idx : number) (n : nat) :
  ltb idx (ofZ 0) = false -> geb idx (ofNat n) = false ->
  clampIndex idx n = idx.
Proof.
  intros Hlt Hge. rewrite clampIndex_cases, Hlt, Hge. reflexivity.
Qed.

(** ** The normalizer *)

Section NormalizerFacts.
Context `{Platform}.

Lemma truthy_not_nullish (q : value) :
  truthy (questionTextOf q) = true -> nullish q = false.
Proof. destruct q; simpl; intros E; try discriminate; reflexivity. Qed.

(** What an accepted candidate looks like. *)
Lemma normalizeQuestion_accepted (q : value) (index : nat)
  (prefix : jsstring) (now : N) (cq : Question) :
  normalizeQuestion q index prefix now = Normal (Some cq) ->
  truthy (questionTextOf q) = true
  /\ exists opts,
       optionsListOf q = VArray opts
       /\ 2 <= length opts
       /\ mapM processText opts = Normal (options cq)
       /\ id cq = idOf prefix now index
       /\ correctIndex cq
          = clampIndex (resolveIndex q) (length (options cq)).
Proof.
  unfold normalizeQuestion.
  destruct (nullish q); [discriminate|].
  destruct (truthy (questionTextOf q)); [|discriminate].
  destruct (optionsListOf q) as [| | | | |opts|]; try discriminate.
  cbn [negb isArray orb elements].
  destruct (Nat.ltb_spec (length opts) 2); [discriminate|].
  destruct (mapM processText opts) as [cleanOptions|] eqn:Em;
    [|discriminate].
  cbn [bind].
  destruct (processText _) as [t|]; [|discriminate]. cbn [bind].
  destruct (processText _) as [e|]; [|discriminate]. cbn [bind].
  intros E. injection E as <-. simpl.
  split; [reflexivity|]. exists opts. repeat split; trivial.
Qed.

(** A candidate with a question text, two options or more, and texts
    that convert, is accepted. *)
Lemma normalizeQuestion_accepts (q : value) (index : nat) (prefix : jsstring)
  (now : N) (opts : list value) :
  truthy (questionTextOf q) = true ->
  optionsListOf q = VArray opts ->
  2 <= length opts ->
  wellFormed q = true ->
  exists cq, normalizeQuestion q index prefix now = Normal (Some cq).
Proof.
  intros Ht Ho Hlen Hwf. unfold normalizeQuestion.
  rewrite (truthy_not_nullish _ Ht), Ht.
  unfold wellFormed in Hwf. rewrite Ho in *.
  cbn [negb isArray orb elements] in *.
  apply andb_prop in Hwf. destruct Hwf as [Hwf He].
  apply andb_prop in Hwf. destruct Hwf as [Hq Hopts].
  destruct (Nat.ltb_spec (length opts) 2); [lia|].
  destruct (@mapM_total _ _ processText opts) as [cleanOptions ->].
  { rewrite forallb_forall in Hopts. apply Forall_forall.
    intros o Ho'. apply processText_convertible. auto. }
  destruct (processText_convertible _ Hq) as [t ->].
  destruct (processText_convertible _ He) as [e ->].
  cbn [bind]. eauto.
Qed.

(** The only grounds for a rejection. *)
Lemma normalizeQuestion_rejected (q : value) (index : nat)
  (prefix : jsstring) (now : N) :
  normalizeQuestion q index prefix now = Normal None ->
  truthy (questionTextOf q) = false
  \/ isArray (optionsListOf q) = false
  \/ length (elements (optionsListOf q)) < 2.
Proof.
  unfold normalizeQuestion.
  destruct (nullish q); [discriminate|].
  destruct (truthy (questionTextOf q)); [|auto].
  destruct (isArray (optionsListOf q)); [|auto].
  cbn [negb orb].
  destruct (Nat.ltb_spec (length (elements (optionsListOf q))) 2); [auto|].
  destruct (mapM _ _); [|discriminate]. cbn [bind].
  destruct (processText _); [|discriminate]. cbn [bind].
  destruct (processText _); discriminate.
Qed.

Lemma or_falsy (a b : value) :
  truthy a = false -> (a || b)%js = b.
Proof. intros E. unfold or. rewrite E. reflexivity. Qed.

Lemma below_zero_not_above (idx : number) (n : nat) :
  ltb idx (ofZ 0) = true -> geb idx (ofNat n) = false.
Proof.
  unfold geb. intros Hlt. apply negb_false_iff.
  destruct idx as [p|[|]]; simpl in Hlt |- *; try discriminate; auto.
  apply ltb_finite in Hlt. apply ltb_finite.
  apply Qlt_le_trans with (inject_Z 0); [exact Hlt|].
  rewrite <- Zle_Qle. lia.
Qed.

(** X26: for every raw candidate whose question text, a non-empty
    string, is present only under the key [Question], whose options
    array of length at least 2 is present only under the key [answers]
    (in lower case), and whose texts convert to strings,
    [normalizeQuestion] resolves both fields via its fallback key lists
    and returns a non-null Canonical Question. *)
Theorem normalizeQuestion_fallback_keys (q : value) (index : nat)
  (prefix : jsstring) (now : N) (s : jsstring) (opts : list value) :
  get q (js "question") = VUndefined ->
  get q (js "Question") = VString s ->
  s <> [] ->
  get q (js "text") = VUndefined ->
  get q (js "query") = VUndefined ->
  get q (js "options") = VUndefined ->
  get q (js "Options") = VUndefined ->
  get q (js "choices") = VUndefined ->
  get q (js "answers") = VArray opts ->
  2 <= length opts ->
  wellFormed q = true ->
  questionTextOf q = VString s
  /\ optionsListOf q = VArray opts
  /\ exists cq,
       normalizeQuestion q index prefix now = Normal (Some cq)
       /\ processText (VString s) = Normal (text cq)
       /\ length (options cq) = length opts.
Proof.
  intros Hq1 Hq2 Hs Hq3 Hq4 Ho1 Ho2 Ho3 Ho4 Hlen Hwf.
  assert (Eq : questionTextOf q = VString s).
  { unfold questionTextOf. rewrite Hq1, Hq2, Hq3, Hq4.
    destruct s; [contradiction | reflexivity]. }
  assert (Eo : optionsListOf q = VArray opts).
  { unfold optionsListOf. rewrite Ho1, Ho2, Ho3, Ho4. reflexivity. }
  repeat split; trivial.
  assert (Ht : truthy (questionTextOf q) = true).
  { rewrite Eq. destruct s; [contradiction | reflexivity]. }
  destruct (@normalizeQuestion_accepts q index prefix now opts Ht Eo Hlen Hwf)
    as [cq Ecq].
  exists cq. split; [exact Ecq|].
  pose proof Ecq as Hacc. apply normalizeQuestion_accepted in Hacc.
  destruct Hacc as (_ & opts' & Eo' & _ & Hmap & _).
  rewrite Eo in Eo'. injection Eo' as <-.
  split; [|exact (mapM_length _ _ Hmap)].
  revert Ecq. unfold normalizeQuestion.
  destruct (nullish q); [discriminate|].
  rewrite Eq, Eo. cbn [negb isArray orb elements truthy].
  destruct s as [|c s']; [contradiction|]. cbn [negb orb].
  destruct (Nat.ltb_spec (length opts) 2); [lia|].
  rewrite Hmap. cbn [bind].
  destruct (processText (VString (c :: s'))) as [t|]; [|discriminate].
  cbn [bind]. destruct (processText _); [|discriminate]. cbn [bind].
  intros E. injection E as <-. reflexivity.
Qed.

(** X27: for every raw candidate with a truthy question text and an
    options value that is an array of length at least 2, whose question
    text, options and explanation [String()] converts,
    [normalizeQuestion] returns a non-null result whose options list
    has the length of the input array and whose [correctIndex] is at
    least 0 and below that length. *)
Theorem normalizeQuestion_valid (q : value) (index : nat)
  (prefix : jsstring) (now : N) (opts : list value) :
  truthy (questionTextOf q) = true ->
  optionsListOf q = VArray opts ->
  2 <= length opts ->
  wellFormed q = true ->
  exists cq,
    normalizeQuestion q index prefix now = Normal (Some cq)
    /\ length (options cq) = length opts
    /\ exists r, correctIndex cq = Finite r
                 /\ (0 <= r)%Q
                 /\ (r < inject_Z (Z.of_nat (length (options cq))))%Q.
Proof.
  intros Ht Eo Hlen Hwf.
  destruct (@normalizeQuestion_accepts q index prefix now opts Ht Eo Hlen Hwf)
    as [cq Ecq].
  exists cq. split; [exact Ecq|].
  apply normalizeQuestion_accepted in Ecq.
  destruct Ecq as (_ & opts' & Eo' & _ & Hmap & _ & Hidx).
  rewrite Eo in Eo'. injection Eo' as <-.
  pose proof (mapM_length _ _ Hmap) as Hl.
  split; [exact Hl|].
  rewrite Hidx. apply clampIndex_range. lia.
Qed.

(** X28: for every raw candidate with a truthy question text and an
    options value that is an array of length at least 2, in which
    [String()] does not convert the question text, one of the options
    or the explanation, [normalizeQuestion] throws a TypeError: it
    neither returns a question nor rejects the candidate. *)
Theorem normalizeQuestion_unconvertible_throws (q : value) (index : nat)
  (prefix : jsstring) (now : N) (opts : list value) :
  truthy (questionTextOf q) = true ->
  optionsListOf q = VArray opts ->
  2 <= length opts ->
  wellFormed q = false ->
  normalizeQuestion q index prefix now = Throw TypeError.
Proof.
  intros Ht Ho Hlen Hwf. unfold normalizeQuestion.
  rewrite (truthy_not_nullish _ Ht), Ht.
  unfold wellFormed in Hwf. rewrite Ho in *.
  cbn [negb isArray orb elements] in *.
  destruct (Nat.ltb_spec (length opts) 2); [lia|].
  destruct (forallb convertible opts) eqn:Hopts;
    [|rewrite (mapM_unconvertible _ Hopts); reflexivity].
  destruct (@mapM_total _ _ processText opts) as [cleanOptions ->].
  { rewrite forallb_forall in Hopts. apply Forall_forall.
    intros o Ho'. apply processText_convertible. auto. }
  cbn [bind].
  destruct (convertible (questionTextOf q)) eqn:Hq;
    [|rewrite (processText_unconvertible _ Hq); reflexivity].
  destruct (processText_convertible _ Hq) as [t ->]. cbn [bind].
  simpl in Hwf. rewrite (processText_unconvertible _ Hwf). reflexivity.
Qed.

(** C6: for every raw candidate, other than [undefined] and [null], in
    which no question text resolves under any alias key, or whose
    options value is not a sequence, or whose options sequence has
    fewer than 2 elements, [normalizeQuestion] returns null. *)
Theorem normalizeQuestion_rejects (q : value) (index : nat)
  (prefix : jsstring) (now : N) :
  nullish q = false ->
  (truthy (get q (js "question")) = false
   /\ truthy (get q (js "Question")) = false
   /\ truthy (get q (js "text")) = false
   /\ truthy (get q (js "query")) = false)
  \/ isArray (optionsListOf q) = false
  \/ length (elements (optionsListOf q)) < 2 ->
  normalizeQuestion q index prefix now = Normal None.
Proof.
  intros Hn Hr. unfold normalizeQuestion. rewrite Hn.
  destruct Hr as [(H1 & H2 & H3 & H4) | [Ha | Hl]].
  - unfold questionTextOf.
    rewrite (@or_falsy _ _ H1), (@or_falsy _ _ H2), (@or_falsy _ _ H3), H4.
    reflexivity.
  - rewrite Ha. rewrite orb_true_r. reflexivity.
  - apply Nat.ltb_lt in Hl. rewrite Hl. rewrite orb_true_r. reflexivity.
Qed.

(** X29: for every raw candidate accepted by [normalizeQuestion], the
    resolved correct-answer index is clamped: one below 0 becomes 0 and
    one at or above the number of options becomes the last index; a
    rejection is never on account of the index.  In particular the
    response of the specification (its string literal read with its
    escapes, so that backslash-n is a line feed) yields exactly one
    Canonical Question, with [correctIndex] 1. *)
Theorem correctIndex_clamped :
  (forall q index prefix now cq,
     normalizeQuestion q index prefix now = Normal (Some cq) ->
     let n := length (options cq) in
     correctIndex cq = clampIndex (resolveIndex q) n
     /\ (ltb (resolveIndex q) (ofZ 0) = true -> correctIndex cq = ofZ 0)
     /\ (geb (resolveIndex q) (ofNat n) = true ->
         correctIndex cq = ofZ (Z.of_nat n - 1)))
  /\ (forall q index prefix now,
        normalizeQuestion q index prefix now = Normal None ->
        truthy (questionTextOf q) = false
        \/ isArray (optionsListOf q) = false
        \/ length (elements (optionsListOf q)) < 2)
  /\ (forall prefix clock,
        exists cq,
          generateQuestions prefix clock (Normal specResponse) = [cq]
          /\ correctIndex cq = ofZ 1
          /\ text cq = js "Q1"
          /\ options cq = [js "A"; js "B"]).
Proof.
  split; [|split].
  - intros q index prefix now cq Hacc n.
    apply normalizeQuestion_accepted in Hacc.
    destruct Hacc as (_ & opts & _ & Hlen & Hmap & _ & Hidx).
    pose proof (mapM_length _ _ Hmap) as Hl. fold n in Hidx, Hl.
    split; [exact Hidx|]. split.
    + intros Hlt. rewrite Hidx. apply clampIndex_below; [lia | exact Hlt].
    + intros Hge. rewrite Hidx. apply clampIndex_above; [|exact Hge].
      destruct (ltb (resolveIndex q) (ofZ 0)) eqn:Hlt; [|reflexivity].
      rewrite (below_zero_not_above _ n Hlt) in Hge. discriminate.
  - apply normalizeQuestion_rejected.
  - intros prefix clock. eexists. vm_compute. repeat split.
Qed.

(** C8: for every raw candidate accepted by [normalizeQuestion] whose
    [correctIndex] field is a string, the resolved index is the integer
    [parseInt] reads from the string, and 0 when [parseInt] reads none;
    the string 2 resolves to the integer 2. *)
Theorem correctIndex_from_string :
  (forall q index prefix now cq s,
     normalizeQuestion q index prefix now = Normal (Some cq) ->
     get q (js "correctIndex") = VString s ->
     (forall n, parseInt s = Some n ->
        resolveIndex q = ofZ n
        /\ correctIndex cq = clampIndex (ofZ n) (length (options cq)))
     /\ (parseInt s = None ->
         resolveIndex q = ofZ 0 /\ correctIndex cq = ofZ 0))
  /\ parseInt (js "2") = Some 2%Z
  /\ parseInt (js "two") = None.
Proof.
  split; [|split; reflexivity].
  intros q index prefix now cq s Hacc Hs.
  apply normalizeQuestion_accepted in Hacc.
  destruct Hacc as (_ & opts & _ & Hlen & Hmap & _ & Hidx).
  pose proof (mapM_length _ _ Hmap) as Hl.
  assert (Hr : resolveIndex q = ofZ (numberOr (parseInt s) 0)).
  { unfold resolveIndex. rewrite Hs. reflexivity. }
  split.
  - intros n Hn. rewrite Hn in Hr.
    assert (En : numberOr (Some n) 0 = n).
    { unfold numberOr. destruct (Z.eqb_spec n 0); congruence. }
    rewrite En in Hr. rewrite Hidx, Hr. auto.
  - intros Hn. rewrite Hn in Hr. simpl in Hr.
    split; [exact Hr|]. rewrite Hidx, Hr.
    apply clampIndex_within; [reflexivity|].
    unfold geb. apply negb_false_iff. apply ltb_finite.
    rewrite <- Zlt_Qlt. lia.
Qed.

End NormalizerFacts.

(** ** Identifiers *)

Lemma digits_no_dash (d : Decimal.uint) :
  Forall (fun c => c <> 45%N) (digits d).
Proof. induction d; simpl; constructor; auto; discriminate. Qed.

Lemma digits_inj (d d' : Decimal.uint) : digits d = digits d' -> d = d'.
Proof.
  revert d'.
  induction d as [|d IH|d IH|d IH|d IH|d IH|d IH|d IH|d IH|d IH|d IH];
    intros [|d'|d'|d'|d'|d'|d'|d'|d'|d'|d']; simpl; intros E;
    try discriminate; try reflexivity;
    injection E as E; f_equal; auto.
Qed.

Lemma natToString_inj (i j : nat) : natToString i = natToString j -> i = j.
Proof.
  intros E. apply digits_inj in E.
  apply DecimalNat.Unsigned.to_uint_inj. exact E.
Qed.

(** Two texts that agree, each cut at a unit its first part does not
    hold, agree on both parts. *)
Lemma cut_unique (c : char16) (a a' b b' : jsstring) :
  Forall (fun x => x <> c) a -> Forall (fun x => x <> c) a' ->
  a ++ c :: b = a' ++ c :: b' -> a = a' /\ b = b'.
Proof.
  revert a'. induction a as [|x a IH]; intros [|x' a'] Ha Ha' E;
    simpl in E.
  - injection E as ->. auto.
  - injection E as E1 E2. subst. inversion Ha'. contradiction.
  - injection E as E1 E2. subst. inversion Ha. contradiction.
  - injection E as E1 E2. subst. inversion Ha; inversion Ha'; subst.
    destruct (IH a') as [-> ->]; auto.
Qed.

(** The position of an identifier can be read back from it: it is what
    follows the last hyphen. *)
Lemma idOf_position (p p' : jsstring) (n n' : N) (i j : nat) :
  idOf p n i = idOf p' n' j -> i = j.
Proof.
  unfold idOf. intros E.
  assert (E' : (p ++ js "-" ++ NToString n) ++ 45%N :: natToString i
               = (p' ++ js "-" ++ NToString n') ++ 45%N :: natToString j).
  { rewrite <- !app_assoc. exact E. }
  apply (f_equal (@List.rev _)) in E'.
  rewrite !rev_app_distr in E'. simpl in E'. rewrite <- !app_assoc in E'.
  simpl in E'.
  apply cut_unique in E'.
  - destruct E' as [E' _]. apply (f_equal (@List.rev _)) in E'.
    rewrite !rev_involutive in E'. apply natToString_inj. exact E'.
  - apply Forall_rev, digits_no_dash.
  - apply Forall_rev, digits_no_dash.
Qed.

Section Identifiers.
Context `{Platform}.

Lemma mapNormalize_ids (prefix : jsstring) (clock : nat -> N)
  (items : list value) : forall (i : nat) (rs : list (option Question)),
  mapNormalize prefix clock i items = Normal rs ->
  Forall (fun cq => exists j, i <= j /\ id cq = idOf prefix (clock j) j)
    (filterNonNull rs)
  /\ NoDup (map id (filterNonNull rs)).
Proof.
  induction items as [|q items IH]; intros i rs E; simpl in E.
  - injection E as <-. simpl. split; constructor.
  - destruct (normalizeQuestion q i prefix (clock i)) as [r|] eqn:Er;
      [|discriminate].
    cbn [bind] in E.
    destruct (mapNormalize prefix clock (S i) items) as [rs'|] eqn:Ers;
      [|discriminate].
    cbn [bind] in E. injection E as <-.
    destruct (IH _ _ Ers) as [Hall Hnd].
    assert (Hall' : Forall
              (fun cq => exists j, i <= j /\ id cq = idOf prefix (clock j) j)
              (filterNonNull rs')).
    { eapply Forall_impl; [|exact Hall].
      intros cq (j & Hj & Ej). exists j. split; [lia | exact Ej]. }
    destruct r as [cq|]; simpl; [|split; assumption].
    apply normalizeQuestion_accepted in Er.
    destruct Er as (_ & opts & _ & _ & _ & Eid & _).
    split.
    + constructor; [exists i; split; [lia | exact Eid] | exact Hall'].
    + constructor; [|exact Hnd].
      intros Hin. apply in_map_iff in Hin.
      destruct Hin as (cq' & Eq' & Hin').
      rewrite Forall_forall in Hall.
      destruct (Hall _ Hin') as (j & Hj & Ej).
      rewrite Eid, Ej in Eq'. apply idOf_position in Eq'. lia.
Qed.

(** C9: within one batch, two successfully normalized items at distinct
    positions have distinct identifiers, whatever the clock reads for
    each of them; so the identifiers of a batch hold no duplicate. *)
Theorem ids_distinct_in_batch :
  (forall q1 q2 i j prefix now1 now2 c1 c2,
     i <> j ->
     normalizeQuestion q1 i prefix now1 = Normal (Some c1) ->
     normalizeQuestion q2 j prefix now2 = Normal (Some c2) ->
     id c1 <> id c2)
  /\ (forall prefix clock response,
        NoDup (map id (generateQuestions prefix clock response))).
Proof.
  split.
  - intros q1 q2 i j prefix now1 now2 c1 c2 Hij H1 H2 E.
    apply normalizeQuestion_accepted in H1, H2.
    destruct H1 as (_ & ? & _ & _ & _ & E1 & _).
    destruct H2 as (_ & ? & _ & _ & _ & E2 & _).
    rewrite E1, E2 in E. apply idOf_position in E. contradiction.
  - intros prefix clock response. unfold generateQuestions.
    destruct response as [responseText|e]; [|simpl; constructor].
    cbn [bind].
    destruct (cleanAndParseJSON _) as [| | | | |items|];
      try (simpl; constructor).
    destruct (mapNormalize prefix clock 0 items) as [rs|] eqn:E.
    + simpl. apply (mapNormalize_ids _ _ _ _ E).
    + simpl. constructor.
Qed.

End Identifiers.

(** ** The claims on examples *)

(** C4: the candidate of the claim is rejected.  The options are
    looked up under [options], [Options], [choices] and [answers], and
    [Answers] is not among them, though the capitalised [Options] is:
    with that key, or with [answers], the same candidate is
    accepted. *)
Theorem normalizeQuestion_Answers_rejected :
  questionTextOf (candidateWithKey (js "Answers")) = VString (js "Q")
  /\ get (candidateWithKey (js "Answers")) (js "Answers")
     = VArray [VString (js "A"); VString (js "B")]
  /\ optionsListOf (candidateWithKey (js "Answers")) = VUndefined
  /\ normalizeQuestion (candidateWithKey (js "Answers")) 0 (js "battle")
       1700000000000
     = Normal None
  /\ (exists cq,
        normalizeQuestion (candidateWithKey (js "Options")) 0 (js "battle")
          1700000000000
        = Normal (Some cq)
        /\ text cq = js "Q" /\ options cq = [js "A"; js "B"])
  /\ (exists cq,
        normalizeQuestion (candidateWithKey (js "answers")) 0 (js "battle")
          1700000000000
        = Normal (Some cq)
        /\ text cq = js "Q" /\ options cq = [js "A"; js "B"]).
Proof.
  repeat (split; [reflexivity|]).
  split; eexists; (split; [reflexivity|]); split; reflexivity.
Qed.

(** C5: a candidate with a truthy question text and an array of two
    options for which [normalizeQuestion] returns no question: the
    second option is a record with a property [toString], which
    [String()] does not convert, and the call throws.  In a response
    the throw reaches the [catch] of the entry point, and the candidate
    before it is lost as well. *)
Theorem normalizeQuestion_option_throws :
  truthy (questionTextOf candidateWithObjectOption) = true
  /\ optionsListOf candidateWithObjectOption
     = VArray [VString (js "A");
               VObject [(js "toString", VNumber (ofZ 1))]]
  /\ normalizeQuestion candidateWithObjectOption 0 (js "battle")
       1700000000000
     = Throw TypeError
  /\ (exists first,
        cleanAndParseJSON responseWithObjectOption
        = VArray [first; candidateWithObjectOption]
        /\ exists cq,
             normalizeQuestion first 0 (js "battle") 1700000000000
             = Normal (Some cq))
  /\ generateQuestions (js "battle") (fun _ => 1700000000000%N)
       (Normal responseWithObjectOption)
     = [].
Proof.
  repeat (split; [reflexivity|]).
  split; [|reflexivity].
  eexists. split; [reflexivity|]. eexists. reflexivity.
Qed.

(** C7: an index that lies outside the range and is not clamped into
    it.  With two options the range is from 0 to 1; the index one and a
    half is neither below 0 nor at or above 2, so both tests of the
    clamp let it through and it is the [correctIndex] of the question.
    The same index as a string is cut to 1 by [parseInt]. *)
Theorem correctIndex_fraction_kept :
  (exists cq,
     normalizeQuestion candidateWithFraction 0 (js "battle") 1700000000000
     = Normal (Some cq)
     /\ options cq = [js "A"; js "B"]
     /\ correctIndex cq = Finite (3 # 2)
     /\ ltb (ofZ (Z.of_nat (length (options cq)) - 1)) (correctIndex cq)
        = true)
  /\ (exists cq r,
        generateQuestions (js "battle") (fun _ => 1700000000000%N)
          (Normal responseWithFraction)
        = [cq]
        /\ correctIndex cq = Finite r /\ (r == 3 # 2)%Q)
  /\ (exists cq,
        normalizeQuestion candidateWithFractionString 0 (js "battle")
          1700000000000
        = Normal (Some cq)
        /\ correctIndex cq = ofZ 1).
Proof.
  split; [|split].
  - eexists. split; [reflexivity|]. repeat split.
  - eexists. eexists. split; [vm_compute; reflexivity|].
    split; reflexivity.
  - eexists. split; reflexivity.
Qed.

Lemma normalizeQuestion_unconvertible_throws_witness :
  wellFormed candidateWithObjectOption = false
  /\ normalizeQuestion candidateWithObjectOption 0 (js "battle")
       1700000000000
     = Throw TypeError.
Proof.
  split; [reflexivity|].
  apply (@normalizeQuestion_unconvertible_throws _ candidateWithObjectOption
           0 (js "battle") 1700000000000%N
           [VString (js "A"); VObject [(js "toString", VNumber (ofZ 1))]]);
    reflexivity.
Defined.

Lemma normalizeQuestion_fallback_keys_witness :
  questionTextOf candidateWithAliases = VString (js "Q")
  /\ optionsListOf candidateWithAliases
     = VArray [VString (js "A"); VString (js "B")]
  /\ exists cq,
       normalizeQuestion candidateWithAliases 0 (js "battle") 1700000000000
       = Normal (Some cq)
       /\ processText (VString (js "Q")) = Normal (text cq)
       /\ length (options cq) = 2.
Proof.
  apply (@normalizeQuestion_fallback_keys _ candidateWithAliases 0
           (js "battle") 1700000000000%N (js "Q")
           [VString (js "A"); VString (js "B")]);
    try reflexivity.
  discriminate.
Defined.

Lemma normalizeQuestion_valid_witness :
  exists cq,
    normalizeQuestion specCandidate 0 (js "battle") 1700000000000
    = Normal (Some cq)
    /\ length (options cq) = 2
    /\ exists r, correctIndex cq = Finite r
                 /\ (0 <= r)%Q
                 /\ (r < inject_Z (Z.of_nat (length (options cq))))%Q.
Proof.
  apply (@normalizeQuestion_valid _ specCandidate 0 (js "battle")
           1700000000000%N [VString (js "A"); VString (js "B")]);
    reflexivity.
Defined.

Lemma normalizeQuestion_rejects_witness :
  normalizeQuestion
    (VObject [(js "question", VString (js "Q"));
              (js "options", VArray [VString (js "A")])])
    0 (js "battle") 1700000000000
  = Normal None.
Proof.
  apply normalizeQuestion_rejects; [reflexivity|].
  right. right. simpl. lia.
Defined.

Lemma correctIndex_clamped_witness :
  exists cq,
    normalizeQuestion specCandidate 0 (js "battle") 1700000000000
    = Normal (Some cq)
    /\ correctIndex cq = ofZ 1.
Proof.
  eexists. split; [reflexivity|].
  destruct (@correctIndex_clamped examplePlatform) as [Hclamp _].
  destruct (Hclamp specCandidate 0 (js "battle") 1700000000000%N _ eq_refl)
    as (_ & _ & Habove).
  apply Habove. reflexivity.
Defined.

Lemma correctIndex_from_string_witness :
  exists cq,
    normalizeQuestion candidateWithStringIndex 0 (js "battle") 1700000000000
    = Normal (Some cq)
    /\ resolveIndex candidateWithStringIndex = ofZ 2
    /\ correctIndex cq = ofZ 2.
Proof.
  eexists. split; [reflexivity|].
  destruct (@correctIndex_from_string examplePlatform) as [Hstring _].
  destruct (Hstring candidateWithStringIndex 0 (js "battle")
              1700000000000%N _ (js "2") eq_refl eq_refl) as [Hsome _].
  destruct (Hsome 2%Z eq_refl) as [Hr Hc].
  split; [exact Hr | exact Hc].
Defined.

Lemma ids_distinct_in_batch_witness :
  exists c1 c2,
    normalizeQuestion specCandidate 0 (js "battle") 1700000000000
    = Normal (Some c1)
    /\ normalizeQuestion candidateWithStringIndex 1 (js "battle")
         1700000000000
       = Normal (Some c2)
    /\ id c1 <> id c2.
Proof.
  eexists. eexists. split; [reflexivity|]. split; [reflexivity|].
  destruct (@ids_distinct_in_batch examplePlatform) as [Hpair _].
  apply (Hpair specCandidate candidateWithStringIndex 0 1 (js "battle")
           1700000000000%N 1700000000000%N);
    [discriminate | reflexivity | reflexivity].
Defined.

(** Were the backslashes of the specification's literal code units of
    the response, the candidate between the brackets would not parse
    and the batch would be empty. *)
Remark specResponseVerbatim_empty (prefix : jsstring) (clock : nat -> N) :
  generateQuestions prefix clock (Normal specResponseVerbatim) = [].
Proof. reflexivity. Qed.

(** * Further properties *)

(** ** Scans that relate the text and the result *)

Section ScanRelated.
Variable p : pattern.
Variable R : jsstring -> jsstring -> Prop.
Hypothesis R_nil : R [] [].
Hypothesis R_cons : forall c s t, R s t -> R (c :: s) (c :: t).
Hypothesis R_app : forall a a' b b', R a a' -> R b b' -> R (a ++ b) (a' ++ b').
Hypothesis R_match : forall b t repl n,
  p b t = Some (repl, n) -> n <= length t /\ R (firstn n t) repl.

(** A relation that holds between each match and its replacement, and
    goes through concatenation, holds between the text and the
    result. *)
Lemma scan_related (s : jsstring) : forall b, R s (scan p b 0 s).
Proof.
  assert (G : forall n s, length s <= n -> forall b, R s (scan p b 0 s)).
  { induction n as [|n IH]; intros [|c t] Hn b; simpl in Hn; try lia.
    - simpl. destruct (p b []) as [[repl k]|] eqn:E; [|exact R_nil].
      destruct (R_match E) as [Hk Hr]. simpl in Hk.
      replace k with 0 in Hr by lia. exact Hr.
    - simpl. destruct (p b []) as [[repl k]|] eqn:E; [|exact R_nil].
      destruct (R_match E) as [Hk Hr]. simpl in Hk.
      replace k with 0 in Hr by lia. exact Hr.
    - cbn [scan]. destruct (p b (c :: t)) as [[repl [|k]]|] eqn:E.
      + destruct (R_match E) as [_ Hr]. simpl in Hr.
        apply (@R_app [] repl (c :: t)); [exact Hr|].
        apply R_cons, IH. lia.
      + destruct (R_match E) as [Hk Hr]. simpl in Hk.
        rewrite <- (firstn_skipn (S k) (c :: t)).
        apply R_app; [exact Hr|].
        destruct k as [|k].
        * simpl. apply IH. lia.
        * rewrite scan_skip by lia.
          change (skipn (S (S k)) (c :: t)) with (skipn (S k) t).
          apply IH. rewrite length_skipn. lia.
      + apply R_cons, IH. lia. }
  intros b. apply (G (length s)). lia.
Qed.

End ScanRelated.

(** ** [repairMalformedLatex] only inserts *)

Lemma subsequence_nil_l (t : jsstring) : subsequence [] t.
Proof.
  induction t; [apply subsequence_nil | apply subsequence_skip; assumption].
Qed.

Lemma subsequence_refl (s : jsstring) : subsequence s s.
Proof.
  induction s; [apply subsequence_nil | apply subsequence_keep; assumption].
Qed.

Lemma subsequence_app (a a' b b' : jsstring) :
  subsequence a a' -> subsequence b b' -> subsequence (a ++ b) (a' ++ b').
Proof.
  intros Ha Hb. induction Ha; simpl.
  - exact Hb.
  - apply subsequence_skip. assumption.
  - apply subsequence_keep. assumption.
Qed.

Lemma subsequence_trans (s t u : jsstring) :
  subsequence s t -> subsequence t u -> subsequence s u.
Proof.
  intros Hst Htu. revert s Hst.
  induction Htu as [|c t u Htu IH|c t u Htu IH]; intros s Hst.
  - exact Hst.
  - apply subsequence_skip. apply IH. exact Hst.
  - inversion Hst; subst.
    + apply subsequence_skip. apply IH. assumption.
    + apply subsequence_keep. apply IH. assumption.
Qed.

Lemma subsequence_length (s t : jsstring) :
  subsequence s t -> length s <= length t.
Proof. induction 1; simpl; lia. Qed.

Lemma isSubsequence_sound (s t : jsstring) :
  isSubsequence s t = true -> subsequence s t.
Proof.
  revert s. induction t as [|b t IH]; intros [|a s] E; simpl in E;
    try discriminate; try apply subsequence_nil_l.
  destruct (N.eqb_spec a b).
  - subst. apply subsequence_keep. apply IH. exact E.
  - apply subsequence_skip. apply IH. exact E.
Qed.

Lemma firstn_exact {A} (a b : list A) : firstn (length a) (a ++ b) = a.
Proof.
  rewrite firstn_app, firstn_all, Nat.sub_diag, firstn_O, app_nil_r.
  reflexivity.
Qed.

Lemma wordEnd_app (tok t g2 : jsstring) (n : nat) :
  wordEnd tok t = Some (g2, n) ->
  n = length (tok ++ g2) /\ exists rest, t = (tok ++ g2) ++ rest.
Proof.
  unfold wordEnd. destruct (stripPrefix tok t) as [[|d r]|] eqn:E;
    try discriminate; apply stripPrefix_app in E; subst.
  - intros H. injection H as <- <-. rewrite app_nil_r.
    split; [reflexivity | exists []; rewrite app_nil_r; reflexivity].
  - destruct (isSpace d); [|discriminate].
    intros H. injection H as <- <-. rewrite length_app. simpl.
    split; [lia | exists r; rewrite <- app_assoc; reflexivity].
Qed.

(** What the patterns of [repairMalformedLatex] put in place of a match
    holds the match. *)
Lemma afterBoundary_inserts (tok repl : jsstring) :
  subsequence tok repl ->
  forall b t r n, afterBoundary tok repl b t = Some (r, n) ->
  n <= length t /\ subsequence (firstn n t) r.
Proof.
  intros Hsub b t r n. unfold afterBoundary, orElse.
  assert (Hstart : (if b then match stripPrefix tok t with
                              | Some _ => Some (repl, length tok)
                              | None => None
                              end else None) = Some (r, n) ->
                   n <= length t /\ subsequence (firstn n t) r).
  { destruct b; [|discriminate].
    destruct (stripPrefix tok t) as [rest|] eqn:E; [|discriminate].
    apply stripPrefix_app in E. subst.
    intros H. injection H as <- <-. rewrite firstn_exact, length_app.
    split; [lia | exact Hsub]. }
  destruct t as [|c t']; [exact Hstart|].
  destruct (isSpace c); [|exact Hstart].
  destruct (stripPrefix tok t') as [rest|] eqn:E; [|exact Hstart].
  apply stripPrefix_app in E. subst.
  intros H. injection H as <- <-.
  change (firstn (S (length tok)) (c :: tok ++ rest))
    with (c :: firstn (length tok) (tok ++ rest)).
  rewrite firstn_exact. simpl. rewrite length_app.
  split; [lia | apply subsequence_keep; exact Hsub].
Qed.

Lemma standalone_inserts (tok repl : jsstring) :
  subsequence tok repl ->
  forall b t r n, standalone tok repl b t = Some (r, n) ->
  n <= length t /\ subsequence (firstn n t) r.
Proof.
  intros Hsub b t r n. unfold standalone, orElse.
  assert (Hword : forall u g2 m, wordEnd tok u = Some (g2, m) ->
            m <= length u /\ subsequence (firstn m u) (repl ++ g2)).
  { intros u g2 m E. apply wordEnd_app in E.
    destruct E as [-> [rest ->]]. rewrite firstn_exact, !length_app.
    split; [lia|]. apply subsequence_app; [exact Hsub|].
    apply subsequence_refl. }
  assert (Hstart : (if b then match wordEnd tok t with
                              | Some (g2, m) => Some (repl ++ g2, m)
                              | None => None
                              end else None) = Some (r, n) ->
                   n <= length t /\ subsequence (firstn n t) r).
  { destruct b; [|discriminate].
    destruct (wordEnd tok t) as [[g2 m]|] eqn:E; [|discriminate].
    intros H. injection H as <- <-. exact (Hword _ _ _ E). }
  destruct t as [|c t']; [exact Hstart|].
  destruct (isSpace c); [|exact Hstart].
  destruct (wordEnd tok t') as [[g2 m]|] eqn:E; [|exact Hstart].
  intros H. injection H as <- <-.
  destruct (Hword _ _ _ E) as [Hm Hs].
  change (firstn (S m) (c :: t')) with (c :: firstn m t').
  simpl. split; [lia | apply subsequence_keep; exact Hs].
Qed.

Lemma dollarSpan_inserts (b : bool) (t r : jsstring) (n : nat) :
  dollarSpan b t = Some (r, n) ->
  n <= length t /\ subsequence (firstn n t) r.
Proof.
  intros E. pose proof (dollarSpan_harmless b t) as Hh.
  rewrite E in Hh. simpl in Hh. destruct Hh as [Hn ->].
  split; [lia | apply subsequence_refl].
Qed.

(** X1: [repairMalformedLatex] only inserts: the text it is given can
    be read in its result, every unit in its place among the others. *)
Theorem repairMalformedLatex_only_inserts (s : jsstring) :
  subsequence s (repairMalformedLatex s)
  /\ length s <= length (repairMalformedLatex s).
Proof.
  assert (H : subsequence s (repairMalformedLatex s)).
  { unfold repairMalformedLatex.
    destruct s as [|c s']; [apply subsequence_nil|].
    set (y := c :: s').
    assert (Hrule : forall p t,
              (forall b u r n, p b u = Some (r, n) ->
                 n <= length u /\ subsequence (firstn n u) r) ->
              subsequence y t -> subsequence y (replaceAll p t)).
    { intros p t Hp Ht. apply (subsequence_trans Ht).
      unfold replaceAll.
      apply (@scan_related p subsequence);
        auto using subsequence_nil, subsequence_keep, subsequence_app. }
    repeat
      (apply Hrule;
       [ first [ apply afterBoundary_inserts | apply standalone_inserts
               | apply dollarSpan_inserts ];
         apply isSubsequence_sound; reflexivity
       | ]).
    apply subsequence_refl. }
  split; [exact H | apply subsequence_length, H].
Qed.

(** ** The texts that [repairMalformedLatex] changes *)

Section ScanGrows.
Variable p : pattern.
Hypothesis grows : growing p.

Lemma scan_grows (s : jsstring) : forall b,
  length s <= length (scan p b 0 s)
  /\ (matchesSomewhere p b s = true -> length s < length (scan p b 0 s)).
Proof.
  assert (Hnil : forall b,
            length (@nil char16) <= length (scan p b 0 [])
            /\ (matchesSomewhere p b [] = true ->
                length (@nil char16) < length (scan p b 0 []))).
  { intros b. simpl. destruct (p b []) as [[repl k]|] eqn:E.
    - destruct (grows E) as (Hk & Hr & _). simpl in Hk. lia.
    - split; [lia|discriminate]. }
  assert (G : forall n s, length s <= n -> forall b,
            length s <= length (scan p b 0 s)
            /\ (matchesSomewhere p b s = true ->
                length s < length (scan p b 0 s))).
  { induction n as [|n IH]; intros [|c t] Hn b; simpl in Hn; try lia;
      try apply Hnil.
    cbn [scan matchesSomewhere].
    destruct (p b (c :: t)) as [[repl [|k]]|] eqn:E.
    - destruct (grows E) as (_ & Hr & _).
      destruct (IH t ltac:(lia) false) as [Hle _].
      rewrite length_app. simpl. lia.
    - destruct (grows E) as (Hk & Hr & _). simpl in Hk.
      rewrite length_app.
      destruct k as [|k].
      + destruct (IH t ltac:(lia) false) as [Hle _]. cbn [length]. lia.
      + rewrite scan_skip by lia.
        destruct (IH (skipn (S k) t)
                    ltac:(rewrite length_skipn; lia) false) as [Hle _].
        rewrite length_skipn in Hle. cbn [length]. lia.
    - destruct (IH t ltac:(lia) false) as [Hle Hlt].
      simpl. split; [lia|]. intros Hm. apply Hlt in Hm. lia. }
  intros b. apply (G (length s)). lia.
Qed.

Lemma replaceAll_inserts (s : jsstring) : subsequence s (replaceAll p s).
Proof.
  unfold replaceAll. apply (@scan_related p subsequence);
    auto using subsequence_nil, subsequence_keep, subsequence_app.
  intros b t repl n E. destruct (grows E) as (Hn & _ & Hs). auto.
Qed.

End ScanGrows.

Lemma subsequence_same_length (s t : jsstring) :
  subsequence s t -> length s = length t -> s = t.
Proof.
  induction 1 as [|c s t Hst IH|c s t Hst IH]; intros Hl.
  - reflexivity.
  - apply subsequence_length in Hst. simpl in Hl. lia.
  - simpl in Hl. f_equal. apply IH. lia.
Qed.

Lemma rules_insert (ps : list pattern) :
  Forall growing ps ->
  forall s, subsequence s (fold_left (fun t p => replaceAll p t) ps s).
Proof.
  induction 1 as [|p ps Hp Hps IH]; intros s; simpl.
  - apply subsequence_refl.
  - eapply subsequence_trans; [apply replaceAll_inserts; exact Hp|apply IH].
Qed.

Lemma rules_grow (ps : list pattern) :
  Forall growing ps ->
  forall p s, In p ps -> matchesSomewhere p true s = true ->
  length s < length (fold_left (fun t p => replaceAll p t) ps s).
Proof.
  induction 1 as [|q ps Hq Hps IH]; intros p s Hin Hm; [destruct Hin|].
  simpl.
  pose proof (rules_insert Hps (replaceAll q s)) as Hrest.
  apply subsequence_length in Hrest.
  pose proof (replaceAll_inserts Hq s) as Hhead.
  destruct Hin as [->|Hin].
  - destruct (scan_grows Hq s true) as [_ Hlt].
    unfold replaceAll in *. specialize (Hlt Hm). lia.
  - pose proof (subsequence_length Hhead) as Hle.
    destruct (Nat.eq_dec (length s) (length (replaceAll q s))) as [E|Hne];
      [|lia].
    apply (subsequence_same_length Hhead) in E. rewrite <- E.
    exact (IH _ _ Hin Hm).
Qed.

Lemma afterBoundary_growing (tok repl : jsstring) :
  subsequence tok repl -> length tok < length repl ->
  growing (afterBoundary tok repl).
Proof.
  intros Hsub Hlen b t r n E.
  destruct (afterBoundary_inserts Hsub _ _ E) as [Hn Hs].
  split; [exact Hn|]. split; [|exact Hs].
  unfold afterBoundary, orElse in E.
  destruct t as [|c t'].
  - destruct b; [|discriminate].
    destruct (stripPrefix tok []); [|discriminate].
    injection E as <- <-. exact Hlen.
  - destruct (isSpace c).
    + destruct (stripPrefix tok t').
      * injection E as <- <-. simpl. lia.
      * destruct b; [|discriminate].
        destruct (stripPrefix tok (c :: t')); [|discriminate].
        injection E as <- <-. exact Hlen.
    + destruct b; [|discriminate].
      destruct (stripPrefix tok (c :: t')); [|discriminate].
      injection E as <- <-. exact Hlen.
Qed.

Lemma standalone_growing (tok repl : jsstring) :
  subsequence tok repl -> length tok < length repl ->
  growing (standalone tok repl).
Proof.
  intros Hsub Hlen b t r n E.
  destruct (standalone_inserts Hsub _ _ E) as [Hn Hs].
  split; [exact Hn|]. split; [|exact Hs].
  assert (Hword : forall u g2 m, wordEnd tok u = Some (g2, m) ->
                                 m < length (repl ++ g2)).
  { intros u g2 m Hw. apply wordEnd_app in Hw. destruct Hw as [-> _].
    rewrite !length_app. lia. }
  unfold standalone, orElse in E.
  assert (Hstart : (if b then match wordEnd tok t with
                              | Some (g2, n) => Some (repl ++ g2, n)
                              | None => None
                              end
                    else None) = Some (r, n) -> n < length r).
  { destruct b; [|discriminate].
    destruct (wordEnd tok t) as [[g2 m]|] eqn:Ew; [|discriminate].
    intros [= <- <-]. exact (Hword _ _ _ Ew). }
  destruct t as [|c t']; [exact (Hstart E)|].
  destruct (isSpace c); [|exact (Hstart E)].
  destruct (wordEnd tok t') as [[g2 m]|] eqn:Ew; [|exact (Hstart E)].
  injection E as <- <-. apply Hword in Ew. simpl. lia.
Qed.

Lemma repairRules_growing : Forall growing repairRules.
Proof.
  unfold repairRules.
  repeat (constructor;
          [first [apply afterBoundary_growing | apply standalone_growing];
           [apply isSubsequence_sound; reflexivity | simpl; lia]|]).
  constructor.
Qed.

Lemma repairMalformedLatex_rules (s : jsstring) :
  repairMalformedLatex s
  = match s with
    | [] => []
    | _ => replaceAll dollarSpan
             (fold_left (fun t p => replaceAll p t) repairRules s)
    end.
Proof. destruct s; reflexivity. Qed.

Lemma matchesSomewhere_here (p : pattern) (b : bool) (t : jsstring) :
  p b t <> None -> matchesSomewhere p b t = true.
Proof.
  intros Hp. destruct t; simpl; destruct (p b _); congruence.
Qed.

Lemma matchesSomewhere_later (p : pattern) (b : bool) (c : char16)
  (t : jsstring) :
  matchesSomewhere p false t = true -> matchesSomewhere p b (c :: t) = true.
Proof.
  intros Hm. simpl. destruct (p b (c :: t)); [reflexivity|exact Hm].
Qed.

Lemma afterBoundary_token (tok repl t : jsstring) :
  stripPrefix tok t <> None ->
  afterBoundary tok repl true t <> None
  /\ forall c b, isSpace c = true -> afterBoundary tok repl b (c :: t) <> None.
Proof.
  intros Ht. destruct (stripPrefix tok t) as [rest|] eqn:E; [|congruence].
  split.
  - unfold afterBoundary, orElse. rewrite E.
    destruct t as [|c t']; [discriminate|].
    destruct (isSpace c); [|discriminate].
    destruct (stripPrefix tok t'); discriminate.
  - intros c b Hc. unfold afterBoundary, orElse. rewrite Hc, E.
    discriminate.
Qed.

Lemma standalone_token (tok repl t : jsstring) :
  wordEnd tok t <> None ->
  standalone tok repl true t <> None
  /\ forall c b, isSpace c = true -> standalone tok repl b (c :: t) <> None.
Proof.
  intros Ht. destruct (wordEnd tok t) as [[g2 n]|] eqn:E; [|congruence].
  split.
  - unfold standalone, orElse. rewrite E.
    destruct t as [|c t']; [discriminate|].
    destruct (isSpace c); [|discriminate].
    destruct (wordEnd tok t') as [[? ?]|]; discriminate.
  - intros c b Hc. unfold standalone, orElse. rewrite Hc, E.
    discriminate.
Qed.

Lemma startsToken_rule (t : jsstring) :
  startsToken t = true ->
  exists p, In p repairRules
            /\ p true t <> None
            /\ forall c b, isSpace c = true -> p b (c :: t) <> None.
Proof.
  unfold startsToken, repairRules. intros Ht.
  destruct (stripPrefix (js "ext{") t) eqn:E1;
    [eexists; split; [left; reflexivity|];
     apply afterBoundary_token; congruence|].
  destruct (stripPrefix (js "frac{") t) eqn:E2;
    [eexists; split; [right; left; reflexivity|];
     apply afterBoundary_token; congruence|].
  destruct (stripPrefix (js "sqrt{") t) eqn:E3;
    [eexists; split; [do 2 right; left; reflexivity|];
     apply afterBoundary_token; congruence|].
  destruct (wordEnd (js "times") t) eqn:E4;
    [eexists; split; [do 3 right; left; reflexivity|];
     apply standalone_token; congruence|].
  destruct (wordEnd (js "mu") t) eqn:E5;
    [eexists; split; [do 4 right; left; reflexivity|];
     apply standalone_token; congruence|].
  destruct (wordEnd (js "pi") t) eqn:E6;
    [eexists; split; [do 5 right; left; reflexivity|];
     apply standalone_token; congruence|].
  destruct (wordEnd (js "theta") t) eqn:E7;
    [eexists; split; [do 6 right; left; reflexivity|];
     apply standalone_token; congruence|].
  discriminate.
Qed.

Lemma settledFrom_true_false (t : jsstring) :
  settledFrom true t = false ->
  startsToken t = true \/ settledFrom false t = false.
Proof.
  destruct t as [|c t]; simpl; [discriminate|].
  destruct (startsToken (c :: t)); simpl; auto.
Qed.

Lemma unsettled_matches (t : jsstring) : forall b a,
  settledFrom b t = false -> (b = true -> a = true) ->
  exists p, In p repairRules /\ matchesSomewhere p a t = true.
Proof.
  induction t as [|c t IH]; intros b a Hs Hb; [discriminate|].
  assert (Hrest : settledFrom (isSpace c) t = false ->
                  exists p, In p repairRules
                            /\ matchesSomewhere p a (c :: t) = true).
  { intros Hr. destruct (isSpace c) eqn:Ec.
    - apply settledFrom_true_false in Hr. destruct Hr as [Htok|Hr].
      + destruct (startsToken_rule _ Htok) as (p & Hin & _ & Hp).
        exists p. split; [exact Hin|].
        apply matchesSomewhere_here. apply Hp. exact Ec.
      + destruct (IH false false Hr ltac:(discriminate)) as (p & Hin & Hm).
        exists p. split; [exact Hin|].
        apply matchesSomewhere_later. exact Hm.
    - destruct (IH false false Hr ltac:(discriminate)) as (p & Hin & Hm).
      exists p. split; [exact Hin|].
      apply matchesSomewhere_later. exact Hm. }
  cbn [settledFrom] in Hs. apply andb_false_iff in Hs.
  destruct Hs as [Hs|Hs]; [|exact (Hrest Hs)].
  destruct b; [|discriminate]. rewrite (Hb eq_refl).
  apply negb_false_iff in Hs.
  destruct (startsToken_rule _ Hs) as (p & Hin & Hp & _).
  exists p. split; [exact Hin|]. apply matchesSomewhere_here. exact Hp.
Qed.

(** X2: [repairMalformedLatex] leaves a text as it is exactly when no
    command or word that it looks for starts at the first unit of the
    text or after a whitespace unit of it. *)
Theorem repairMalformedLatex_changes_unsettled (s : jsstring) :
  repairMalformedLatex s = s <-> settled s = true.
Proof.
  split; [|apply repairMalformedLatex_settled].
  intros Hfix. destruct (settled s) eqn:Hs; [reflexivity|]. exfalso.
  destruct (@unsettled_matches s true true Hs (fun _ => eq_refl))
    as (p & Hin & Hm).
  pose proof (rules_grow repairRules_growing _ _ Hin Hm) as Hlt.
  rewrite repairMalformedLatex_rules in Hfix.
  destruct s as [|c s']; [discriminate Hs|].
  assert (Hd : subsequence
                 (fold_left (fun t p => replaceAll p t) repairRules
                    (c :: s'))
                 (replaceAll dollarSpan
                    (fold_left (fun t p => replaceAll p t) repairRules
                       (c :: s')))).
  { unfold replaceAll. apply (@scan_related dollarSpan subsequence);
      auto using subsequence_nil, subsequence_keep, subsequence_app.
    intros b t repl n E. exact (dollarSpan_inserts _ _ E). }
  apply subsequence_length in Hd. rewrite Hfix in Hd. lia.
Qed.

(** ** What [latexToSimple] returns *)

Lemma tidy_app_r (a b : jsstring) : tidy (a ++ b) -> tidy b.
Proof.
  induction a as [|c a IH]; simpl; [auto|]. intros [_ H]. auto.
Qed.

Lemma dropTrailingSpaces_length (s : jsstring) :
  length (dropTrailingSpaces s) <= length s.
Proof.
  induction s as [|c s IH]; simpl; [lia|].
  destruct (dropTrailingSpaces s); [destruct (isSpace c)|]; simpl in *; lia.
Qed.

Lemma dropTrailingSpaces_last (pre : jsstring) (c : char16) :
  isSpace c = true ->
  dropTrailingSpaces (pre ++ [c]) = dropTrailingSpaces pre.
Proof.
  intros Hc. induction pre as [|a pre IH]; simpl.
  - rewrite Hc. reflexivity.
  - rewrite IH. reflexivity.
Qed.

Lemma dropSpaces_length (s : jsstring) : length (dropSpaces s) <= length s.
Proof.
  induction s as [|c s IH]; simpl; [lia|].
  destruct (isSpace c); simpl; lia.
Qed.

Lemma trim_length (s : jsstring) : length (trim s) <= length s.
Proof.
  unfold trim. pose proof (dropTrailingSpaces_length (dropSpaces s)).
  pose proof (dropSpaces_length s). lia.
Qed.

(** The shape of a result of [latexToSimple]. *)
Lemma latexToSimple_shape (x : jsstring) :
  tidy (latexToSimple x)
  /\ spaceRun (latexToSimple x) = 0
  /\ dropTrailingSpaces (latexToSimple x) = latexToSimple x.
Proof.
  unfold latexToSimple. destruct x as [|c x']; [simpl; auto|].
  unfold replaceAll at 1, trim.
  rewrite (proj1 (scan_spaces _ true)).
  split; [|split].
  - apply dropTrailingSpaces_tidy, dropSpaces_tidy, collapse_tidy.
  - apply dropTrailingSpaces_head, dropSpaces_head.
  - apply dropTrailingSpaces_idem.
Qed.

Lemma latexToSimple_clean (x : jsstring) : clean (latexToSimple x).
Proof.
  destruct (latexToSimple_shape x) as (Ht & Hh & He).
  split; [apply latexToSimple_dollarFree | split; [exact Ht|]].
  unfold trim. rewrite (dropSpaces_id _ Hh). exact He.
Qed.

(** X3: in a result of [latexToSimple] no unit is a dollar sign, and
    each whitespace unit is a plain space that stands between two units
    that are not whitespace: none at either end, no two in a row, no
    tab or line break. *)
Theorem latexToSimple_result_units (x pre post : jsstring) (c : char16) :
  latexToSimple x = pre ++ c :: post ->
  c <> dollar
  /\ (isSpace c = true ->
      c = 32%N
      /\ (exists pre' a, pre = pre' ++ [a] /\ isSpace a = false)
      /\ (exists b post', post = b :: post' /\ isSpace b = false)).
Proof.
  intros E.
  destruct (latexToSimple_shape x) as (Ht & Hh & He).
  pose proof (latexToSimple_dollarFree x) as Hd.
  rewrite E in *. split.
  - apply Forall_app in Hd. destruct Hd as [_ Hd]. inversion Hd. assumption.
  - intros Hc.
    pose proof (tidy_app_r _ _ Ht) as Hc'. simpl in Hc'.
    destruct Hc' as [Hc' _]. destruct (Hc' Hc) as [Ec Hnext].
    split; [exact Ec|]. split.
    + destruct (exists_last (l := pre)) as (pre' & a & ->).
      { intros ->. simpl in Hh. rewrite Hc in Hh. discriminate. }
      exists pre', a. split; [reflexivity|].
      rewrite <- app_assoc in Ht. apply tidy_app_r in Ht. simpl in Ht.
      destruct Ht as [Ha _]. destruct (isSpace a) eqn:Ea; [|reflexivity].
      destruct (Ha eq_refl) as [_ Hrun]. simpl in Hrun.
      rewrite Hc in Hrun. discriminate.
    + destruct post as [|b post'].
      * exfalso. rewrite (dropTrailingSpaces_last _ _ Hc) in He.
        pose proof (dropTrailingSpaces_length pre) as Hl.
        rewrite He, length_app in Hl. simpl in Hl. lia.
      * exists b, post'. split; [reflexivity|].
        simpl in Hnext. destruct (isSpace b); [discriminate | reflexivity].
Qed.

Lemma latexToSimple_result_units_witness :
  let x := js "  $F$ =" ++ [9%N] ++ js "m  \times a " in
  latexToSimple x = js "F = m" ++ 32%N :: 215%N :: js " a"
  /\ 32%N <> dollar
  /\ (isSpace 32%N = true ->
      32%N = 32%N
      /\ (exists pre' a, js "F = m" = pre' ++ [a] /\ isSpace a = false)
      /\ (exists b post', 215%N :: js " a" = b :: post'
                          /\ isSpace b = false)).
Proof.
  intros x. split; [reflexivity|].
  apply (@latexToSimple_result_units x (js "F = m") (215%N :: js " a") 32%N).
  reflexivity.
Defined.

(** ** [latexToSimple] never lengthens *)

Lemma literal_shrinks (lit repl : jsstring) :
  length repl <= length lit ->
  forall b t r n, literal lit repl b t = Some (r, n) ->
  n <= length t /\ length r <= length (firstn n t).
Proof.
  intros Hl b t r n. unfold literal.
  destruct (stripPrefix lit t) as [rest|] eqn:E; [|discriminate].
  apply stripPrefix_app in E. subst.
  intros H. injection H as <- <-. rewrite firstn_exact, length_app.
  split; lia.
Qed.

Lemma braced_shrinks (open keep : jsstring) :
  length keep <= length open ->
  forall b t r n, braced open keep b t = Some (r, n) ->
  n <= length t /\ length r <= length (firstn n t).
Proof.
  intros Hl b t r n. unfold braced.
  destruct (stripPrefix open t) as [rest|] eqn:E1; [|discriminate].
  destruct (breakAt rbrace rest) as [[inner after]|] eqn:E2; [|discriminate].
  apply stripPrefix_app in E1. apply breakAt_app in E2. subst.
  intros H. injection H as <- <-.
  rewrite length_firstn. repeat (rewrite length_app; simpl).
  split; lia.
Qed.

Lemma script_shrinks (c : char16) :
  forall b t r n, script c b t = Some (r, n) ->
  n <= length t /\ length r <= length (firstn n t).
Proof.
  intros b t r n. unfold script.
  destruct t as [|a [|d t]]; try discriminate.
  destruct (N.eqb a c && isAlnum d)%bool; [|discriminate].
  intros H. injection H as <- <-. simpl. split; lia.
Qed.

Lemma spaceRun_length (s : jsstring) : spaceRun s <= length s.
Proof.
  induction s as [|c s IH]; simpl; [lia|].
  destruct (isSpace c); lia.
Qed.

Lemma spaces_shrinks (repl : jsstring) :
  length repl <= 1 ->
  forall b t r n, spaces repl b t = Some (r, n) ->
  n <= length t /\ length r <= length (firstn n t).
Proof.
  intros Hl b t r n. unfold spaces.
  pose proof (spaceRun_length t) as Hrun.
  destruct (spaceRun t) as [|k]; [discriminate|].
  intros H. injection H as <- <-. rewrite length_firstn. split; lia.
Qed.

(** X4: [latexToSimple] never lengthens a text. *)
Theorem latexToSimple_never_lengthens (x : jsstring) :
  length (latexToSimple x) <= length x.
Proof.
  unfold latexToSimple. destruct x as [|c x']; [simpl; lia|].
  set (y := c :: x').
  eapply Nat.le_trans; [apply trim_length|].
  assert (Hrule : forall p t,
            (forall b u r n, p b u = Some (r, n) ->
               n <= length u /\ length r <= length (firstn n u)) ->
            length t <= length y -> length (replaceAll p t) <= length y).
  { intros p t Hp Ht. eapply Nat.le_trans; [|exact Ht]. unfold replaceAll.
    apply (@scan_related p (fun s r => length r <= length s)); auto.
    - intros; simpl; lia.
    - intros; rewrite !length_app; lia. }
  repeat
    (apply Hrule;
     [ first [ apply spaces_shrinks | apply script_shrinks
             | apply braced_shrinks | apply literal_shrinks ];
       simpl; lia
     | ]).
  lia.
Qed.

(** ** When [latexToSimple] is idempotent *)

Section ScanShrinks.
Variable p : pattern.
Hypothesis shrinks : shrinking p.

Lemma scan_shrinks (s : jsstring) : forall b,
  length (scan p b 0 s) <= length s
  /\ (matchesSomewhere p b s = true -> length (scan p b 0 s) < length s).
Proof.
  assert (Hnil : forall b,
            length (scan p b 0 []) <= length (@nil char16)
            /\ (matchesSomewhere p b [] = true ->
                length (scan p b 0 []) < length (@nil char16))).
  { intros b. simpl. destruct (p b []) as [[repl k]|] eqn:E.
    - destruct (shrinks E) as (Hk & Hr). simpl in Hk. lia.
    - split; [simpl; lia|discriminate]. }
  assert (G : forall n s, length s <= n -> forall b,
            length (scan p b 0 s) <= length s
            /\ (matchesSomewhere p b s = true ->
                length (scan p b 0 s) < length s)).
  { induction n as [|n IH]; intros [|c t] Hn b; simpl in Hn; try lia;
      try apply Hnil.
    cbn [scan matchesSomewhere].
    destruct (p b (c :: t)) as [[repl [|k]]|] eqn:E.
    - destruct (shrinks E) as (_ & Hr). lia.
    - destruct (shrinks E) as (Hk & Hr). simpl in Hk.
      rewrite length_app.
      destruct k as [|k].
      + destruct (IH t ltac:(lia) false) as [Hle _]. cbn [length]. lia.
      + rewrite scan_skip by lia.
        destruct (IH (skipn (S k) t)
                    ltac:(rewrite length_skipn; lia) false) as [Hle _].
        rewrite length_skipn in Hle. cbn [length]. lia.
    - destruct (IH t ltac:(lia) false) as [Hle Hlt].
      cbn [length]. split; [lia|]. intros Hm. apply Hlt in Hm. lia. }
  intros b. apply (G (length s)). lia.
Qed.

End ScanShrinks.

(** A rule that matches nowhere leaves the text as it is. *)
Lemma scan_unmatched (p : pattern) (s : jsstring) : forall b,
  matchesSomewhere p b s = false -> scan p b 0 s = s.
Proof.
  induction s as [|c s IH]; intros b Hm; simpl in Hm |- *.
  - destruct (p b []); [discriminate|reflexivity].
  - destruct (p b (c :: s)); [discriminate|]. f_equal. apply IH. exact Hm.
Qed.

Lemma scan_identity (p : pattern) :
  (forall b t, harmless (p b t) t) ->
  forall s, replaceAll p s = s.
Proof.
  intros Hp s. unfold replaceAll.
  apply (@scan_unchanged p (fun _ => True)); [auto|].
  apply Forall_forall. auto.
Qed.

(** Each statement either shrinks its matches or replaces them by
    themselves; a statement of the first kind that matches somewhere
    makes the text shorter, and no later statement makes up for it. *)
Lemma passes_shrink (ps : list pattern) :
  Forall (fun q => shrinking q \/ forall b t, harmless (q b t) t) ps ->
  forall s,
    length (fold_left (fun t p => replaceAll p t) ps s) <= length s
    /\ forall p, In p ps -> shrinking p ->
                 matchesSomewhere p true s = true ->
                 length (fold_left (fun t p => replaceAll p t) ps s)
                 < length s.
Proof.
  induction 1 as [|q ps Hq Hps IH]; intros s; simpl.
  - split; [lia|]. intros p [].
  - destruct Hq as [Hq|Hq].
    + destruct (@scan_shrinks q Hq s true) as [Hle Hlt].
      fold (replaceAll q s) in Hle, Hlt.
      destruct (IH (replaceAll q s)) as [Hrest _].
      split; [lia|]. intros p Hin Hp Hm.
      destruct (matchesSomewhere q true s) eqn:Eq.
      * specialize (Hlt eq_refl). lia.
      * assert (E : replaceAll q s = s) by (apply scan_unmatched; exact Eq).
        destruct Hin as [->|Hin]; [congruence|].
        rewrite E. destruct (IH s) as [_ Hstrict]. eauto.
    + rewrite (@scan_identity q Hq s).
      destruct (IH s) as [Hrest Hstrict].
      split; [exact Hrest|]. intros p Hin Hp Hm.
      destruct Hin as [->|Hin]; [|eauto].
      exfalso.
      assert (Hsome : forall t b, matchesSomewhere p b t = true -> False).
      { induction t as [|c t IHt]; intros b Ht; simpl in Ht.
        - pose proof (Hq b []) as Hh.
          destruct (p b []) as [[r n]|] eqn:E; [|discriminate].
          destruct (Hp _ _ _ _ E) as [Hn Hr]. simpl in Hh.
          destruct Hh as [_ ->]. rewrite length_firstn in Hr. lia.
        - pose proof (Hq b (c :: t)) as Hh.
          destruct (p b (c :: t)) as [[r n]|] eqn:E; [|eauto].
          destruct (Hp _ _ _ _ E) as [Hn Hr]. simpl in Hh.
          destruct Hh as [_ ->]. rewrite length_firstn in Hr. lia. }
      exact (Hsome _ _ Hm).
Qed.

Lemma literal_shrinking (lit repl : jsstring) :
  length repl < length lit -> shrinking (literal lit repl).
Proof.
  intros Hl b t r n. unfold literal.
  destruct (stripPrefix lit t) as [rest|] eqn:E; [|discriminate].
  apply stripPrefix_app in E. subst.
  intros H. injection H as <- <-. rewrite length_app. split; lia.
Qed.

Lemma braced_shrinking (open keep : jsstring) :
  length keep <= length open -> shrinking (braced open keep).
Proof.
  intros Hl b t r n. unfold braced.
  destruct (stripPrefix open t) as [rest|] eqn:E1; [|discriminate].
  destruct (breakAt rbrace rest) as [[inner after]|] eqn:E2; [|discriminate].
  apply stripPrefix_app in E1. apply breakAt_app in E2. subst.
  intros H. injection H as <- <-.
  repeat (rewrite length_app; simpl). split; lia.
Qed.

Lemma simplifyRules_shrinking : Forall shrinking simplifyRules.
Proof.
  unfold simplifyRules, unwrapRules, symbolRules. simpl.
  repeat (constructor;
          [first [apply braced_shrinking | apply literal_shrinking];
           simpl; lia|]).
  constructor.
Qed.

Lemma simplifyPasses_kinds :
  Forall (fun q => shrinking q \/ forall b t, harmless (q b t) t)
    simplifyPasses.
Proof.
  unfold simplifyPasses, unwrapRules, symbolRules. simpl.
  repeat (constructor;
          [first [ left; apply braced_shrinking; simpl; lia
                 | left; apply literal_shrinking; simpl; lia
                 | right; intros b t; apply script_harmless ]|]).
  constructor.
Qed.

Lemma simplifyRules_passes (p : pattern) :
  In p simplifyRules -> In p simplifyPasses.
Proof.
  unfold simplifyRules, simplifyPasses. rewrite !in_app_iff. tauto.
Qed.

Lemma latexToSimple_passes (y : jsstring) :
  latexToSimple y
  = match y with
    | [] => []
    | _ => normalizeSpaces
             (fold_left (fun t p => replaceAll p t) simplifyPasses y)
    end.
Proof. destruct y; reflexivity. Qed.

Lemma normalizeSpaces_length (s : jsstring) :
  length (normalizeSpaces s) <= length s.
Proof.
  unfold normalizeSpaces. eapply Nat.le_trans; [apply trim_length|].
  unfold replaceAll.
  apply (@scan_related (spaces (js " ")) (fun s r => length r <= length s));
    auto.
  - intros; simpl; lia.
  - intros; rewrite !length_app; lia.
  - apply spaces_shrinks. simpl. lia.
Qed.

Lemma dollar_unmatched (s : jsstring) : forall b,
  Forall dollarFree s -> matchesSomewhere (literal (js "$") []) b s = false.
Proof.
  induction s as [|c s IH]; intros b Hs; [reflexivity|].
  inversion Hs as [|? ? Hc Hs']; subst. cbn [matchesSomewhere].
  unfold literal at 1. change (js "$") with [dollar]. cbn [stripPrefix].
  destruct (N.eqb_spec dollar c) as [E|_];
    [symmetry in E; contradiction|].
  apply IH. exact Hs'.
Qed.

Lemma passes_unchanged (ps : list pattern) (s : jsstring) :
  Forall (fun q => replaceAll q s = s) ps ->
  fold_left (fun t p => replaceAll p t) ps s = s.
Proof.
  induction 1 as [|q ps Hq Hps IH]; simpl; [reflexivity|].
  rewrite Hq. exact IH.
Qed.

(** C2, amended: simplifying a second time changes nothing exactly when
    none of the rules that unwrap a braced group or replace a command
    matches anywhere in the first result. *)
Theorem latexToSimple_idempotent_iff_unmatched (x : jsstring) :
  latexToSimple (latexToSimple x) = latexToSimple x
  <-> Forall (fun p => matchesSomewhere p true (latexToSimple x) = false)
        simplifyRules.
Proof.
  set (y := latexToSimple x).
  assert (Hd : Forall dollarFree y) by apply latexToSimple_dollarFree.
  assert (Hn : normalizeSpaces y = y) by apply latexToSimple_normalized.
  clearbody y. split.
  - intros Hfix. apply Forall_forall. intros p Hin.
    destruct (matchesSomewhere p true y) eqn:Hm; [exfalso|reflexivity].
    pose proof simplifyRules_shrinking as Hsh.
    rewrite Forall_forall in Hsh.
    destruct (@passes_shrink _ simplifyPasses_kinds y) as [_ Hstrict].
    specialize (Hstrict p (@simplifyRules_passes p Hin) (Hsh _ Hin) Hm).
    rewrite latexToSimple_passes in Hfix.
    destruct y as [|c y']; [simpl in Hstrict; lia|].
    pose proof (normalizeSpaces_length
                  (fold_left (fun t p => replaceAll p t) simplifyPasses
                     (c :: y'))) as Hle.
    rewrite Hfix in Hle. lia.
  - intros Hun. rewrite latexToSimple_passes.
    destruct y as [|c y'] eqn:Ey; [reflexivity|]. rewrite <- Ey in *.
    clear Ey.
    rewrite passes_unchanged; [exact Hn|].
    unfold simplifyRules in Hun. apply Forall_app in Hun.
    destruct Hun as [Hunwrap Hsymbol].
    assert (Hrules : forall l,
              Forall (fun p => matchesSomewhere p true y = false) l ->
              Forall (fun q => replaceAll q y = y) l).
    { intros l Hl. eapply Forall_impl; [|exact Hl].
      intros q Hq. apply scan_unmatched. exact Hq. }
    unfold simplifyPasses. repeat (apply Forall_app; split).
    + constructor; [|constructor]. apply scan_unmatched.
      apply dollar_unmatched. exact Hd.
    + apply Hrules. exact Hunwrap.
    + constructor; [|constructor; [|constructor]];
        apply scan_identity; intros b t; apply script_harmless.
    + apply Hrules. exact Hsymbol.
Qed.

Lemma latexToSimple_idempotent_iff_unmatched_witness :
  let x := js "$\frac{a}{b}$ +  \sqrt{2} \alpha " in
  latexToSimple x = js "\frac{a}{b} + \sqrt{2} \alpha"
  /\ latexToSimple (latexToSimple x) = latexToSimple x.
Proof.
  intros x. split; [reflexivity|].
  apply (proj2 (latexToSimple_idempotent_iff_unmatched x)).
  repeat (constructor; [reflexivity|]). constructor.
Defined.

(** ** [latexToSimple] on a text without markup *)

Lemma scan_remove_dollar (s : jsstring) : forall b,
  scan (literal (js "$") []) b 0 s = withoutDollars s.
Proof.
  induction s as [|c s IH]; intros b; [reflexivity|].
  cbn [scan]. unfold literal at 1. change (js "$") with [dollar].
  cbn [stripPrefix Datatypes.length withoutDollars filter].
  rewrite N.eqb_sym. destruct (N.eqb c dollar); simpl.
  - apply IH.
  - f_equal. apply IH.
Qed.

Lemma withoutDollars_quiet (x : jsstring) :
  noMarkup x = true -> Forall quiet (withoutDollars x).
Proof.
  intros Hx. apply noMarkup_Forall in Hx.
  unfold withoutDollars. apply Forall_forall. intros c Hc.
  apply filter_In in Hc. destruct Hc as [Hin Hd].
  rewrite Forall_forall in Hx. destruct (Hx c Hin) as [Hb Hl].
  repeat split; trivial.
  intros ->. discriminate.
Qed.

(** X5: on a text with no backslash and no opening brace,
    [latexToSimple] removes the dollar signs and applies its last
    statement, which turns each run of whitespace into one space and
    trims; it does nothing else. *)
Theorem latexToSimple_on_plain_text (x : jsstring) :
  noMarkup x = true ->
  latexToSimple x = normalizeSpaces (withoutDollars x).
Proof.
  intros Hx. unfold latexToSimple.
  destruct x as [|c x']; [reflexivity|].
  set (y := c :: x') in *.
  unfold replaceAll at 18. rewrite scan_remove_dollar.
  pose proof (withoutDollars_quiet _ Hx) as Hq.
  repeat
    (rewrite (@replaceAll_quiet _ (withoutDollars y));
     [| intros b t Ht;
        first [ solve [apply literal_quiet; auto with quiet]
              | solve [apply braced_quiet_head; auto with quiet]
              | solve [apply braced_quiet_second; auto with quiet]
              | apply script_harmless ]
      | exact Hq ]).
  reflexivity.
Qed.

Lemma latexToSimple_on_plain_text_witness :
  let x := js " $v$ =  3 m/s^2 " in
  latexToSimple x = normalizeSpaces (withoutDollars x)
  /\ latexToSimple x = js "v = 3 m/s^2".
Proof.
  intros x. split; [|reflexivity].
  apply (latexToSimple_on_plain_text x). reflexivity.
Defined.

(** ** What an accepted question holds *)

Section QuestionFacts.
Context `{Platform}.

Lemma normalizeQuestion_fields (q : value) (index : nat)
  (prefix : jsstring) (now : N) (cq : Question) :
  normalizeQuestion q index prefix now = Normal (Some cq) ->
  processText (questionTextOf q) = Normal (text cq)
  /\ mapM processText (elements (optionsListOf q)) = Normal (options cq)
  /\ processText (explanationOf q) = Normal (explanation cq).
Proof.
  unfold normalizeQuestion.
  destruct (nullish q); [discriminate|].
  destruct (negb (truthy (questionTextOf q)) || negb (isArray (optionsListOf q))
            || (length (elements (optionsListOf q)) <? 2))%bool;
    [discriminate|].
  destruct (mapM processText _) as [cleanOptions|]; [|discriminate].
  cbn [bind].
  destruct (processText (questionTextOf q)) as [t|]; [|discriminate].
  cbn [bind].
  destruct (processText (explanationOf q)) as [e|]; [|discriminate].
  cbn [bind]. intros E. injection E as <-. simpl. auto.
Qed.

Lemma processText_clean (v : value) (s : jsstring) :
  processText v = Normal s -> clean s.
Proof.
  unfold processText. destruct (String_ v) as [s0|]; [|discriminate].
  cbn [bind]. intros E. injection E as <-. apply latexToSimple_clean.
Qed.

Lemma mapM_Forall {A B} (f : A -> completion B) (P : B -> Prop) :
  (forall a b, f a = Normal b -> P b) ->
  forall l r, mapM f l = Normal r -> Forall P r.
Proof.
  intros Hf. induction l as [|a l IH]; intros r E; simpl in E.
  - injection E as <-. constructor.
  - destruct (f a) as [b|] eqn:Eb; [|discriminate]. cbn [bind] in E.
    destruct (mapM f l) as [bs|]; [|discriminate]. cbn [bind] in E.
    injection E as <-. constructor; eauto.
Qed.

(** X6: the question text, every option and the explanation of an
    accepted question went through [latexToSimple] last: none holds a
    dollar sign, and in each the whitespace is single plain spaces with
    none at either end. *)
Theorem normalizeQuestion_texts_clean (q : value) (index : nat)
  (prefix : jsstring) (now : N) (cq : Question) :
  normalizeQuestion q index prefix now = Normal (Some cq) ->
  clean (text cq) /\ Forall clean (options cq) /\ clean (explanation cq).
Proof.
  intros Hacc. apply normalizeQuestion_fields in Hacc.
  destruct Hacc as (Ht & Ho & He).
  split; [eapply processText_clean; exact Ht|].
  split; [|eapply processText_clean; exact He].
  eapply mapM_Forall; [|exact Ho]. intros a b. apply processText_clean.
Qed.

(** X7: when a candidate has no explanation under either key (or an
    empty one), the accepted question explains with the placeholder. *)
Theorem normalizeQuestion_default_explanation (q : value) (index : nat)
  (prefix : jsstring) (now : N) (cq : Question) :
  normalizeQuestion q index prefix now = Normal (Some cq) ->
  truthy (get q (js "explanation")) = false ->
  truthy (get q (js "Explanation")) = false ->
  explanation cq = js "No explanation provided.".
Proof.
  intros Hacc H1 H2. apply normalizeQuestion_fields in Hacc.
  destruct Hacc as (_ & _ & He).
  unfold explanationOf in He.
  rewrite (@or_falsy _ _ H1), (@or_falsy _ _ H2) in He.
  assert (E : processText (VString (js "No explanation provided."))
              = Normal (js "No explanation provided.")) by reflexivity.
  rewrite E in He. injection He as <-. reflexivity.
Qed.

(** X8: a numeric [correctIndex] that is at least 0 and below the
    number of options is the [correctIndex] of the accepted question,
    unchanged. *)
Theorem normalizeQuestion_keeps_valid_index (q : value) (index : nat)
  (prefix : jsstring) (now : N) (cq : Question) (r : Q) :
  normalizeQuestion q index prefix now = Normal (Some cq) ->
  get q (js "correctIndex") = VNumber (Finite r) ->
  (0 <= r)%Q ->
  (r < inject_Z (Z.of_nat (length (options cq))))%Q ->
  correctIndex cq = Finite r.
Proof.
  intros Hacc Hr H0 Hlen. apply normalizeQuestion_accepted in Hacc.
  destruct Hacc as (_ & opts & _ & _ & _ & _ & Hidx).
  rewrite Hidx. unfold resolveIndex. rewrite Hr.
  apply clampIndex_within.
  - apply ltb_finite_false. exact H0.
  - unfold geb. apply negb_false_iff. apply ltb_finite. exact Hlen.
Qed.

(** ** A candidate that throws *)

Lemma mapNormalize_throws (prefix : jsstring) (clock : nat -> N)
  (items : list value) : forall (i k : nat) (q : value) (e : error),
  nth_error items k = Some q ->
  normalizeQuestion q (i + k) prefix (clock (i + k)) = Throw e ->
  exists e', mapNormalize prefix clock i items = Throw e'.
Proof.
  induction items as [|x items IH]; intros i k q e Hk Hq.
  - destruct k; discriminate.
  - cbn [mapNormalize].
    destruct k as [|k].
    + injection Hk as ->. rewrite Nat.add_0_r in Hq. rewrite Hq.
      cbn [bind]. eauto.
    + simpl in Hk. replace (i + S k) with (S i + k) in Hq by lia.
      destruct (IH (S i) k q e Hk Hq) as [e' E'].
      destruct (normalizeQuestion x i prefix (clock i)) as [r|e0];
        cbn [bind].
      * rewrite E'. cbn [bind]. exists e'. reflexivity.
      * exists e0. reflexivity.
Qed.

(** X9: one candidate whose normalization throws, as [null] does,
    costs the whole batch: the entry point returns the empty list,
    whatever the other candidates are. *)
Theorem generateQuestions_one_throw_empties (prefix : jsstring)
  (clock : nat -> N) (responseText : jsstring) (items : list value)
  (k : nat) (q : value) (e : error) :
  cleanAndParseJSON responseText = VArray items ->
  nth_error items k = Some q ->
  normalizeQuestion q k prefix (clock k) = Throw e ->
  generateQuestions prefix clock (Normal responseText) = [].
Proof.
  intros Hparse Hk Hq. unfold generateQuestions. cbn [bind].
  destruct responseText as [|c rest].
  - vm_compute in Hparse. injection Hparse as <-. destruct k; discriminate.
  - rewrite Hparse.
    destruct (@mapNormalize_throws prefix clock items 0 k q e Hk Hq)
      as [e' ->].
    reflexivity.
Qed.

Lemma mapNormalize_accepted (prefix : jsstring) (clock : nat -> N)
  (items : list value) : forall (i : nat) (rs : list (option Question)),
  mapNormalize prefix clock i items = Normal rs ->
  Forall (fun cq => exists q j,
            normalizeQuestion q j prefix (clock j) = Normal (Some cq))
    (filterNonNull rs)
  /\ length (filterNonNull rs) <= length items.
Proof.
  induction items as [|q items IH]; intros i rs E; simpl in E.
  - injection E as <-. simpl. split; [constructor | lia].
  - destruct (normalizeQuestion q i prefix (clock i)) as [r|] eqn:Er;
      [|discriminate].
    cbn [bind] in E.
    destruct (mapNormalize prefix clock (S i) items) as [rs'|] eqn:Ers;
      [|discriminate].
    cbn [bind] in E. injection E as <-.
    destruct (IH _ _ Ers) as [Hall Hlen].
    destruct r as [cq|]; simpl; split; try lia; try exact Hall.
    constructor; [eauto | exact Hall].
Qed.

Lemma generateQuestions_accepted (prefix : jsstring) (clock : nat -> N)
  (response : completion jsstring) :
  Forall (fun cq => exists q j,
            normalizeQuestion q j prefix (clock j) = Normal (Some cq))
    (generateQuestions prefix clock response).
Proof.
  unfold generateQuestions.
  destruct response as [responseText|e]; [|constructor]. cbn [bind].
  destruct (cleanAndParseJSON _) as [| | | | |items|]; try constructor.
  destruct (mapNormalize prefix clock 0 items) as [rs|] eqn:E;
    [|constructor].
  simpl. apply mapNormalize_accepted in E. tauto.
Qed.

Lemma accepted_invariants (q : value) (j : nat) (prefix : jsstring)
  (now : N) (cq : Question) :
  normalizeQuestion q j prefix now = Normal (Some cq) ->
  2 <= length (options cq)
  /\ (exists r, correctIndex cq = Finite r
                /\ (0 <= r)%Q
                /\ (r < inject_Z (Z.of_nat (length (options cq))))%Q)
  /\ clean (text cq)
  /\ Forall clean (options cq)
  /\ clean (explanation cq).
Proof.
  intros Hacc.
  pose proof Hacc as Hinv. apply normalizeQuestion_fields in Hinv.
  destruct Hinv as (Ht & Ho & He).
  apply normalizeQuestion_accepted in Hacc.
  destruct Hacc as (_ & opts & _ & Hlen & Hmap & _ & Hidx).
  pose proof (mapM_length _ _ Hmap) as Hl.
  split; [lia|]. split.
  - rewrite Hidx. apply clampIndex_range. lia.
  - split; [eapply processText_clean; exact Ht|].
    split; [|eapply processText_clean; exact He].
    eapply mapM_Forall; [|exact Ho]. intros a b. apply processText_clean.
Qed.

(** X10: every question an entry point returns keeps the invariants of
    the record: two options or more, a [correctIndex] that is at least
    0 and below the number of options, and clean texts. *)
Theorem generateQuestions_invariants (prefix : jsstring) (clock : nat -> N)
  (response : completion jsstring) :
  Forall (fun cq =>
            2 <= length (options cq)
            /\ (exists r, correctIndex cq = Finite r
                          /\ (0 <= r)%Q
                          /\ (r < inject_Z (Z.of_nat (length (options cq))))%Q)
            /\ clean (text cq)
            /\ Forall clean (options cq)
            /\ clean (explanation cq))
    (generateQuestions prefix clock response).
Proof.
  eapply Forall_impl; [|apply generateQuestions_accepted].
  intros cq (q & j & Hacc). eapply accepted_invariants. exact Hacc.
Qed.

End QuestionFacts.

Lemma normalizeQuestion_texts_clean_witness :
  exists cq,
    normalizeQuestion specCandidate 0 (js "battle") 1700000000000
    = Normal (Some cq)
    /\ clean (text cq) /\ Forall clean (options cq)
    /\ clean (explanation cq).
Proof.
  eexists. split; [reflexivity|].
  apply (@normalizeQuestion_texts_clean _ specCandidate 0 (js "battle")
           1700000000000%N).
  reflexivity.
Defined.

Lemma normalizeQuestion_default_explanation_witness :
  exists cq,
    normalizeQuestion specCandidate 0 (js "battle") 1700000000000
    = Normal (Some cq)
    /\ explanation cq = js "No explanation provided.".
Proof.
  eexists. split; [reflexivity|].
  apply (@normalizeQuestion_default_explanation _ specCandidate 0
           (js "battle") 1700000000000%N);
    reflexivity.
Defined.

Lemma normalizeQuestion_keeps_valid_index_witness :
  exists cq,
    normalizeQuestion candidateWithValidIndex 0 (js "battle") 1700000000000
    = Normal (Some cq)
    /\ correctIndex cq = ofZ 1.
Proof.
  eexists. split; [reflexivity|].
  apply (@normalizeQuestion_keeps_valid_index _ candidateWithValidIndex 0
           (js "battle") 1700000000000%N);
    [reflexivity | reflexivity | discriminate | reflexivity].
Defined.

Lemma generateQuestions_one_throw_empties_witness :
  cleanAndParseJSON responseWithNull
  = VArray [VObject [(js "question", VString (js "Q1"));
                     (js "options",
                      VArray [VString (js "A"); VString (js "B")])];
            VNull]
  /\ generateQuestions (js "battle") (fun _ => 1700000000000%N)
       (Normal responseWithNull) = [].
Proof.
  split; [reflexivity|].
  apply (@generateQuestions_one_throw_empties _ (js "battle")
           (fun _ => 1700000000000%N) responseWithNull
           [VObject [(js "question", VString (js "Q1"));
                     (js "options",
                      VArray [VString (js "A"); VString (js "B")])];
            VNull] 1 VNull TypeError);
    reflexivity.
Defined.

(** ** The candidate that [cleanAndParseJSON] cuts out *)

Lemma indexOf_first (c : char16) (pre rest : jsstring) :
  ~ In c pre -> indexOf c (pre ++ c :: rest) = Some (length pre).
Proof.
  induction pre as [|d pre IH]; intros Hnot; simpl.
  - rewrite N.eqb_refl. reflexivity.
  - destruct (N.eqb_spec d c) as [->|_].
    + exfalso. apply Hnot. left. reflexivity.
    + rewrite IH; [reflexivity|]. intros Hin. apply Hnot. right. exact Hin.
Qed.

Lemma lastIndexOf_absent (c : char16) (s : jsstring) :
  ~ In c s -> lastIndexOf c s = None.
Proof.
  induction s as [|d s IH]; intros Hnot; simpl; [reflexivity|].
  rewrite IH by (intros Hin; apply Hnot; right; exact Hin).
  destruct (N.eqb_spec d c) as [->|_]; [|reflexivity].
  exfalso. apply Hnot. left. reflexivity.
Qed.

Lemma lastIndexOf_last (c : char16) (a post : jsstring) :
  ~ In c post -> lastIndexOf c (a ++ c :: post) = Some (length a).
Proof.
  intros Hnot. induction a as [|d a IH]; simpl.
  - rewrite (@lastIndexOf_absent c post Hnot), N.eqb_refl. reflexivity.
  - rewrite IH. reflexivity.
Qed.

Lemma substring_middle (pre mid post : jsstring) :
  substring (pre ++ mid ++ post) (length pre) (length pre + length mid)
  = mid
  /\ substring (pre ++ mid ++ post) (length pre + length mid) (length pre)
     = mid.
Proof.
  assert (E : firstn (length mid) (skipn (length pre) (pre ++ mid ++ post))
              = mid).
  { rewrite skipn_app, skipn_all, Nat.sub_diag. simpl.
    apply firstn_exact. }
  unfold substring. cbv zeta. rewrite !length_app.
  split.
  - replace (Nat.min (length pre) (length pre + (length mid + length post)))
      with (length pre) by lia.
    replace (Nat.min (length pre + length mid)
               (length pre + (length mid + length post)))
      with (length pre + length mid) by lia.
    replace (Nat.min (length pre) (length pre + length mid))
      with (length pre) by lia.
    replace (Nat.max (length pre) (length pre + length mid) - length pre)
      with (length mid) by lia.
    exact E.
  - replace (Nat.min (length pre) (length pre + (length mid + length post)))
      with (length pre) by lia.
    replace (Nat.min (length pre + length mid)
               (length pre + (length mid + length post)))
      with (length pre + length mid) by lia.
    replace (Nat.min (length pre + length mid) (length pre))
      with (length pre) by lia.
    replace (Nat.max (length pre + length mid) (length pre) - length pre)
      with (length mid) by lia.
    exact E.
Qed.

(** X11: what stands before the first opening square bracket and after
    the last closing one is ignored: the result is the parse of the
    text from the one to the other, or the empty array when that parse
    throws. *)
Theorem cleanAndParseJSON_ignores_surroundings (pre body post : jsstring) :
  ~ In lbracket pre ->
  ~ In rbracket post ->
  cleanAndParseJSON (pre ++ lbracket :: body ++ rbracket :: post)
  = tryCatch (JSON.parse (lbracket :: body ++ [rbracket]))
      (fun _ => VArray []).
Proof.
  intros Hpre Hpost.
  set (mid := lbracket :: body ++ [rbracket]).
  assert (Etext : pre ++ lbracket :: body ++ rbracket :: post
                  = pre ++ mid ++ post).
  { unfold mid. simpl. rewrite <- app_assoc. reflexivity. }
  assert (Ei : indexOf lbracket (pre ++ lbracket :: body ++ rbracket :: post)
               = Some (length pre))
    by (apply indexOf_first; exact Hpre).
  assert (Ej : lastIndexOf rbracket
                 (pre ++ lbracket :: body ++ rbracket :: post)
               = Some (length pre + length body + 1)).
  { replace (pre ++ lbracket :: body ++ rbracket :: post)
      with ((pre ++ lbracket :: body) ++ rbracket :: post)
      by (rewrite <- app_assoc; reflexivity).
    rewrite (@lastIndexOf_last rbracket (pre ++ lbracket :: body) post
               Hpost), length_app.
    simpl. f_equal. lia. }
  rewrite (@cleanAndParseJSON_brackets _ _ _ Ei Ej), Etext.
  replace (length pre + length body + 1 + 1)
    with (length pre + length mid)
    by (unfold mid; simpl; rewrite length_app; simpl; lia).
  rewrite (proj1 (substring_middle pre mid post)). reflexivity.
Qed.

Lemma cleanAndParseJSON_ignores_surroundings_witness :
  cleanAndParseJSON
    (js "Sure! ```json" ++ lbracket :: js "1, 2" ++ rbracket :: js "``` Bye.")
  = VArray [VNumber (ofZ 1); VNumber (ofZ 2)].
Proof.
  rewrite (@cleanAndParseJSON_ignores_surroundings
             (js "Sure! ```json") (js "1, 2") (js "``` Bye.")).
  - reflexivity.
  - intros Hin. repeat (destruct Hin as [Hin|Hin]; [discriminate Hin|]).
    exact Hin.
  - intros Hin. repeat (destruct Hin as [Hin|Hin]; [discriminate Hin|]).
    exact Hin.
Defined.

(** X12: when the last closing square bracket stands before the first
    opening one, [substring] swaps its two indices, and the candidate
    is the text between the two brackets, which is then parsed. *)
Theorem cleanAndParseJSON_brackets_reversed (pre mid post : jsstring) :
  ~ In lbracket pre -> ~ In lbracket mid ->
  ~ In rbracket mid -> ~ In rbracket post ->
  cleanAndParseJSON (pre ++ rbracket :: mid ++ lbracket :: post)
  = tryCatch (JSON.parse mid) (fun _ => VArray []).
Proof.
  intros Hpre Hmid1 Hmid2 Hpost.
  assert (Ei : indexOf lbracket (pre ++ rbracket :: mid ++ lbracket :: post)
               = Some (length (pre ++ [rbracket]) + length mid)).
  { replace (pre ++ rbracket :: mid ++ lbracket :: post)
      with (((pre ++ [rbracket]) ++ mid) ++ lbracket :: post)
      by (rewrite <- !app_assoc; reflexivity).
    rewrite indexOf_first; [rewrite length_app; reflexivity|].
    intros Hin. apply in_app_or in Hin. destruct Hin as [Hin|Hin];
      [|contradiction].
    apply in_app_or in Hin. destruct Hin as [Hin|[Hin|[]]];
      [contradiction | discriminate Hin]. }
  assert (Ej : lastIndexOf rbracket
                 (pre ++ rbracket :: mid ++ lbracket :: post)
               = Some (length pre)).
  { apply lastIndexOf_last. intros Hin. apply in_app_or in Hin.
    destruct Hin as [Hin|[Hin|Hin]];
      [contradiction | discriminate Hin | contradiction]. }
  rewrite (@cleanAndParseJSON_brackets _ _ _ Ei Ej).
  replace (pre ++ rbracket :: mid ++ lbracket :: post)
    with ((pre ++ [rbracket]) ++ mid ++ lbracket :: post)
    by (rewrite <- app_assoc; reflexivity).
  replace (length pre + 1) with (length (pre ++ [rbracket]))
    by (rewrite length_app; reflexivity).
  rewrite (proj2 (substring_middle (pre ++ [rbracket]) mid
                    (lbracket :: post))).
  reflexivity.
Qed.

Lemma cleanAndParseJSON_brackets_reversed_witness :
  cleanAndParseJSON (js "]5[") = VNumber (ofZ 5).
Proof.
  refine (eq_trans
            (@cleanAndParseJSON_brackets_reversed [] (js "5") [] _ _ _ _) _);
    [ | | | | reflexivity];
    intros Hin; repeat (destruct Hin as [Hin|Hin]; [discriminate Hin|]);
    exact Hin.
Defined.

(** ** [MathRenderer] *)

Lemma splitFrom_concat (s : jsstring) :
  forall skip piece,
    concat (MathRenderer.splitFrom skip piece s) = piece ++ skipn skip s.
Proof.
  induction s as [|c s IH]; intros skip piece.
  - simpl. destruct skip; simpl; rewrite !app_nil_r; reflexivity.
  - destruct skip as [|k].
    + cbn [MathRenderer.splitFrom skipn].
      destruct (MathRenderer.mathSegment (c :: s)) as [[|k]|].
      * destruct piece as [|d piece].
        -- rewrite IH. reflexivity.
        -- cbn [concat]. rewrite IH. reflexivity.
      * cbn [concat]. rewrite IH. cbn [firstn app].
        do 2 f_equal. apply firstn_skipn.
      * rewrite IH, <- app_assoc. reflexivity.
    + cbn [MathRenderer.splitFrom skipn]. apply IH.
Qed.

(** X13: the [split] of [MathRenderer] loses nothing: the parts, put
    together again in their order, are the text. *)
Theorem split_lossless (text : jsstring) :
  concat (MathRenderer.split text) = text.
Proof.
  unfold MathRenderer.split. rewrite splitFrom_concat. reflexivity.
Qed.

Lemma mathSegment_head (c : char16) (s : jsstring) :
  c <> dollar -> MathRenderer.mathSegment (c :: s) = None.
Proof.
  intros Hc. unfold MathRenderer.mathSegment.
  cbn [stripPrefix].
  destruct (N.eqb_spec dollar c) as [E|_]; [congruence|].
  destruct (N.eqb_spec c dollar) as [E|_]; [congruence|]. reflexivity.
Qed.

Lemma splitFrom_plain (s : jsstring) : forall piece,
  Forall dollarFree s -> MathRenderer.splitFrom 0 piece s = [piece ++ s].
Proof.
  induction s as [|c s IH]; intros piece Hs.
  - simpl. rewrite app_nil_r. reflexivity.
  - inversion Hs as [|? ? Hc Hs']; subst.
    cbn [MathRenderer.splitFrom]. rewrite (mathSegment_head s Hc).
    rewrite (IH _ Hs'), <- app_assoc. reflexivity.
Qed.

Lemma renderPart_plain (Html : Type) (render : MathRenderer.katex Html)
  (part : jsstring) :
  Forall dollarFree part ->
  MathRenderer.renderPart render part = MathRenderer.TextContent part.
Proof.
  intros Hp. unfold MathRenderer.renderPart, MathRenderer.startsWith.
  destruct part as [|c part]; [reflexivity|].
  inversion Hp as [|? ? Hc _]; subst. cbn [stripPrefix].
  destruct (N.eqb_spec dollar c) as [E|_]; [symmetry in E; contradiction|].
  reflexivity.
Qed.

Lemma MathRenderer_plain (Html : Type) (render : MathRenderer.katex Html)
  (s : jsstring) :
  Forall dollarFree s ->
  MathRenderer.MathRenderer (Some render) s
  = match s with
    | [] => MathRenderer.Nothing
    | _ => MathRenderer.Children [MathRenderer.TextContent s]
    end.
Proof.
  intros Hs. destruct s as [|c s]; [reflexivity|].
  unfold MathRenderer.MathRenderer, MathRenderer.split.
  rewrite (splitFrom_plain [] Hs). simpl.
  rewrite (renderPart_plain render Hs). reflexivity.
Qed.

(** X14: a text without a dollar sign is shown as it is, in one span,
    and KaTeX is not called, whatever it would do. *)
Theorem MathRenderer_text_without_dollar (Html : Type)
  (render : MathRenderer.katex Html) (text : jsstring) :
  text <> [] ->
  Forall dollarFree text ->
  MathRenderer.MathRenderer (Some render) text
  = MathRenderer.Children [MathRenderer.TextContent text].
Proof.
  intros Hne Hs. rewrite (MathRenderer_plain render Hs).
  destruct text; [contradiction|reflexivity].
Qed.

Lemma MathRenderer_text_without_dollar_witness :
  MathRenderer.MathRenderer (Some (fun tex _ => Normal tex)) (js "2 + 2")
  = MathRenderer.Children [MathRenderer.TextContent (js "2 + 2")].
Proof.
  apply (@MathRenderer_text_without_dollar jsstring
           (fun tex _ => Normal tex) (js "2 + 2")).
  - discriminate.
  - repeat constructor; discriminate.
Defined.

Section Shown.
Context `{Platform}.

(** X15: the texts of the questions that the entry points return never
    reach KaTeX: each of them is shown by [MathRenderer] as it is (and
    an empty one not at all). *)
Theorem generated_texts_shown_plain (prefix : jsstring) (clock : nat -> N)
  (response : completion jsstring) (cq : Question) (s : jsstring)
  (Html : Type) (render : MathRenderer.katex Html) :
  In cq (generateQuestions prefix clock response) ->
  In s (text cq :: explanation cq :: options cq) ->
  MathRenderer.MathRenderer (Some render) s
  = match s with
    | [] => MathRenderer.Nothing
    | _ => MathRenderer.Children [MathRenderer.TextContent s]
    end.
Proof.
  intros Hcq Hs. apply MathRenderer_plain.
  pose proof (generateQuestions_accepted prefix clock response) as Hall.
  rewrite Forall_forall in Hall. destruct (Hall _ Hcq) as (q & j & Hacc).
  apply accepted_invariants in Hacc.
  destruct Hacc as (_ & _ & Ht & Ho & He).
  destruct Hs as [<-|[<-|Hs]].
  - apply Ht.
  - apply He.
  - rewrite Forall_forall in Ho. apply (Ho _ Hs).
Qed.

End Shown.

Lemma generated_texts_shown_plain_witness :
  MathRenderer.MathRenderer (Some (fun tex _ => Normal tex)) (js "Q1")
  = MathRenderer.Children [MathRenderer.TextContent (js "Q1")].
Proof.
  apply (@generated_texts_shown_plain examplePlatform (js "battle")
           (fun _ => 1700000000000%N) (Normal specResponse)
           {| id := js "battle-1700000000000-0";
              text := js "Q1";
              options := [js "A"; js "B"];
              correctIndex := ofZ 1;
              explanation := js "No explanation provided." |}
           (js "Q1") jsstring (fun tex _ => Normal tex)).
  - left. reflexivity.
  - left. reflexivity.
Defined.

Lemma breakAt_free (c : char16) (s : jsstring) :
  forall before after,
    breakAt c s = Some (before, after) -> Forall (fun d => d <> c) before.
Proof.
  induction s as [|d s IH]; intros before after Hs; simpl in Hs.
  - discriminate.
  - destruct (N.eqb_spec d c) as [_|Hd].
    + injection Hs as <- <-. constructor.
    + destruct (breakAt c s) as [[b' a']|]; [|discriminate].
      injection Hs as <- <-. constructor; [exact Hd|]. eapply IH. reflexivity.
Qed.

Lemma mathSegment_inv (s : jsstring) (n : nat) :
  MathRenderer.mathSegment s = Some n ->
  exists body rest,
    body <> [] /\ Forall dollarFree body
    /\ ((s = ([dollar; dollar] ++ body ++ [dollar; dollar]) ++ rest
         /\ n = length ([dollar; dollar] ++ body ++ [dollar; dollar]))
        \/ (s = ([dollar] ++ body ++ [dollar]) ++ rest
            /\ n = length ([dollar] ++ body ++ [dollar]))).
Proof.
  intros Hn.
  assert (Hlen : forall (d : char16) inner,
             length inner + 5
             = length ([dollar; dollar] ++ (d :: inner) ++ [dollar; dollar])
             /\ length inner + 3
                = length ([dollar] ++ (d :: inner) ++ [dollar])).
  { intros d inner. simpl. rewrite !length_app. simpl. lia. }
  destruct s as [|c rest]; [discriminate|].
  destruct (N.eq_dec c dollar) as [->|Hc];
    [|rewrite (mathSegment_head rest Hc) in Hn; discriminate].
  destruct rest as [|c2 rest]; [discriminate|].
  unfold MathRenderer.mathSegment in Hn. cbn [stripPrefix] in Hn.
  rewrite N.eqb_refl in Hn.
  destruct (N.eqb_spec dollar c2) as [<-|Hc2].
  - (* two dollar signs *)
    assert (E2 : breakAt dollar (dollar :: rest) = Some ([], rest))
      by (simpl; reflexivity).
    rewrite E2 in Hn.
    destruct (breakAt dollar rest) as [[[|d inner] after]|] eqn:Eb;
      try discriminate.
    destruct after as [|c after]; [discriminate|].
    destruct (N.eqb_spec c dollar) as [->|_]; [|discriminate].
    cbn [orElse] in Hn. injection Hn as <-.
    pose proof (breakAt_free _ _ Eb) as Hfree.
    apply breakAt_app in Eb. subst rest.
    exists (d :: inner), after. split; [discriminate|].
    split; [exact Hfree|]. left. split.
    + simpl. rewrite <- !app_assoc. reflexivity.
    + apply (Hlen d inner).
  - (* one dollar sign *)
    cbn [orElse] in Hn.
    destruct (breakAt dollar (c2 :: rest)) as [[[|d inner] after]|] eqn:Eb;
      try discriminate.
    injection Hn as <-.
    pose proof (breakAt_free _ _ Eb) as Hfree.
    apply breakAt_app in Eb. rewrite Eb.
    exists (d :: inner), after. split; [discriminate|].
    split; [exact Hfree|]. right. split.
    + simpl. rewrite <- !app_assoc. reflexivity.
    + apply (Hlen d inner).
Qed.

Lemma splitFrom_odd (s : jsstring) : forall skip piece i part,
  nth_error (MathRenderer.splitFrom skip piece s) (2 * i + 1) = Some part ->
  exists t n, MathRenderer.mathSegment t = Some n /\ part = firstn n t.
Proof.
  assert (Hodd : forall i, 2 * S i + 1 = S (S (2 * i + 1))) by (intros; lia).
  assert (Hone : forall i, 2 * i + 1 = S (2 * i)) by (intros; lia).
  induction s as [|c s IH]; intros skip piece i part Hp.
  - rewrite Hone in Hp. cbn [MathRenderer.splitFrom nth_error] in Hp.
    destruct (2 * i); discriminate.
  - destruct skip as [|k]; [|exact (IH _ _ _ _ Hp)].
    cbn [MathRenderer.splitFrom] in Hp.
    destruct (MathRenderer.mathSegment (c :: s)) as [[|k]|] eqn:Em.
    + destruct piece as [|d piece]; [exact (IH _ _ _ _ Hp)|].
      destruct i as [|i].
      * cbn in Hp. injection Hp as <-. exists (c :: s), 0. auto.
      * rewrite Hodd in Hp. exact (IH _ _ _ _ Hp).
    + destruct i as [|i].
      * cbn [Nat.mul Nat.add nth_error] in Hp. injection Hp as <-.
        exists (c :: s), (S k). auto.
      * rewrite Hodd in Hp. exact (IH _ _ _ _ Hp).
    + exact (IH _ _ _ _ Hp).
Qed.

Lemma eqb_refl (s : jsstring) : eqb s s = true.
Proof.
  induction s as [|c s IH]; [reflexivity|].
  simpl. rewrite N.eqb_refl. exact IH.
Qed.

Lemma endsWith_app (a p : jsstring) :
  MathRenderer.endsWith (a ++ p) p = true.
Proof.
  unfold MathRenderer.endsWith. rewrite length_app.
  replace (length a + length p - length p) with (length a) by lia.
  rewrite skipn_app, skipn_all, Nat.sub_diag. simpl.
  rewrite eqb_refl, Bool.andb_true_r. apply Nat.leb_le. lia.
Qed.

Lemma slice_inner (a body b : jsstring) :
  b <> [] ->
  MathRenderer.slice (a ++ body ++ b) (Z.of_nat (length a))
    (- Z.of_nat (length b))
  = body.
Proof.
  intros Hb. unfold MathRenderer.slice. cbv zeta. rewrite !length_app.
  assert (0 < length b) by (destruct b; [contradiction|simpl; lia]).
  destruct (Z.ltb_spec (Z.of_nat (length a)) 0) as [?|_]; [lia|].
  destruct (Z.ltb_spec (- Z.of_nat (length b)) 0) as [_|?]; [|lia].
  replace (Z.to_nat _) with (length body) by lia.
  replace (Z.to_nat _) with (length a) by lia.
  rewrite skipn_app, skipn_all, Nat.sub_diag. simpl. apply firstn_exact.
Qed.

Lemma renderPart_block (Html : Type) (render : MathRenderer.katex Html)
  (body : jsstring) :
  MathRenderer.renderPart render
    ([dollar; dollar] ++ body ++ [dollar; dollar])
  = tryCatch
      (bind (render body true) (fun h => Normal (MathRenderer.Math h)))
      (fun _ => MathRenderer.TextContent
                  ([dollar; dollar] ++ body ++ [dollar; dollar])).
Proof.
  assert (Es : MathRenderer.startsWith
                 ([dollar; dollar] ++ body ++ [dollar; dollar])
                 [dollar; dollar] = true) by reflexivity.
  assert (Ee : MathRenderer.endsWith
                 ([dollar; dollar] ++ body ++ [dollar; dollar])
                 [dollar; dollar] = true)
    by (rewrite app_assoc; apply endsWith_app).
  assert (Esl : MathRenderer.slice
                  ([dollar; dollar] ++ body ++ [dollar; dollar]) 2 (-2)
                = body)
    by (apply (@slice_inner [dollar; dollar] body [dollar; dollar]);
        discriminate).
  unfold MathRenderer.renderPart. rewrite Es, Ee, Esl. reflexivity.
Qed.

Lemma renderPart_inline (Html : Type) (render : MathRenderer.katex Html)
  (body : jsstring) :
  body <> [] -> Forall dollarFree body ->
  MathRenderer.renderPart render ([dollar] ++ body ++ [dollar])
  = tryCatch
      (bind (render body false) (fun h => Normal (MathRenderer.Math h)))
      (fun _ => MathRenderer.TextContent ([dollar] ++ body ++ [dollar])).
Proof.
  intros Hne Hfree. unfold MathRenderer.renderPart.
  assert (E1 : MathRenderer.startsWith ([dollar] ++ body ++ [dollar])
                 [dollar; dollar] = false).
  { destruct body as [|d body]; [contradiction|].
    inversion Hfree as [|? ? Hd _]; subst.
    unfold MathRenderer.startsWith. cbn [app stripPrefix].
    rewrite N.eqb_refl.
    destruct (N.eqb_spec dollar d) as [E|_];
      [symmetry in E; contradiction|reflexivity]. }
  assert (Es : MathRenderer.startsWith ([dollar] ++ body ++ [dollar])
                 [dollar] = true) by reflexivity.
  assert (Ee : MathRenderer.endsWith ([dollar] ++ body ++ [dollar])
                 [dollar] = true)
    by (rewrite app_assoc; apply endsWith_app).
  assert (Esl : MathRenderer.slice ([dollar] ++ body ++ [dollar]) 1 (-1)
                = body)
    by (apply (@slice_inner [dollar] body [dollar]); discriminate).
  rewrite E1, Es, Ee, Esl. reflexivity.
Qed.

(** X16: every second part of the [split], from the second on, is a
    span of mathematics: a non-empty text without a dollar sign between
    two pairs of dollar signs, which goes to KaTeX in display mode, or
    between two dollar signs, which goes to KaTeX in inline mode; if
    KaTeX throws, the part is shown as text with its dollar signs. *)
Theorem split_odd_parts_are_math (Html : Type)
  (render : MathRenderer.katex Html) (text : jsstring) (i : nat)
  (part : jsstring) :
  nth_error (MathRenderer.split text) (2 * i + 1) = Some part ->
  exists body,
    body <> [] /\ Forall dollarFree body
    /\ ((part = [dollar; dollar] ++ body ++ [dollar; dollar]
         /\ MathRenderer.renderPart render part
            = tryCatch
                (bind (render body true)
                   (fun h => Normal (MathRenderer.Math h)))
                (fun _ => MathRenderer.TextContent part))
        \/ (part = [dollar] ++ body ++ [dollar]
            /\ MathRenderer.renderPart render part
               = tryCatch
                   (bind (render body false)
                      (fun h => Normal (MathRenderer.Math h)))
                   (fun _ => MathRenderer.TextContent part))).
Proof.
  intros Hp. apply splitFrom_odd in Hp. destruct Hp as (t & n & Hm & ->).
  apply mathSegment_inv in Hm.
  destruct Hm as (body & rest & Hne & Hfree & [[-> ->]|[-> ->]]);
    exists body; (split; [exact Hne|]); (split; [exact Hfree|]);
    rewrite firstn_exact.
  - left. split; [reflexivity|]. apply renderPart_block.
  - right. split; [reflexivity|]. apply renderPart_inline; assumption.
Qed.

Lemma split_odd_parts_are_math_witness :
  MathRenderer.split (js "a $x$ b $$y$$") 
  = [js "a "; js "$x$"; js " b "; js "$$y$$"; []]
  /\ exists body,
    body <> [] /\ Forall dollarFree body
    /\ ((js "$$y$$" = [dollar; dollar] ++ body ++ [dollar; dollar]
         /\ MathRenderer.renderPart (fun tex _ => Normal tex) (js "$$y$$")
            = tryCatch
                (bind (Normal body)
                   (fun h => Normal (MathRenderer.Math h)))
                (fun _ => MathRenderer.TextContent (js "$$y$$")))
        \/ (js "$$y$$" = [dollar] ++ body ++ [dollar]
            /\ MathRenderer.renderPart (fun tex _ => Normal tex) (js "$$y$$")
               = tryCatch
                   (bind (Normal body)
                      (fun h => Normal (MathRenderer.Math h)))
                   (fun _ => MathRenderer.TextContent (js "$$y$$")))).
Proof.
  split; [reflexivity|].
  apply (@split_odd_parts_are_math jsstring (fun tex _ => Normal tex)
           (js "a $x$ b $$y$$") 1 (js "$$y$$")).
  reflexivity.
Defined.

(** ** [BattleMode] *)

Lemma total_addPoint (p : BattleMode.Player) (s : BattleMode.Scores) :
  BattleMode.total (BattleMode.addPoint p s) = BattleMode.total s + 1.
Proof. destruct p; unfold BattleMode.total; simpl; lia. Qed.

Lemma finishGame_resultOf (snap st : BattleMode.State) :
  BattleMode.finishGame snap st
  = BattleMode.setGameState BattleMode.FINISHED
      (BattleMode.setWinner
         (Some (BattleMode.resultOf (BattleMode.scores snap))) st).
Proof.
  unfold BattleMode.finishGame, BattleMode.resultOf.
  destruct (_ <? _); [reflexivity|]. destruct (_ <? _); reflexivity.
Qed.

Lemma step_invariant (e : BattleMode.Event) (w : BattleMode.World) :
  BattleMode.invariant w ->
  exists w', BattleMode.step e w = Normal w' /\ BattleMode.invariant w'.
Proof.
  destruct w as [[gs qs0 idx sc wn lk lrw] ts].
  unfold BattleMode.invariant, BattleMode.step.
  cbn [BattleMode.state BattleMode.timers BattleMode.gameState
       BattleMode.questions BattleMode.currentQIndex BattleMode.scores
       BattleMode.winner BattleMode.locked].
  destruct gs.
  - (* SETUP *)
    intros (-> & -> & -> & Ht).
    destruct e as [qs|player selectedIndex|].
    + eexists. split; [reflexivity|].
      unfold BattleMode.startBattle.
      destruct (Nat.ltb_spec 0 (length qs)) as [Hq|Hq]; simpl; auto.
    + eexists. split; [reflexivity|]. simpl. auto.
    + eexists. split; [reflexivity|]. simpl. auto.
  - (* LOADING *)
    intros (-> & -> & -> & Ht).
    destruct e; eexists; (split; [reflexivity|]); simpl; auto.
  - (* PLAYING *)
    intros [Hidx Hinv].
    destruct e as [qs|player selectedIndex|].
    + eexists. split; [reflexivity|]. simpl. auto.
    + unfold BattleMode.handleAnswer.
      cbn [BattleMode.locked BattleMode.questions BattleMode.currentQIndex].
      destruct lk.
      * cbn [bind fst snd]. rewrite app_nil_r.
        eexists. split; [reflexivity|]. simpl. auto.
      * destruct Hinv as [-> Ht].
        destruct (nth_error qs0 idx) as [q|] eqn:Eq;
          [|apply nth_error_None in Eq; lia].
        destruct (strictEquals _ _); cbn [bind fst snd app];
          (eexists; split; [reflexivity|]); simpl;
          (split; [exact Hidx|]); eexists; eexists;
          (split; [reflexivity|]); simpl; auto.
    + destruct lk.
      * destruct Hinv as (snap & p & -> & Hq & Hi & Hs & Ht).
        eexists. split; [reflexivity|].
        unfold BattleMode.nextQuestion. rewrite Hq, Hi.
        destruct (Nat.ltb_spec (idx + 1) (length qs0)) as [Hlt|Hge].
        -- simpl. split; [lia|]. split; [reflexivity|].
           rewrite Hs, total_addPoint. lia.
        -- rewrite finishGame_resultOf. simpl. split; [reflexivity|].
           exists (BattleMode.scores snap), p.
           split; [exact Hs|]. split; [reflexivity|].
           rewrite Hs, total_addPoint. lia.
      * destruct Hinv as [-> Ht].
        eexists. split; [reflexivity|]. simpl. auto.
  - (* FINISHED *)
    intros (-> & Hinv).
    destruct e; eexists; (split; [reflexivity|]); simpl; auto.
Qed.

Lemma run_invariant (events : list BattleMode.Event) :
  forall w, BattleMode.invariant w ->
  exists w', BattleMode.run events w = Normal w' /\ BattleMode.invariant w'.
Proof.
  induction events as [|e events IH]; intros w Hw.
  - exists w. split; [reflexivity|exact Hw].
  - destruct (@step_invariant e w Hw) as (w1 & E1 & H1).
    destruct (IH _ H1) as (w2 & E2 & H2).
    exists w2. simpl. rewrite E1. simpl. auto.
Qed.

Lemma start_invariant : BattleMode.invariant BattleMode.start.
Proof. unfold BattleMode.invariant. simpl. auto. Qed.

(** X17: whatever the players press and whenever the timers fire, no
    handler of [BattleMode] throws, the question shown is one of the
    list, and each question played gives one point to one player: on
    the question screen the points add up to the number of questions
    passed, plus one while the round is locked, and on the final screen
    to the number of questions. *)
Theorem battle_one_point_per_question (events : list BattleMode.Event) :
  exists w,
    BattleMode.run events BattleMode.start = Normal w
    /\ (BattleMode.gameState (BattleMode.state w) = BattleMode.PLAYING ->
        BattleMode.currentQIndex (BattleMode.state w)
        < length (BattleMode.questions (BattleMode.state w))
        /\ BattleMode.total (BattleMode.scores (BattleMode.state w))
           = BattleMode.currentQIndex (BattleMode.state w)
             + (if BattleMode.locked (BattleMode.state w) then 1 else 0))
    /\ (BattleMode.gameState (BattleMode.state w) = BattleMode.FINISHED ->
        BattleMode.total (BattleMode.scores (BattleMode.state w))
        = length (BattleMode.questions (BattleMode.state w))).
Proof.
  destruct (@run_invariant events _ start_invariant) as (w & E & Hw).
  exists w. split; [exact E|]. unfold BattleMode.invariant in Hw.
  split; intros Eg; rewrite Eg in Hw.
  - destruct Hw as [Hidx Hw]. split; [exact Hidx|].
    destruct (BattleMode.locked (BattleMode.state w)).
    + destruct Hw as (snap & p & _ & _ & _ & Hs & Ht).
      rewrite Hs, total_addPoint. lia.
    + lia.
  - destruct Hw as (_ & before & p & _ & _ & Ht). exact Ht.
Qed.

(** X18: the winner on the final screen is decided from the scores
    before the last round: [finishGame] reads the scores of the render
    in which the last answer was given.  So a draw is announced only
    when the final scores differ, and level final scores are announced
    as a win. *)
Theorem battle_winner_ignores_last_round (events : list BattleMode.Event)
  (w : BattleMode.World) :
  BattleMode.run events BattleMode.start = Normal w ->
  BattleMode.gameState (BattleMode.state w) = BattleMode.FINISHED ->
  (exists before p,
     BattleMode.scores (BattleMode.state w) = BattleMode.addPoint p before
     /\ BattleMode.winner (BattleMode.state w)
        = Some (BattleMode.resultOf before))
  /\ (BattleMode.winner (BattleMode.state w) = Some BattleMode.DRAW ->
      BattleMode.scoreP1 (BattleMode.scores (BattleMode.state w))
      <> BattleMode.scoreP2 (BattleMode.scores (BattleMode.state w)))
  /\ (BattleMode.scoreP1 (BattleMode.scores (BattleMode.state w))
      = BattleMode.scoreP2 (BattleMode.scores (BattleMode.state w)) ->
      BattleMode.winner (BattleMode.state w) <> Some BattleMode.DRAW).
Proof.
  intros E Eg.
  destruct (@run_invariant events _ start_invariant) as (w' & E' & Hw).
  rewrite E in E'. injection E' as <-.
  unfold BattleMode.invariant in Hw. rewrite Eg in Hw.
  destruct Hw as (_ & before & p & Hs & Hw & _).
  assert (Hdraw : BattleMode.resultOf before = BattleMode.DRAW ->
                  BattleMode.scoreP1 before = BattleMode.scoreP2 before).
  { unfold BattleMode.resultOf.
    destruct (Nat.ltb_spec (BattleMode.scoreP2 before)
                (BattleMode.scoreP1 before)); [discriminate|].
    destruct (Nat.ltb_spec (BattleMode.scoreP1 before)
                (BattleMode.scoreP2 before)); [discriminate|]. lia. }
  assert (Hdiff : BattleMode.winner (BattleMode.state w)
                  = Some BattleMode.DRAW ->
                  BattleMode.scoreP1 (BattleMode.scores (BattleMode.state w))
                  <> BattleMode.scoreP2
                       (BattleMode.scores (BattleMode.state w))).
  { rewrite Hw, Hs. intros [= Hr]. apply Hdraw in Hr.
    destruct p; simpl; lia. }
  split; [exists before, p; auto|]. split; [exact Hdiff|].
  intros Hlevel Hd. exact (Hdiff Hd Hlevel).
Qed.

Lemma battle_winner_ignores_last_round_witness :
  exists w,
    BattleMode.run
      [BattleMode.StartDuel [exampleQuestion];
       BattleMode.Answer BattleMode.P1 1; BattleMode.TimerFires]
      BattleMode.start = Normal w
    /\ BattleMode.scores (BattleMode.state w)
       = {| BattleMode.scoreP1 := 1; BattleMode.scoreP2 := 0 |}
    /\ BattleMode.winner (BattleMode.state w) = Some BattleMode.DRAW
    /\ BattleMode.scoreP1 (BattleMode.scores (BattleMode.state w))
       <> BattleMode.scoreP2 (BattleMode.scores (BattleMode.state w)).
Proof.
  eexists. split; [reflexivity|]. split; [reflexivity|].
  split; [reflexivity|].
  refine (proj1 (proj2 (@battle_winner_ignores_last_round
            [BattleMode.StartDuel [exampleQuestion];
             BattleMode.Answer BattleMode.P1 1; BattleMode.TimerFires]
            _ eq_refl eq_refl)) eq_refl).
Defined.

Lemma strictEquals_integer (n : nat) (r : Q) :
  strictEquals (ofNat n) (Finite r) = true ->
  (r == inject_Z (Z.of_nat n))%Q.
Proof.
  unfold strictEquals, ofNat, ofZ. intros E.
  apply Qeq_bool_iff in E. symmetry. exact E.
Qed.

Section BattleFacts.
Context `{Platform}.

(** X19: the index of the right option is clamped but not rounded: a
    candidate whose [correctIndex] is a number within the range that is
    no integer keeps it, and in a battle the point of that question
    goes to the opponent of whoever answers first, whatever option is
    chosen. *)
Theorem battle_fractional_index_never_scores (q : value) (j : nat)
  (now : N) (cq : Question) (r : Q) (st : BattleMode.State)
  (player : BattleMode.Player) (selectedIndex : nat) :
  normalizeQuestion q j (js "battle") now = Normal (Some cq) ->
  get q (js "correctIndex") = VNumber (Finite r) ->
  (0 <= r)%Q ->
  (r < inject_Z (Z.of_nat (length (options cq))))%Q ->
  (forall z : Z, ~ (r == inject_Z z)%Q) ->
  BattleMode.locked st = false ->
  nth_error (BattleMode.questions st) (BattleMode.currentQIndex st)
  = Some cq ->
  exists st',
    BattleMode.handleAnswer st player selectedIndex st
    = Normal (st', [BattleMode.nextQuestion st])
    /\ BattleMode.scores st'
       = BattleMode.addPoint
           (match player with
            | BattleMode.P1 => BattleMode.P2
            | BattleMode.P2 => BattleMode.P1
            end) (BattleMode.scores st).
Proof.
  intros Hacc Hr H0 Hlen Hfrac Hl Hq.
  assert (Hidx : correctIndex cq = Finite r).
  { apply normalizeQuestion_accepted in Hacc.
    destruct Hacc as (_ & opts & _ & _ & _ & _ & Hidx).
    rewrite Hidx. unfold resolveIndex. rewrite Hr.
    apply clampIndex_within.
    - apply ltb_finite_false. exact H0.
    - unfold geb. apply negb_false_iff. apply ltb_finite. exact Hlen. }
  unfold BattleMode.handleAnswer. rewrite Hl, Hq, Hidx.
  destruct (strictEquals (ofNat selectedIndex) (Finite r)) eqn:E.
  - apply strictEquals_integer in E. exfalso. exact (Hfrac _ E).
  - eexists. split; reflexivity.
Qed.

End BattleFacts.

Lemma battle_fractional_index_never_scores_witness :
  normalizeQuestion candidateWithHalfIndex 0 (js "battle") 1700000000000
  = Normal (Some halfIndexQuestion)
  /\ exists st',
      BattleMode.handleAnswer
        (fst (BattleMode.startBattle [halfIndexQuestion] BattleMode.initial))
        BattleMode.P1 0
        (fst (BattleMode.startBattle [halfIndexQuestion] BattleMode.initial))
      = Normal
          (st',
           [BattleMode.nextQuestion
              (fst (BattleMode.startBattle [halfIndexQuestion]
                      BattleMode.initial))])
      /\ BattleMode.scores st'
         = BattleMode.addPoint BattleMode.P2
             (BattleMode.scores
                (fst (BattleMode.startBattle [halfIndexQuestion]
                        BattleMode.initial))).
Proof.
  split; [reflexivity|].
  apply (@battle_fractional_index_never_scores examplePlatform
           candidateWithHalfIndex 0 1700000000000%N halfIndexQuestion
           (1 # 2)
           (fst (BattleMode.startBattle [halfIndexQuestion]
                   BattleMode.initial))
           BattleMode.P1 0).
  - reflexivity.
  - reflexivity.
  - discriminate.
  - reflexivity.
  - intros z. unfold Qeq. simpl. lia.
  - reflexivity.
  - reflexivity.
Defined.

(** ** [PracticeMode] *)

Lemma eqb_eq (s t : jsstring) : eqb s t = true <-> s = t.
Proof.
  split; [|intros ->; apply eqb_refl].
  revert t. induction s as [|a s IH]; intros [|b t] E; simpl in E;
    try discriminate; [reflexivity|].
  apply andb_true_iff in E. destruct E as [Ea Es].
  apply N.eqb_eq in Ea. f_equal; auto.
Qed.

Lemma includes_In (x : jsstring) (l : list jsstring) :
  existsb (eqb x) l = true <-> In x l.
Proof.
  rewrite existsb_exists. split.
  - intros (y & Hy & E). apply eqb_eq in E. subst. exact Hy.
  - intros Hx. exists x. split; [exact Hx|apply eqb_refl].
Qed.

Lemma NoDup_snoc {A} (l : list A) (x : A) :
  NoDup l -> ~ In x l -> NoDup (l ++ [x]).
Proof.
  induction 1 as [|a l Ha Hl IH]; intros Hx; simpl.
  - constructor; [intros []|constructor].
  - constructor.
    + intros Hin. apply in_app_or in Hin. destruct Hin as [Hin|[->|[]]].
      * contradiction.
      * apply Hx. left. reflexivity.
    + apply IH. intros Hin. apply Hx. right. exact Hin.
Qed.

Lemma NoDup_filter' {A} (f : A -> bool) (l : list A) :
  NoDup l -> NoDup (filter f l).
Proof.
  induction 1 as [|a l Ha Hl IH]; simpl; [constructor|].
  destruct (f a); [|exact IH].
  constructor; [|exact IH]. intros Hin. apply filter_In in Hin. tauto.
Qed.

(** X20: [toggleChapter] flips the selection of the chapter and of
    no other: afterwards the chapter is selected exactly when it was
    not before, every other chapter is selected exactly when it was,
    nothing is selected twice if nothing was, and the rest of the
    configuration is as before. *)
Theorem toggleChapter_flips (chapName : jsstring)
  (prev : PracticeMode.Config) :
  let next := PracticeMode.toggleChapter chapName prev in
  (In chapName (PracticeMode.chapters next)
   <-> ~ In chapName (PracticeMode.chapters prev))
  /\ (forall c, c <> chapName ->
        (In c (PracticeMode.chapters next)
         <-> In c (PracticeMode.chapters prev)))
  /\ (NoDup (PracticeMode.chapters prev) ->
      NoDup (PracticeMode.chapters next))
  /\ PracticeMode.subject next = PracticeMode.subject prev
  /\ PracticeMode.questionCount next = PracticeMode.questionCount prev
  /\ PracticeMode.customPrompt next = PracticeMode.customPrompt prev.
Proof.
  unfold PracticeMode.toggleChapter.
  destruct (existsb (eqb chapName) (PracticeMode.chapters prev)) eqn:E;
    cbv zeta; cbn [PracticeMode.chapters PracticeMode.subject
                   PracticeMode.questionCount PracticeMode.customPrompt].
  - apply includes_In in E.
    split; [|split; [|split; [|auto]]].
    + rewrite filter_In, eqb_refl. simpl. split; [intros [_ ?]|tauto].
      discriminate.
    + intros c Hc. rewrite filter_In. split; [tauto|].
      intros Hin. split; [exact Hin|].
      destruct (eqb c chapName) eqn:Ec; [|reflexivity].
      apply eqb_eq in Ec. contradiction.
    + apply NoDup_filter'.
  - assert (Hnot : ~ In chapName (PracticeMode.chapters prev)).
    { intros Hin. apply includes_In in Hin. congruence. }
    split; [|split; [|split; [|auto]]].
    + split; [tauto|]. intros _. apply in_or_app. right. left. reflexivity.
    + intros c Hc. rewrite in_app_iff. simpl. split; [|tauto].
      intros [Hin|[Heq|[]]]; [exact Hin|]. symmetry in Heq. contradiction.
    + intros Hnd. apply NoDup_snoc; assumption.
Qed.

Lemma skipn_nth_error {A} (l : list A) : forall i x,
  nth_error l i = Some x -> skipn i l = x :: skipn (S i) l.
Proof.
  induction l as [|a l IH]; intros [|i] x E; simpl in E; try discriminate.
  - injection E as ->. reflexivity.
  - cbn [skipn]. exact (IH _ _ E).
Qed.

Lemma answered_cons (x : option Z) (a : PracticeMode.array) :
  PracticeMode.answered (x :: a)
  = match x with
    | Some v => if (v =? -1)%Z then 0 else 1
    | None => 0
    end + PracticeMode.answered a.
Proof.
  unfold PracticeMode.answered. simpl.
  destruct x as [v|]; [|reflexivity].
  destruct (v =? -1)%Z; reflexivity.
Qed.

Lemma answered_skipn (a : PracticeMode.array) (i : nat) :
  PracticeMode.answered (skipn (S i) a)
  <= PracticeMode.answered (skipn i a).
Proof.
  destruct (nth_error a i) as [x|] eqn:E.
  - rewrite (skipn_nth_error _ _ E), answered_cons. lia.
  - apply nth_error_None in E.
    rewrite !skipn_all2 by lia. reflexivity.
Qed.

Lemma readAt_nat (a : PracticeMode.array) (i : nat) :
  PracticeMode.readAt a (Z.of_nat i)
  = match nth_error a i with
    | Some (Some v) => Some v
    | _ => None
    end.
Proof.
  unfold PracticeMode.readAt.
  destruct (Z.ltb_spec (Z.of_nat i) 0) as [?|_]; [lia|].
  rewrite Nat2Z.id. reflexivity.
Qed.

Lemma strictEquals_nonneg (r : Q) (a : Z) :
  (0 <= r)%Q -> strictEquals (Finite r) (ofZ a) = true -> (0 <= a)%Z.
Proof.
  unfold strictEquals, ofZ. intros Hr E. apply Qeq_bool_iff in E.
  rewrite E in Hr. unfold Qle in Hr. simpl in Hr. lia.
Qed.

Lemma reduceScore_bound (answers : PracticeMode.array)
  (qs : list Question) : forall acc idx,
  Forall (fun q => exists r, correctIndex q = Finite r /\ (0 <= r)%Q) qs ->
  PracticeMode.reduceScore answers acc idx qs
  <= acc + PracticeMode.answered (skipn idx answers)
  /\ PracticeMode.reduceScore answers acc idx qs <= acc + length qs.
Proof.
  induction qs as [|q qs IH]; intros acc idx Hqs; simpl; [lia|].
  inversion Hqs as [|? ? (r & Hr & H0) Hqs']; subst.
  destruct (IH (acc + match PracticeMode.readAt answers (Z.of_nat idx) with
                      | Some a =>
                          if strictEquals (correctIndex q) (ofZ a)
                          then 1 else 0
                      | None => 0
                      end) (S idx) Hqs') as [IH1 IH2].
  pose proof (answered_skipn answers idx) as Hmono.
  rewrite readAt_nat in *.
  destruct (nth_error answers idx) as [[a|]|] eqn:E; try lia.
  rewrite Hr in *.
  destruct (strictEquals (Finite r) (ofZ a)) eqn:Es; [|lia].
  apply strictEquals_nonneg in Es; [|exact H0].
  split; [|lia].
  rewrite (skipn_nth_error _ _ E), answered_cons.
  destruct (Z.eqb_spec a (-1)) as [?|_]; lia.
Qed.

Section PracticeFacts.
Context `{Platform}.

(** X21: for the questions that [generatePracticeQuestions] returns,
    the score never exceeds the number of questions that have an
    answer: a question left at [-1] is never counted as right.  Nor
    does the score exceed the number of questions. *)
Theorem calculateScore_counts_answered (clock : nat -> N)
  (response : completion jsstring) (st : PracticeMode.State) :
  PracticeMode.questions st = generatePracticeQuestions clock response ->
  PracticeMode.calculateScore st
  <= PracticeMode.answered (PracticeMode.answers st)
  /\ PracticeMode.calculateScore st
     <= length (PracticeMode.questions st).
Proof.
  intros Hq. unfold PracticeMode.calculateScore.
  apply (@reduceScore_bound (PracticeMode.answers st)
           (PracticeMode.questions st) 0 0).
  rewrite Hq. eapply Forall_impl;
    [|apply generateQuestions_accepted].
  intros cq (q & j & Hacc). apply accepted_invariants in Hacc.
  destruct Hacc as (_ & (r & Hr & H0 & _) & _). eauto.
Qed.

End PracticeFacts.

Lemma calculateScore_counts_answered_witness :
  let st :=
    {| PracticeMode.step := 5; PracticeMode.loading := false;
       PracticeMode.questions :=
         generatePracticeQuestions (fun _ => 1700000000000%N)
           (Normal specResponse);
       PracticeMode.answers := [Some (-1)%Z];
       PracticeMode.timeTaken := [Some 3%Z];
       PracticeMode.currentQIndex := 0;
       PracticeMode.slideDir := PracticeMode.right;
       PracticeMode.touchStart := None;
       PracticeMode.touchEnd := None |} in
  PracticeMode.calculateScore st
  <= PracticeMode.answered (PracticeMode.answers st)
  /\ PracticeMode.calculateScore st
     <= length (PracticeMode.questions st).
Proof.
  intros st.
  apply (@calculateScore_counts_answered examplePlatform
           (fun _ => 1700000000000%N) (Normal specResponse) st).
  reflexivity.
Defined.

Lemma Qle_bool_false (x y : Q) : (y < x)%Q -> Qle_bool x y = false.
Proof.
  intros Hlt. destruct (Qle_bool x y) eqn:E; [|reflexivity].
  apply Qle_bool_iff in E. exfalso. exact (Qlt_not_le _ _ Hlt E).
Qed.

Lemma Qeq_bool_false (x y : Q) : ~ (x == y)%Q -> Qeq_bool x y = false.
Proof.
  intros Hne. destruct (Qeq_bool x y) eqn:E; [|reflexivity].
  apply Qeq_bool_iff in E. contradiction.
Qed.

(** X22: [onTouchEnd] does nothing when a coordinate is missing or is
    0, or when the two lie at most 50 apart.  When both are there and
    other than 0, it runs [goToNext] if the touch started more than 50
    to the right of its end (a move to the left) and [goToPrev] if it
    started more than 50 to the left of its end, and nothing else. *)
Theorem onTouchEnd_outcome (snap : PracticeMode.State)
  (now1 now1' now2 now2' : Z) (w : PracticeMode.World) :
  (PracticeMode.touchStart snap = None
   \/ PracticeMode.touchEnd snap = None
   \/ (exists a, PracticeMode.touchStart snap = Some a /\ (a == 0)%Q)
   \/ (exists b, PracticeMode.touchEnd snap = Some b /\ (b == 0)%Q) ->
   PracticeMode.onTouchEnd snap now1 now1' now2 now2' w = w)
  /\ (forall a b,
        PracticeMode.touchStart snap = Some a ->
        PracticeMode.touchEnd snap = Some b ->
        ~ (a == 0)%Q -> ~ (b == 0)%Q ->
        ((50 < a - b)%Q ->
         PracticeMode.onTouchEnd snap now1 now1' now2 now2' w
         = PracticeMode.goToNext snap now1 now1' w)
        /\ ((a - b < - (50))%Q ->
            PracticeMode.onTouchEnd snap now1 now1' now2 now2' w
            = PracticeMode.goToPrev snap now2 now2' w)
        /\ ((- (50) <= a - b)%Q -> (a - b <= 50)%Q ->
            PracticeMode.onTouchEnd snap now1 now1' now2 now2' w = w)).
Proof.
  unfold PracticeMode.onTouchEnd, PracticeMode.missing,
    PracticeMode.minSwipeDistance.
  split.
  - intros [Hs|[He|[(a & Hs & Ha)|(b & He & Hb)]]].
    + rewrite Hs. reflexivity.
    + rewrite He. rewrite orb_true_r. reflexivity.
    + rewrite Hs. apply Qeq_bool_iff in Ha. rewrite Ha. reflexivity.
    + rewrite He. apply Qeq_bool_iff in Hb. rewrite Hb.
      rewrite orb_true_r. reflexivity.
  - intros a b Hs He Ha Hb. rewrite Hs, He.
    rewrite (Qeq_bool_false Ha), (Qeq_bool_false Hb). cbn [orb].
    assert (Hbound : (- (50) < 50)%Q) by reflexivity.
    split; [|split].
    + intros Hleft. rewrite (Qle_bool_false Hleft).
      assert (E : Qle_bool (- (50)) (a - b) = true).
      { apply Qle_bool_iff. apply Qlt_le_weak.
        exact (Qlt_trans _ _ _ Hbound Hleft). }
      rewrite E. reflexivity.
    + intros Hright. rewrite (Qle_bool_false Hright).
      assert (E : Qle_bool (a - b) 50 = true).
      { apply Qle_bool_iff. apply Qlt_le_weak.
        exact (Qlt_trans _ _ _ Hright Hbound). }
      rewrite E. reflexivity.
    + intros Hlow Hhigh.
      apply Qle_bool_iff in Hlow. apply Qle_bool_iff in Hhigh.
      rewrite Hlow, Hhigh. reflexivity.
Qed.

Lemma onTouchEnd_outcome_witness :
  let w :=
    PracticeMode.onTouchMove 100
      (PracticeMode.onTouchStart 300
         (PracticeMode.run examStarted (PracticeMode.start 0))) in
  PracticeMode.onTouchEnd (PracticeMode.state w) 5000 5000 5000 5000 w
  = PracticeMode.goToNext (PracticeMode.state w) 5000 5000 w
  /\ PracticeMode.currentQIndex
       (PracticeMode.state
          (PracticeMode.onTouchEnd (PracticeMode.state w) 5000 5000 5000
             5000 w))
     = 1%Z.
Proof.
  intros w. split; [|vm_compute; reflexivity].
  assert (Hs : PracticeMode.touchStart (PracticeMode.state w) = Some 300%Q)
    by (vm_compute; reflexivity).
  assert (He : PracticeMode.touchEnd (PracticeMode.state w) = Some 100%Q)
    by (vm_compute; reflexivity).
  apply (proj1 (proj2 (@onTouchEnd_outcome (PracticeMode.state w)
                         5000 5000 5000 5000 w)
                  300%Q 100%Q Hs He
                  ltac:(discriminate) ltac:(discriminate))).
  reflexivity.
Defined.

Lemma replaceAt_length (a : PracticeMode.array) (v : Z) : forall i,
  length (PracticeMode.replaceAt a i v) = length a.
Proof.
  induction a as [|x a IH]; intros [|i]; simpl; auto.
Qed.

Lemma replaceAt_nth (a : PracticeMode.array) (v : Z) : forall i,
  i < length a -> nth_error (PracticeMode.replaceAt a i v) i = Some (Some v).
Proof.
  induction a as [|x a IH]; intros [|i] Hi; simpl in *; try lia.
  - reflexivity.
  - apply IH. lia.
Qed.

Lemma replaceAt_nth_other (a : PracticeMode.array) (v : Z) : forall i j,
  i <> j -> nth_error (PracticeMode.replaceAt a i v) j = nth_error a j.
Proof.
  induction a as [|x a IH]; intros [|i] [|j] Hij; simpl; try reflexivity.
  - contradiction.
  - apply IH. lia.
Qed.

Lemma replaceAt_dense (a : PracticeMode.array) (v : Z) : forall i,
  PracticeMode.dense a -> PracticeMode.dense (PracticeMode.replaceAt a i v).
Proof.
  unfold PracticeMode.dense.
  induction a as [|x a IH]; intros [|i] Ha; simpl; auto;
    inversion Ha; subst; constructor; auto; discriminate.
Qed.

Lemma writeAt_within (a : PracticeMode.array) (i v : Z) :
  (0 <= i < Z.of_nat (length a))%Z ->
  PracticeMode.writeAt a i v = PracticeMode.replaceAt a (Z.to_nat i) v.
Proof.
  intros Hi. unfold PracticeMode.writeAt.
  destruct (Z.ltb_spec i 0) as [?|_]; [lia|].
  destruct (Nat.ltb_spec (Z.to_nat i) (length a)) as [_|?]; [|lia].
  reflexivity.
Qed.

Lemma readAt_writeAt (a : PracticeMode.array) (i v : Z) :
  (0 <= i)%Z -> PracticeMode.readAt (PracticeMode.writeAt a i v) i = Some v.
Proof.
  intros Hi. unfold PracticeMode.readAt, PracticeMode.writeAt.
  destruct (Z.ltb_spec i 0) as [?|_]; [lia|].
  destruct (Nat.ltb_spec (Z.to_nat i) (length a)) as [Hlt|Hge].
  - rewrite replaceAt_nth by exact Hlt. reflexivity.
  - rewrite nth_error_app2 by lia.
    rewrite nth_error_app2 by (rewrite repeat_length; lia).
    rewrite repeat_length, Nat.sub_diag. reflexivity.
Qed.

Lemma clearAutoAdvance_state (w : PracticeMode.World) :
  PracticeMode.state (PracticeMode.clearAutoAdvance w) = PracticeMode.state w
  /\ PracticeMode.questionStartTime (PracticeMode.clearAutoAdvance w)
     = PracticeMode.questionStartTime w
  /\ PracticeMode.nextTimer (PracticeMode.clearAutoAdvance w)
     = PracticeMode.nextTimer w.
Proof.
  unfold PracticeMode.clearAutoAdvance.
  destruct (PracticeMode.autoAdvanceTimer w) as [[|id]|]; simpl; auto.
Qed.

(** X23: on the first question [goToPrev], which a move to the right
    calls, records the time spent but does not start the clock again:
    the next recording, here by [goToNext], counts the time since the
    question was shown once more. *)
Theorem first_question_time_counted_twice (w : PracticeMode.World)
  (t now1 now1' now2 now2' : Z) :
  PracticeMode.currentQIndex (PracticeMode.state w) = 0%Z ->
  PracticeMode.readAt (PracticeMode.timeTaken (PracticeMode.state w)) 0
  = Some t ->
  let shown := PracticeMode.questionStartTime w in
  let w1 := PracticeMode.goToPrev (PracticeMode.state w) now1 now1' w in
  let w2 := PracticeMode.goToNext (PracticeMode.state w1) now2 now2' w1 in
  PracticeMode.currentQIndex (PracticeMode.state w1) = 0%Z
  /\ PracticeMode.questionStartTime w1 = shown
  /\ PracticeMode.readAt (PracticeMode.timeTaken (PracticeMode.state w2)) 0
     = Some (t + (now1 - shown) / 1000 + (now2 - shown) / 1000)%Z.
Proof.
  intros Hidx Ht shown w1 w2.
  destruct (clearAutoAdvance_state w) as (Es & Eq & _).
  assert (E1 : PracticeMode.state w1
               = PracticeMode.setTimeTaken
                   (fun prev =>
                      PracticeMode.writeAt prev 0
                        (match PracticeMode.readAt prev 0 with
                         | Some t => t
                         | None => 0
                         end + (now1 - shown) / 1000)%Z)
                   (PracticeMode.state w)
               /\ PracticeMode.questionStartTime w1 = shown).
  { unfold w1, PracticeMode.goToPrev, PracticeMode.recordTime.
    rewrite Hidx. simpl. rewrite Es, Eq. auto. }
  destruct E1 as [E1 Q1].
  assert (I1 : PracticeMode.currentQIndex (PracticeMode.state w1) = 0%Z)
    by (rewrite E1; exact Hidx).
  split; [exact I1|]. split; [exact Q1|].
  destruct (clearAutoAdvance_state w1) as (Es1 & Eq1 & _).
  assert (E2 : PracticeMode.timeTaken (PracticeMode.state w2)
               = PracticeMode.writeAt
                   (PracticeMode.timeTaken (PracticeMode.state w1)) 0
                   (match PracticeMode.readAt
                            (PracticeMode.timeTaken (PracticeMode.state w1))
                            0 with
                    | Some t => t
                    | None => 0
                    end + (now2 - shown) / 1000)%Z).
  { unfold w2, PracticeMode.goToNext, PracticeMode.recordTime.
    rewrite I1.
    destruct (_ <? _)%Z; simpl; rewrite Es1, Eq1, Q1; reflexivity. }
  rewrite E2. rewrite readAt_writeAt by lia.
  rewrite E1. simpl. rewrite readAt_writeAt by lia. rewrite Ht.
  reflexivity.
Qed.

Lemma first_question_time_counted_twice_witness :
  let w :=
    PracticeMode.startPractice [exampleQuestion; exampleQuestion] 0
      (PracticeMode.start 0) in
  let w1 := PracticeMode.goToPrev (PracticeMode.state w) 5000 5000 w in
  let w2 := PracticeMode.goToNext (PracticeMode.state w1) 8000 8000 w1 in
  PracticeMode.readAt (PracticeMode.timeTaken (PracticeMode.state w2)) 0
  = Some 13%Z.
Proof.
  intros w w1 w2.
  apply (proj2 (proj2 (@first_question_time_counted_twice w 0 5000 5000
                         8000 8000 eq_refl eq_refl))).
Defined.

(** *** The quiz *)

Lemma writeAt_keeps (a : PracticeMode.array) (i v : Z) (n : nat) :
  length a = n -> PracticeMode.dense a -> (0 <= i < Z.of_nat n)%Z ->
  length (PracticeMode.writeAt a i v) = n
  /\ PracticeMode.dense (PracticeMode.writeAt a i v).
Proof.
  intros Hl Hd Hi. rewrite writeAt_within by lia.
  rewrite replaceAt_length. split; [exact Hl|].
  apply replaceAt_dense. exact Hd.
Qed.

Lemma fill_keeps (n : nat) (v : Z) :
  length (PracticeMode.fill n v) = n
  /\ PracticeMode.dense (PracticeMode.fill n v).
Proof.
  unfold PracticeMode.fill, PracticeMode.dense.
  split; [apply repeat_length|].
  induction n; simpl; constructor; [discriminate|assumption].
Qed.

Lemma clearAutoAdvance_invariant (w : PracticeMode.World) :
  PracticeMode.invariant w ->
  PracticeMode.invariant (PracticeMode.clearAutoAdvance w)
  /\ PracticeMode.pending (PracticeMode.clearAutoAdvance w) = [].
Proof.
  intros Hinv.
  assert (Hcases :
            PracticeMode.pending w = []
            \/ exists id snap,
                 PracticeMode.pending w = [(S id, snap)]
                 /\ PracticeMode.autoAdvanceTimer w = Some (S id))
    by (destruct Hinv as (_ & _ & _ & _ & [Hp|(id & snap & Hp & Ha & _)]);
        [left; exact Hp|right; eauto]).
  unfold PracticeMode.clearAutoAdvance.
  destruct (PracticeMode.autoAdvanceTimer w) as [[|id]|] eqn:Ea.
  - split; [exact Hinv|].
    destruct Hcases as [Hp|(id & snap & _ & Ha)]; [exact Hp|discriminate].
  - assert (Hp : filter (fun t : nat * PracticeMode.State =>
                           negb (fst t =? S id))
                   (PracticeMode.pending w) = []).
    { destruct Hcases as [->|(id' & snap & -> & Ha)]; [reflexivity|].
      injection Ha as <-. simpl. rewrite Nat.eqb_refl. reflexivity. }
    split; [|exact Hp].
    destruct Hinv as (Hn & Hl & H5 & Harr & _).
    unfold PracticeMode.invariant. simpl.
    repeat (split; [assumption|]). left. exact Hp.
  - split; [exact Hinv|].
    destruct Hcases as [Hp|(id & snap & _ & Ha)]; [exact Hp|discriminate].
Qed.

Lemma recordTime_invariant (snap : PracticeMode.State) (now : Z)
  (w : PracticeMode.World) :
  PracticeMode.invariant w ->
  PracticeMode.currentQIndex snap
  = PracticeMode.currentQIndex (PracticeMode.state w) ->
  PracticeMode.invariant (PracticeMode.recordTime snap now w).
Proof.
  intros (Hn & Hl & H5 & Harr & Hp) Hidx.
  unfold PracticeMode.invariant, PracticeMode.recordTime,
    PracticeMode.screen in *.
  simpl. repeat (split; [assumption|]). split; [|exact Hp].
  intros Hq. destruct (Harr Hq) as (La & Lt & Da & Dt & Hi).
  rewrite Hidx.
  destruct (@writeAt_keeps
              (PracticeMode.timeTaken (PracticeMode.state w))
              (PracticeMode.currentQIndex (PracticeMode.state w))
              (match PracticeMode.readAt
                       (PracticeMode.timeTaken (PracticeMode.state w))
                       (PracticeMode.currentQIndex (PracticeMode.state w))
               with
               | Some t => t
               | None => 0
               end
               + (now - PracticeMode.questionStartTime w) / 1000)%Z
              _ Lt Dt Hi) as [L D].
  auto.
Qed.

Lemma recordTime_pending (snap : PracticeMode.State) (now : Z)
  (w : PracticeMode.World) :
  PracticeMode.pending (PracticeMode.recordTime snap now w)
  = PracticeMode.pending w
  /\ PracticeMode.questions (PracticeMode.state
                              (PracticeMode.recordTime snap now w))
     = PracticeMode.questions (PracticeMode.state w)
  /\ PracticeMode.currentQIndex (PracticeMode.state
                                  (PracticeMode.recordTime snap now w))
     = PracticeMode.currentQIndex (PracticeMode.state w).
Proof. unfold PracticeMode.recordTime. simpl. auto. Qed.

Lemma cleared_recorded (snap : PracticeMode.State) (now : Z)
  (w : PracticeMode.World) :
  PracticeMode.invariant w ->
  PracticeMode.currentQIndex snap
  = PracticeMode.currentQIndex (PracticeMode.state w) ->
  let w' := PracticeMode.recordTime snap now
              (PracticeMode.clearAutoAdvance w) in
  PracticeMode.invariant w' /\ PracticeMode.pending w' = []
  /\ PracticeMode.questions (PracticeMode.state w')
     = PracticeMode.questions (PracticeMode.state w)
  /\ PracticeMode.currentQIndex (PracticeMode.state w')
     = PracticeMode.currentQIndex (PracticeMode.state w).
Proof.
  intros Hinv Hidx w'.
  destruct (clearAutoAdvance_invariant Hinv) as [Hinv1 Hp1].
  destruct (clearAutoAdvance_state w) as (Es & _ & _).
  destruct (recordTime_pending snap now (PracticeMode.clearAutoAdvance w))
    as (Ep & Eq & Ei).
  split; [apply recordTime_invariant; [exact Hinv1|rewrite Es; exact Hidx]|].
  unfold w'. rewrite Ep, Eq, Ei, Es. auto.
Qed.

Lemma goToNext_invariant (snap : PracticeMode.State) (now now' : Z)
  (w : PracticeMode.World) :
  PracticeMode.invariant w ->
  PracticeMode.questions (PracticeMode.state w) <> [] ->
  PracticeMode.questions snap
  = PracticeMode.questions (PracticeMode.state w) ->
  PracticeMode.currentQIndex snap
  = PracticeMode.currentQIndex (PracticeMode.state w) ->
  PracticeMode.invariant (PracticeMode.goToNext snap now now' w).
Proof.
  intros Hinv Hne Hq Hidx.
  destruct (@cleared_recorded snap now w Hinv Hidx)
    as ((Hn & Hl & H5 & Harr & _) & Hp & Eq & Ei).
  unfold PracticeMode.goToNext. rewrite Hq, Hidx.
  set (w' := PracticeMode.recordTime snap now
               (PracticeMode.clearAutoAdvance w)) in *.
  rewrite <- Eq in Hne.
  destruct (Harr Hne) as (La & Lt & Da & Dt & Hi).
  destruct (Z.ltb_spec
              (PracticeMode.currentQIndex (PracticeMode.state w))
              (Z.of_nat (length (PracticeMode.questions
                                   (PracticeMode.state w))) - 1)) as [Hlt|Hge];
    unfold PracticeMode.invariant; simpl.
  - repeat (split; [assumption|]). split; [|left; exact Hp].
    intros _. repeat (split; [assumption|]).
    destruct (clearAutoAdvance_state w) as (Es & _).
    rewrite Es. rewrite Ei, Eq in Hi. lia.
  - split; [exact Hn|]. split; [exact Hl|]. split; [intros _; exact Hne|].
    split; [|left; exact Hp].
    intros _. repeat (split; [assumption|]). exact Hi.
Qed.

Lemma goToPrev_invariant (snap : PracticeMode.State) (now now' : Z)
  (w : PracticeMode.World) :
  PracticeMode.invariant w ->
  PracticeMode.currentQIndex snap
  = PracticeMode.currentQIndex (PracticeMode.state w) ->
  PracticeMode.invariant (PracticeMode.goToPrev snap now now' w).
Proof.
  intros Hinv Hidx.
  destruct (@cleared_recorded snap now w Hinv Hidx)
    as (Hinv' & Hp & Eq & Ei).
  unfold PracticeMode.goToPrev. rewrite Hidx.
  set (w' := PracticeMode.recordTime snap now
               (PracticeMode.clearAutoAdvance w)) in *.
  destruct (Z.ltb_spec 0
              (PracticeMode.currentQIndex (PracticeMode.state w)))
    as [Hlt|Hge]; [|exact Hinv'].
  destruct Hinv' as (Hn & Hl & H5 & Harr & _).
  unfold PracticeMode.invariant; simpl.
  repeat (split; [assumption|]). split; [|left; exact Hp].
  intros Hne. destruct (Harr Hne) as (La & Lt & Da & Dt & Hi).
  repeat (split; [assumption|]).
  destruct (clearAutoAdvance_state w) as (Es & _).
  rewrite Es. rewrite Ei, Eq in Hi. lia.
Qed.

Lemma screen_Quiz (st : PracticeMode.State) :
  PracticeMode.screen st = PracticeMode.Quiz ->
  PracticeMode.questions st <> [].
Proof.
  unfold PracticeMode.screen.
  destruct (PracticeMode.loading st); [discriminate|].
  destruct (PracticeMode.step st) as [|[|[|[|[|[|n]]]]]];
    try discriminate;
    destruct (PracticeMode.questions st); discriminate.
Qed.

Lemma pending_only_on_quiz (w : PracticeMode.World) :
  PracticeMode.invariant w ->
  PracticeMode.screen (PracticeMode.state w) <> PracticeMode.Quiz ->
  PracticeMode.pending w = [].
Proof.
  intros (_ & _ & _ & _ & [Hp|(id & snap & _ & _ & Hs & _)]) Hno;
    [exact Hp|contradiction].
Qed.

Lemma handleSelectAnswer_invariant (optIdx : nat) (w : PracticeMode.World) :
  PracticeMode.invariant w ->
  PracticeMode.screen (PracticeMode.state w) = PracticeMode.Quiz ->
  PracticeMode.invariant
    (PracticeMode.handleSelectAnswer (PracticeMode.state w) optIdx w).
Proof.
  intros Hinv Hs. pose proof (screen_Quiz _ Hs) as Hne.
  set (st := PracticeMode.state w) in *.
  set (w1 := PracticeMode.onState
               (PracticeMode.setAnswers
                  (PracticeMode.writeAt (PracticeMode.answers st)
                     (PracticeMode.currentQIndex st) (Z.of_nat optIdx))) w).
  assert (Hinv1 : PracticeMode.invariant w1).
  { destruct Hinv as (Hn & Hl & H5 & Harr & Hp).
    unfold PracticeMode.invariant, w1. simpl. fold st.
    repeat (split; [assumption|]). split; [|exact Hp].
    intros _. destruct (Harr Hne) as (La & Lt & Da & Dt & Hi).
    destruct (@writeAt_keeps (PracticeMode.answers st)
                (PracticeMode.currentQIndex st) (Z.of_nat optIdx)
                _ La Da Hi) as [L D].
    auto. }
  unfold PracticeMode.handleSelectAnswer. fold st. cbv zeta. fold w1.
  destruct (Z.ltb_spec (PracticeMode.currentQIndex st)
              (Z.of_nat (length (PracticeMode.questions st)) - 1))
    as [Hlt|Hge]; [|exact Hinv1].
  destruct (clearAutoAdvance_invariant Hinv1)
    as ((Hn & Hl & H5 & Harr & _) & Hp).
  destruct (clearAutoAdvance_state w1) as (Es & _ & _).
  unfold PracticeMode.setTimeout, PracticeMode.invariant. simpl.
  rewrite Hp, Es in *. simpl in *. fold st in Harr, Hl, H5 |- *.
  split; [lia|]. repeat (split; [assumption|]).
  right. destruct (PracticeMode.nextTimer (PracticeMode.clearAutoAdvance w1))
    as [|k] eqn:Ek; [lia|].
  exists k, st. repeat (split; [reflexivity|]).
  split; [exact Hs|]. auto.
Qed.

Lemma navigate_invariant (to : nat) (w : PracticeMode.World) :
  PracticeMode.invariant w ->
  PracticeMode.navigates (PracticeMode.screen (PracticeMode.state w)) to
  = true ->
  PracticeMode.invariant (PracticeMode.onState (PracticeMode.setStep to) w).
Proof.
  intros Hinv Hnav.
  assert (Hp : PracticeMode.pending w = []).
  { apply pending_only_on_quiz; [exact Hinv|]. intros Es.
    rewrite Es in Hnav. discriminate. }
  assert (Hto : to <> 5).
  { intros ->. destruct (PracticeMode.screen _); discriminate. }
  destruct Hinv as (Hn & Hl & H5 & Harr & _).
  unfold PracticeMode.invariant. simpl.
  split; [exact Hn|]. split; [exact Hl|].
  split; [intros; contradiction|]. split; [exact Harr|]. left. exact Hp.
Qed.

Lemma startPractice_invariant (qs : list Question) (now : Z)
  (w : PracticeMode.World) :
  PracticeMode.invariant w ->
  PracticeMode.screen (PracticeMode.state w) = PracticeMode.Setup ->
  PracticeMode.invariant (PracticeMode.startPractice qs now w).
Proof.
  intros Hinv Hs.
  assert (Hp : PracticeMode.pending w = []).
  { apply pending_only_on_quiz; [exact Hinv|]. rewrite Hs. discriminate. }
  destruct Hinv as (Hn & _ & _ & _ & _).
  unfold PracticeMode.startPractice, PracticeMode.invariant.
  destruct (Nat.ltb_spec 0 (length qs)) as [Hq|Hq]; simpl.
  - split; [exact Hn|]. split; [reflexivity|].
    split; [discriminate|]. split; [|left; exact Hp].
    intros _. destruct (fill_keeps (length qs) (-1)) as [La Da].
    destruct (fill_keeps (length qs) 0) as [Lt Dt].
    repeat (split; [assumption|]). lia.
  - split; [exact Hn|]. split; [reflexivity|].
    split; [discriminate|]. split; [|left; exact Hp].
    intros Hne. contradiction.
Qed.

Lemma submit_invariant (now : Z) (w : PracticeMode.World) :
  PracticeMode.invariant w ->
  PracticeMode.screen (PracticeMode.state w) = PracticeMode.Quiz ->
  PracticeMode.currentQIndex (PracticeMode.state w)
  = (Z.of_nat (length (PracticeMode.questions (PracticeMode.state w))) - 1)%Z
  ->
  PracticeMode.invariant
    (PracticeMode.onState (PracticeMode.setStep 5)
       (PracticeMode.recordTime (PracticeMode.state w) now w)).
Proof.
  intros Hinv Hs Hlast. pose proof (screen_Quiz _ Hs) as Hne.
  assert (Hp : PracticeMode.pending w = []).
  { destruct Hinv
      as (_ & _ & _ & _ & [Hp|(id & snap & _ & _ & _ & _ & _ & Hlt)]);
      [exact Hp|lia]. }
  pose proof (@recordTime_invariant (PracticeMode.state w) now w Hinv
                eq_refl) as (Hn & Hl & _ & Harr & _).
  unfold PracticeMode.invariant. simpl in *.
  split; [exact Hn|]. split; [exact Hl|]. split; [intros _; exact Hne|].
  split; [exact Harr|]. left. exact Hp.
Qed.

Lemma onTouchEnd_cases (snap : PracticeMode.State)
  (now1 now1' now2 now2' : Z) (w : PracticeMode.World) :
  PracticeMode.onTouchEnd snap now1 now1' now2 now2' w = w
  \/ PracticeMode.onTouchEnd snap now1 now1' now2 now2' w
     = PracticeMode.goToNext snap now1 now1' w
  \/ PracticeMode.onTouchEnd snap now1 now1' now2 now2' w
     = PracticeMode.goToPrev snap now2 now2' w.
Proof.
  unfold PracticeMode.onTouchEnd, PracticeMode.minSwipeDistance.
  destruct (_ || _)%bool; [left; reflexivity|].
  destruct (PracticeMode.touchStart snap) as [a|]; [|left; reflexivity].
  destruct (PracticeMode.touchEnd snap) as [b|]; [|left; reflexivity].
  destruct (Qle_bool (a - b) 50) eqn:E1;
    destruct (Qle_bool (- (50)) (a - b)) eqn:E2; cbn [negb]; auto.
  exfalso.
  assert (H1 : (50 < a - b)%Q)
    by (apply Qnot_le_lt; intros Hle; apply Qle_bool_iff in Hle;
        congruence).
  assert (H2 : (a - b < - (50))%Q)
    by (apply Qnot_le_lt; intros Hle; apply Qle_bool_iff in Hle;
        congruence).
  pose proof (Qlt_trans _ _ _ H1 H2) as Habs.
  revert Habs. unfold Qlt. simpl. lia.
Qed.

Lemma timer_invariant (id : nat) (now now' : Z) (w : PracticeMode.World) :
  PracticeMode.invariant w ->
  PracticeMode.invariant
    match find (fun t : nat * PracticeMode.State => fst t =? id)
            (PracticeMode.pending w) with
    | Some (_, snap) =>
        PracticeMode.goToNext snap now now' (PracticeMode.clearTimeout id w)
    | None => w
    end.
Proof.
  intros Hinv.
  destruct Hinv as (Hn & Hl & H5 & Harr & Hp).
  destruct Hp as [Hp|(id0 & snap & Hp & Ha & Hs & Hq & Hi & Hlt)].
  - rewrite Hp. simpl. unfold PracticeMode.invariant. auto 10.
  - rewrite Hp. cbn [find fst].
    destruct (Nat.eqb_spec (S id0) id) as [<-|Hneq].
    + apply goToNext_invariant; simpl; try assumption.
      * unfold PracticeMode.invariant. simpl.
        repeat (split; [assumption|]). left.
        rewrite Hp. simpl. rewrite Nat.eqb_refl. reflexivity.
      * apply screen_Quiz. exact Hs.
    + unfold PracticeMode.invariant.
      repeat (split; [assumption|]). right. exists id0, snap. auto 10.
Qed.

Lemma handle_invariant (e : PracticeMode.Event) (w : PracticeMode.World) :
  PracticeMode.invariant w -> PracticeMode.invariant (PracticeMode.handle e w).
Proof.
  intros Hinv. unfold PracticeMode.handle. cbv zeta.
  destruct e as [to|qs now|optIdx|now now'|now now'|now|x|x
                |now1 now1' now2 now2'|id now now'].
  - destruct (PracticeMode.navigates _ to) eqn:En; [|exact Hinv].
    apply navigate_invariant; assumption.
  - destruct (PracticeMode.screen (PracticeMode.state w)) eqn:Es;
      try exact Hinv.
    apply startPractice_invariant; assumption.
  - destruct (PracticeMode.screen (PracticeMode.state w)) eqn:Es;
      try exact Hinv.
    apply handleSelectAnswer_invariant; assumption.
  - destruct (PracticeMode.screen (PracticeMode.state w)) eqn:Es;
      try exact Hinv.
    destruct (_ =? _)%Z; [exact Hinv|].
    apply goToNext_invariant;
      [exact Hinv|apply screen_Quiz; exact Es|reflexivity|reflexivity].
  - destruct (PracticeMode.screen (PracticeMode.state w)) eqn:Es;
      try exact Hinv.
    destruct (_ =? _)%Z; [exact Hinv|].
    apply goToPrev_invariant; [exact Hinv|reflexivity].
  - destruct (PracticeMode.screen (PracticeMode.state w)) eqn:Es;
      try exact Hinv.
    destruct (Z.eqb_spec (PracticeMode.currentQIndex (PracticeMode.state w))
                (Z.of_nat (length (PracticeMode.questions
                                     (PracticeMode.state w))) - 1))
      as [Hlast|_]; [|exact Hinv].
    apply submit_invariant; assumption.
  - (* the touch changes no field that the invariant reads *)
    destruct (PracticeMode.screen (PracticeMode.state w)); exact Hinv.
  - destruct (PracticeMode.screen (PracticeMode.state w)); exact Hinv.
  - destruct (PracticeMode.screen (PracticeMode.state w)) eqn:Es;
      try exact Hinv.
    destruct (onTouchEnd_cases (PracticeMode.state w) now1 now1' now2 now2'
                w) as [->|[->| ->]].
    + exact Hinv.
    + apply goToNext_invariant;
        [exact Hinv|apply screen_Quiz; exact Es|reflexivity|reflexivity].
    + apply goToPrev_invariant; [exact Hinv|reflexivity].
  - destruct (PracticeMode.screen (PracticeMode.state w));
      apply timer_invariant; exact Hinv.
Qed.

Lemma practice_run_invariant (events : list PracticeMode.Event) :
  forall w, PracticeMode.invariant w ->
            PracticeMode.invariant (PracticeMode.run events w).
Proof.
  induction events as [|e events IH]; intros w Hw; simpl; [exact Hw|].
  apply IH. apply handle_invariant. exact Hw.
Qed.

Lemma practice_start_invariant (now : Z) :
  PracticeMode.invariant (PracticeMode.start now).
Proof.
  unfold PracticeMode.invariant. simpl.
  split; [lia|]. split; [reflexivity|]. split; [discriminate|].
  split; [intros Hne; contradiction|]. left. reflexivity.
Qed.

Lemma screen_Result (st : PracticeMode.State) :
  PracticeMode.screen st = PracticeMode.Result -> PracticeMode.step st = 5.
Proof.
  unfold PracticeMode.screen.
  destruct (PracticeMode.loading st); [discriminate|].
  destruct (PracticeMode.step st) as [|[|[|[|[|[|n]]]]]];
    try discriminate; try reflexivity;
    destruct (PracticeMode.questions st); discriminate.
Qed.

(** X24: whatever is pressed, touched or timed in [PracticeMode], on
    the screen of the quiz and on the screen of the result the arrays
    of the answers and of the times have one entry for each question
    and no hole, and on the screen of the quiz the current index is
    that of a question. *)
Theorem practice_arrays_match_questions (mounted : Z)
  (events : list PracticeMode.Event) :
  let st := PracticeMode.state
              (PracticeMode.run events (PracticeMode.start mounted)) in
  PracticeMode.screen st = PracticeMode.Quiz
  \/ PracticeMode.screen st = PracticeMode.Result ->
  length (PracticeMode.answers st) = length (PracticeMode.questions st)
  /\ length (PracticeMode.timeTaken st) = length (PracticeMode.questions st)
  /\ PracticeMode.dense (PracticeMode.answers st)
  /\ PracticeMode.dense (PracticeMode.timeTaken st)
  /\ (PracticeMode.screen st = PracticeMode.Quiz ->
      (0 <= PracticeMode.currentQIndex st)%Z
      /\ exists currentQ,
           nth_error (PracticeMode.questions st)
             (Z.to_nat (PracticeMode.currentQIndex st)) = Some currentQ).
Proof.
  intros st Hs.
  pose proof (@practice_run_invariant events _
                (practice_start_invariant mounted)) as Hinv.
  destruct Hinv as (_ & _ & H5 & Harr & _). fold st in H5, Harr.
  assert (Hne : PracticeMode.questions st <> []).
  { destruct Hs as [Hs|Hs]; [apply screen_Quiz; exact Hs|].
    apply H5. apply screen_Result. exact Hs. }
  destruct (Harr Hne) as (La & Lt & Da & Dt & Hi).
  repeat (split; [assumption|]). intros _. split; [lia|].
  destruct (nth_error (PracticeMode.questions st)
              (Z.to_nat (PracticeMode.currentQIndex st))) as [q|] eqn:E;
    [eauto|].
  apply nth_error_None in E. lia.
Qed.

(** X25: a timer of the automatic advance that is still set belongs to
    the question on the screen: it is the only timer, and when it fires
    the quiz moves on by one question. *)
Theorem auto_advance_timer_is_current (mounted : Z)
  (events : list PracticeMode.Event) (id : nat)
  (snap : PracticeMode.State) (now now' : Z) :
  let w := PracticeMode.run events (PracticeMode.start mounted) in
  In (id, snap) (PracticeMode.pending w) ->
  PracticeMode.pending w = [(id, snap)]
  /\ PracticeMode.screen (PracticeMode.state w) = PracticeMode.Quiz
  /\ PracticeMode.currentQIndex snap
     = PracticeMode.currentQIndex (PracticeMode.state w)
  /\ let w' := PracticeMode.handle (PracticeMode.TimerFires id now now') w in
     PracticeMode.currentQIndex (PracticeMode.state w')
     = (PracticeMode.currentQIndex (PracticeMode.state w) + 1)%Z
     /\ PracticeMode.step (PracticeMode.state w')
        = PracticeMode.step (PracticeMode.state w)
     /\ PracticeMode.pending w' = [].
Proof.
  intros w Hin.
  pose proof (@practice_run_invariant events _
                (practice_start_invariant mounted)) as Hinv.
  fold w in Hinv.
  destruct Hinv as (Hn & Hl & H5 & Harr & Hp).
  destruct Hp as [Hp|(id0 & snap0 & Hp & Ha & Hs & Hq & Hi & Hlt)];
    [rewrite Hp in Hin; destruct Hin|].
  rewrite Hp in Hin. destruct Hin as [[= <- <-]|[]].
  split; [exact Hp|]. split; [exact Hs|]. split; [exact Hi|].
  cbv zeta. unfold PracticeMode.handle. cbv zeta.
  assert (Ew : match find (fun t : nat * PracticeMode.State =>
                             fst t =? S id0) (PracticeMode.pending w) with
               | Some (_, snap) =>
                   PracticeMode.goToNext snap now now'
                     (PracticeMode.clearTimeout (S id0) w)
               | None => w
               end
               = PracticeMode.goToNext snap0 now now'
                   (PracticeMode.clearTimeout (S id0) w)).
  { rewrite Hp. cbn [find fst]. rewrite Nat.eqb_refl. reflexivity. }
  assert (Eg : let w' := PracticeMode.goToNext snap0 now now'
                           (PracticeMode.clearTimeout (S id0) w) in
               PracticeMode.currentQIndex (PracticeMode.state w')
               = (PracticeMode.currentQIndex (PracticeMode.state w) + 1)%Z
               /\ PracticeMode.step (PracticeMode.state w')
                  = PracticeMode.step (PracticeMode.state w)
               /\ PracticeMode.pending w' = []).
  { cbv zeta. unfold PracticeMode.goToNext. rewrite Hq, Hi.
    destruct (Z.ltb_spec
                (PracticeMode.currentQIndex (PracticeMode.state w))
                (Z.of_nat (length (PracticeMode.questions
                                     (PracticeMode.state w))) - 1))
      as [_|Hge]; [|lia].
    unfold PracticeMode.clearAutoAdvance, PracticeMode.clearTimeout.
    cbn [PracticeMode.autoAdvanceTimer PracticeMode.pending].
    rewrite Ha, Hp. simpl. rewrite Nat.eqb_refl. simpl. auto. }
  destruct (PracticeMode.screen (PracticeMode.state w));
    rewrite Ew; exact Eg.
Qed.

Lemma practice_arrays_match_questions_witness :
  let st := PracticeMode.state
              (PracticeMode.run examAnswered (PracticeMode.start 0)) in
  PracticeMode.screen st = PracticeMode.Quiz
  /\ PracticeMode.answers st = [Some 0%Z; Some (-1)%Z]
  /\ length (PracticeMode.answers st) = length (PracticeMode.questions st).
Proof.
  intros st. split; [reflexivity|]. split; [reflexivity|].
  apply (proj1 (@practice_arrays_match_questions 0 examAnswered
                  (or_introl eq_refl))).
Defined.

Lemma auto_advance_timer_is_current_witness :
  PracticeMode.currentQIndex
    (PracticeMode.state
       (PracticeMode.handle (PracticeMode.TimerFires 1 1600 1600)
          (PracticeMode.run examAnswered (PracticeMode.start 0))))
  = 1%Z.
Proof.
  assert (Hin : In (1, PracticeMode.state
                         (PracticeMode.run examStarted
                            (PracticeMode.start 0)))
                  (PracticeMode.pending
                     (PracticeMode.run examAnswered
                        (PracticeMode.start 0))))
    by (vm_compute; left; reflexivity).
  etransitivity;
    [apply (proj1 (proj2 (proj2 (proj2
              (@auto_advance_timer_is_current 0 examAnswered 1
                 (PracticeMode.state
                    (PracticeMode.run examStarted (PracticeMode.start 0)))
                 1600 1600 Hin)))))
    |vm_compute; reflexivity].
Defined.
